(** * Verification of the Mongo storage adapter (server/mongo/src/storage.ts)

    A shallow embedding of the query translator, the transaction bulk
    translator, the bulk flush and the change-hash iterator of
    [storage.ts], followed by the properties proved about them.

    JavaScript values are embedded as the inductive type [JsVal]; objects
    keep their keys in insertion order (an association list), because the
    source depends on it ([Object.keys(o)[0]], the order of [Map] entries
    in the emitted operation list).  Numbers are the integers [Z] (the
    adapter only handles time stamps, sizes and positions).  Exceptions
    are the [Throw] case of [Res].  The document database, its regular
    expression engine and the functions imported from other packages are
    not part of [storage.ts]; they are parameters of the development or
    small executable models, each marked as such. *)

From Stdlib Require Import String Ascii List ZArith NArith Bool Lia Arith PeanoNat.
From Stdlib Require Import DecimalString Permutation.
Import ListNotations.

Local Open Scope string_scope.
Local Open Scope list_scope.

Notation "a +s+ b" := (String.append a b) (at level 60, right associativity).

(** ** JavaScript values *)

#[local] Set Warnings "-register-all".

Inductive JsVal : Type :=
| JUndef
| JNull
| JBool (b : bool)
| JNum (n : Z)
| JStr (s : string)
| JArr (items : list JsVal)
| JObj (fields : list (string * JsVal)).

(** An object: its own enumerable properties, in insertion order. *)
Definition JsObj : Type := list (string * JsVal).

(** Exceptions. *)
Inductive Res (A : Type) : Type :=
| Ok (a : A)
| Throw (msg : string).
Arguments Ok {A} a.
Arguments Throw {A} msg.

Definition bind {A B : Type} (r : Res A) (k : A -> Res B) : Res B :=
  match r with
  | Ok a => k a
  | Throw m => Throw m
  end.

Notation "x <- r ;; k" := (bind r (fun x => k))
  (at level 61, r at next level, right associativity).

Definition is_ok {A : Type} (r : Res A) : bool :=
  match r with Ok _ => true | Throw _ => false end.

(** *** Objects *)

(** [o[k]]: [undefined] when [k] is not a property of [o]. *)
Fixpoint obj_get (o : JsObj) (k : string) : JsVal :=
  match o with
  | [] => JUndef
  | (k', v) :: o' => if String.eqb k' k then v else obj_get o' k
  end.

(** [k in o]. *)
Fixpoint obj_has (o : JsObj) (k : string) : bool :=
  match o with
  | [] => false
  | (k', _) :: o' => String.eqb k' k || obj_has o' k
  end.

(** [o[k] = v]: an existing property keeps its place, a new one is appended. *)
Fixpoint obj_set (o : JsObj) (k : string) (v : JsVal) : JsObj :=
  match o with
  | [] => [(k, v)]
  | (k', v') :: o' =>
      if String.eqb k' k then (k', v) :: o' else (k', v') :: obj_set o' k v
  end.

(** [delete o[k]]. *)
Fixpoint obj_delete (o : JsObj) (k : string) : JsObj :=
  match o with
  | [] => []
  | (k', v') :: o' =>
      if String.eqb k' k then obj_delete o' k else (k', v') :: obj_delete o' k
  end.

(** [{ ...target, ...src }], also [for (const [k, v] of Object.entries(src)) target[k] = v]. *)
Definition obj_assign (target src : JsObj) : JsObj :=
  fold_left (fun acc kv => obj_set acc (fst kv) (snd kv)) src target.

Definition obj_keys (o : JsObj) : list string := map fst o.

(** *** Strings *)

Definition startsWith (p s : string) : bool := String.prefix p s.

(** [s.includes(sub)]. *)
Fixpoint includes (sub s : string) : bool :=
  String.prefix sub s ||
  match s with
  | EmptyString => false
  | String _ s' => includes sub s'
  end.

(** [s.endsWith(suf)]. *)
Definition endsWith (suf s : string) : bool :=
  (String.length suf <=? String.length s)%nat &&
  String.eqb (substring (String.length s - String.length suf) (String.length suf) s) suf.

(** [s.split(sep)] for a one-character separator. *)
Fixpoint split_on (sep : ascii) (s : string) : list string :=
  match s with
  | EmptyString => [EmptyString]
  | String c s' =>
      if Ascii.eqb c sep then EmptyString :: split_on sep s'
      else match split_on sep s' with
           | h :: t => String c h :: t
           | [] => [String c EmptyString]
           end
  end.

(** [l.join(sep)]. *)
Fixpoint join (sep : string) (l : list string) : string :=
  match l with
  | [] => EmptyString
  | [a] => a
  | a :: rest => a +s+ sep +s+ join sep rest
  end.

(** [s.indexOf(c)] for a one-character needle: [None] is JavaScript's -1. *)
Fixpoint indexOf (c : ascii) (s : string) : option nat :=
  match s with
  | EmptyString => None
  | String d s' =>
      if Ascii.eqb d c then Some 0%nat
      else match indexOf c s' with Some i => Some (S i) | None => None end
  end.

(** The decimal rendering of an array index. *)
Definition index_key (i : nat) : string := NilZero.string_of_uint (Nat.to_uint i).

(** [Object.entries] of an array, and of a string. *)
Fixpoint arr_entries_from (i : nat) (l : list JsVal) : JsObj :=
  match l with
  | [] => []
  | v :: l' => (index_key i, v) :: arr_entries_from (S i) l'
  end.

Fixpoint str_entries_from (i : nat) (s : string) : JsObj :=
  match s with
  | EmptyString => []
  | String c s' => (index_key i, JStr (String c EmptyString)) :: str_entries_from (S i) s'
  end.

(** [Object.entries(v)]; it throws on [null] and [undefined]. *)
Definition js_entries (v : JsVal) : Res JsObj :=
  match v with
  | JUndef | JNull => Throw "TypeError: Cannot convert undefined or null to object"
  | JBool _ | JNum _ => Ok []
  | JStr s => Ok (str_entries_from 0 s)
  | JArr l => Ok (arr_entries_from 0 l)
  | JObj o => Ok o
  end.

(** [Object.keys(v)]. *)
Definition js_keys (v : JsVal) : Res (list string) :=
  es <- js_entries v ;; Ok (obj_keys es).

(** [keys[0]]: [undefined] on an empty array. *)
Definition first_key (ks : list string) : JsVal :=
  match ks with
  | [] => JUndef
  | k :: _ => JStr k
  end.

(** [v[k]] and [v.k]; reading a property of [null] or [undefined] throws. *)
Definition js_get (v : JsVal) (k : string) : Res JsVal :=
  match v with
  | JUndef => Throw ("TypeError: Cannot read properties of undefined (reading '" +s+ k +s+ "')")
  | JNull => Throw ("TypeError: Cannot read properties of null (reading '" +s+ k +s+ "')")
  | JBool _ | JNum _ => Ok JUndef
  | JStr s =>
      if String.eqb k "length" then Ok (JNum (Z.of_nat (String.length s)))
      else Ok (obj_get (str_entries_from 0 s) k)
  | JArr l =>
      if String.eqb k "length" then Ok (JNum (Z.of_nat (List.length l)))
      else Ok (obj_get (arr_entries_from 0 l) k)
  | JObj o => Ok (obj_get o k)
  end.

(** [v?.k]. *)
Definition js_get_opt (v : JsVal) (k : string) : JsVal :=
  match js_get v k with
  | Ok x => x
  | Throw _ => JUndef
  end.

(** [s + x] for an [x] that is a string or [undefined] ([arr[++i] + '_lookup']). *)
Definition str_or_undefined (x : option string) : string :=
  match x with
  | Some s => s
  | None => "undefined"
  end.

(** [typeof v === 'object'] (true of [null] and of arrays, as in JavaScript). *)
Definition typeof_object (v : JsVal) : bool :=
  match v with
  | JNull | JArr _ | JObj _ => true
  | _ => false
  end.

Definition is_undefined (v : JsVal) : bool :=
  match v with JUndef => true | _ => false end.

(** [v == null]: [null] or [undefined]. *)
Definition is_nullish (v : JsVal) : bool :=
  match v with JUndef | JNull => true | _ => false end.

(** Structural equality of values (the database compares values this way;
    JavaScript's [===] agrees with it on the primitives). *)
Fixpoint JsVal_eqb (a b : JsVal) {struct a} : bool :=
  match a, b with
  | JUndef, JUndef => true
  | JNull, JNull => true
  | JBool x, JBool y => Bool.eqb x y
  | JNum x, JNum y => Z.eqb x y
  | JStr x, JStr y => String.eqb x y
  | JArr l1, JArr l2 =>
      (fix go (l1 l2 : list JsVal) {struct l1} : bool :=
         match l1, l2 with
         | [], [] => true
         | x :: l1', y :: l2' => JsVal_eqb x y && go l1' l2'
         | _, _ => false
         end) l1 l2
  | JObj o1, JObj o2 =>
      (fix go (o1 o2 : list (string * JsVal)) {struct o1} : bool :=
         match o1, o2 with
         | [], [] => true
         | (k1, x) :: o1', (k2, y) :: o2' => String.eqb k1 k2 && JsVal_eqb x y && go o1' o2'
         | _, _ => false
         end) o1 o2
  | _, _ => false
  end.

Definition is_string (v : JsVal) : bool :=
  match v with JStr _ => true | _ => false end.

(** A JavaScript [Set] of strings, in insertion order. *)
Definition set_has (s : list string) (x : string) : bool := existsb (String.eqb x) s.

Definition set_add (s : list string) (x : string) : list string :=
  if set_has s x then s else s ++ [x].

(** The strings among the elements of an array. *)
Fixpoint strings_of (l : list JsVal) : list string :=
  match l with
  | [] => []
  | JStr s :: l' => s :: strings_of l'
  | _ :: l' => strings_of l'
  end.

(** ** The class hierarchy and the imported helpers

    [Hierarchy] is the read-only collaborator of the adapter; the fields
    are the methods [storage.ts] calls.  [findAttribute] returns
    [undefined] as [None]. *)

Record AnyAttribute : Type := {
  attributeOf : string;   (* the class that declares the attribute *)
  type_class : string     (* attr.type._class *)
}.

Record Hierarchy : Type := {
  getBaseClass : string -> string;
  getDescendants : string -> list string;
  isMixin : string -> bool;
  findAttribute : string -> string -> option AnyAttribute;
  getDomain : string -> string;
  findDomain : string -> option string
}.

(** The identifiers of the core plugin that [storage.ts] compares with
    (declared in the core package); the adapter only relies on their being
    distinct. *)
Definition core_class_Doc : string := "core:class:Doc".
Definition core_class_EnumOf : string := "core:class:EnumOf".
Definition core_class_TxCreateDoc : string := "core:class:TxCreateDoc".
Definition core_class_TxCollectionCUD : string := "core:class:TxCollectionCUD".
Definition core_class_TxUpdateDoc : string := "core:class:TxUpdateDoc".
Definition core_class_TxRemoveDoc : string := "core:class:TxRemoveDoc".
Definition core_class_TxMixin : string := "core:class:TxMixin".
Definition core_class_TxApplyIf : string := "core:class:TxApplyIf".

(** The name of the private digest field. *)
Definition HASH : string := "%hash%".

(** A transaction, with the fields of [TxCreateDoc], [TxUpdateDoc],
    [TxRemoveDoc], [TxMixin] and [TxCollectionCUD] that the adapter reads. *)
Inductive Tx : Type := mkTx {
  tx_class : string;          (* _class *)
  objectId : string;
  objectClass : string;
  objectSpace : string;
  modifiedBy : string;
  modifiedOn : Z;
  attributes : JsVal;         (* TxCreateDoc.attributes, TxMixin.attributes *)
  operations : JsVal;         (* TxUpdateDoc.operations *)
  mixin : string;             (* TxMixin.mixin *)
  retrieve : bool;            (* TxUpdateDoc.retrieve === true *)
  collection : string;        (* TxCollectionCUD.collection *)
  inner : option Tx           (* TxCollectionCUD.tx *)
}.

(** The functions [storage.ts] imports from the core, server-core, bson
    and crypto packages. *)
Record CoreLib : Type := {
  isOperator : JsVal -> bool;
  createDoc2Doc : Tx -> JsObj;            (* TxProcessor.createDoc2Doc *)
  isExtendsCUD : string -> bool;          (* TxProcessor.isExtendsCUD *)
  escapeLikeForRegexp : string -> string;
  estimateDocSize : JsObj -> Z;
  calculateObjectSize : JsObj -> Z;
  sha256_base64 : JsObj -> string         (* createHash, updateHashForDoc, digest('base64') *)
}.

(** [FindOptions]/[ServerFindOptions]; an absent field is [None], [JUndef]
    or [false] (for the flags the source tests with [=== true]). *)
Record ServerFindOptions : Type := {
  lookup : JsVal;
  sort : option JsObj;
  limit : option Z;
  projection : option JsObj;
  total : bool;
  skipSpace : bool;
  skipClass : bool;
  domain : option string
}.

(** ** The document database (external)

    [storage.ts] only emits filters and update documents; what they mean is
    decided by the database.  The definitions below are a small executable
    model of the part of that meaning the properties refer to: equality,
    [$in], [$nin], [$ne] and [$exists] conditions on scalar fields, [$set]
    with dotted paths, [$pull] of a value and [$push] with [$each] and
    [$position].  Conflicts between the operators of one update document
    are not modelled. *)

Definition path_of (key : string) : list string := split_on "."%char key.

(** The value at a dotted path; [None] when a step is missing. *)
Fixpoint get_path (v : JsVal) (path : list string) : option JsVal :=
  match path with
  | [] => Some v
  | k :: rest =>
      match v with
      | JObj o => if obj_has o k then get_path (obj_get o k) rest else None
      | _ => None
      end
  end.

(** [$set] of one dotted path: missing intermediate objects are created; a
    step through a value that is not an object is an error. *)
Fixpoint set_path (o : JsObj) (path : list string) (v : JsVal) : Res JsObj :=
  match path with
  | [] => Throw "empty path"
  | [k] => Ok (obj_set o k v)
  | k :: rest =>
      if obj_has o k then
        match obj_get o k with
        | JObj sub => sub' <- set_path sub rest v ;; Ok (obj_set o k (JObj sub'))
        | _ => Throw "Cannot create field in element"
        end
      else sub' <- set_path [] rest v ;; Ok (obj_set o k (JObj sub'))
  end.

Fixpoint mongo_set (doc : JsObj) (sets : JsObj) : Res JsObj :=
  match sets with
  | [] => Ok doc
  | (k, v) :: sets' => doc' <- set_path doc (path_of k) v ;; mongo_set doc' sets'
  end.

(** [$pull: { F: v }] removes every element equal to [v]. *)
Definition pull_value (arr : list JsVal) (v : JsVal) : list JsVal :=
  filter (fun e => negb (JsVal_eqb v e)) arr.

(** [$push: { F: { $each, $position } }]: a position at or past the end
    appends, a negative one counts from the end, none appends. *)
Definition push_each (arr each : list JsVal) (position : JsVal) : Res (list JsVal) :=
  match position with
  | JUndef => Ok (arr ++ each)
  | JNum p =>
      let len := Z.of_nat (List.length arr) in
      let i := Z.to_nat (if (0 <=? p)%Z then Z.min p len else Z.max 0 (len + p)) in
      Ok (firstn i arr ++ each ++ skipn i arr)
  | _ => Throw "The value for $position must be an integer value"
  end.

Definition mongo_pull_field (doc : JsObj) (field : string) (v : JsVal) : Res JsObj :=
  match get_path (JObj doc) (path_of field) with
  | None => Ok doc
  | Some (JArr arr) => set_path doc (path_of field) (JArr (pull_value arr v))
  | Some _ => Throw "Cannot apply $pull to a non-array value"
  end.

Definition mongo_push_field (doc : JsObj) (field : string) (spec : JsVal) : Res JsObj :=
  let each := match spec with
              | JObj o => if obj_has o "$each"
                          then match obj_get o "$each" with JArr l => Ok l | _ => Throw "$each needs an array" end
                          else Ok [spec]
              | _ => Ok [spec]
              end in
  let position := match spec with
                  | JObj o => if obj_has o "$each" then obj_get o "$position" else JUndef
                  | _ => JUndef
                  end in
  es <- each ;;
  match get_path (JObj doc) (path_of field) with
  | None => set_path doc (path_of field) (JArr es)
  | Some (JArr arr) => arr' <- push_each arr es position ;; set_path doc (path_of field) (JArr arr')
  | Some _ => Throw "The field must be an array"
  end.

Fixpoint mongo_each_field (f : JsObj -> string -> JsVal -> Res JsObj) (doc : JsObj) (args : JsObj)
  : Res JsObj :=
  match args with
  | [] => Ok doc
  | (k, v) :: args' => doc' <- f doc k v ;; mongo_each_field f doc' args'
  end.

(** One update document applied to one stored document. *)
Fixpoint mongo_update (doc : JsObj) (update : JsObj) : Res JsObj :=
  match update with
  | [] => Ok doc
  | (op, JObj args) :: update' =>
      doc' <- (if String.eqb op "$set" then mongo_set doc args
               else if String.eqb op "$pull" then mongo_each_field mongo_pull_field doc args
               else if String.eqb op "$push" then mongo_each_field mongo_push_field doc args
               else Throw ("Unknown modifier: " +s+ op)) ;;
      mongo_update doc' update'
  | (op, _) :: _ => Throw "Modifiers operate on fields"
  end.

(** Does a document satisfy one condition of a filter?  [None]: the
    condition is outside the model. *)
Definition in_values (vals : list JsVal) (fv : JsVal) (present : bool) : bool :=
  existsb (fun x => JsVal_eqb x fv || (negb present && JsVal_eqb x JNull)) vals.

Fixpoint cond_ops (ops : JsObj) (fv : JsVal) (present : bool) : option bool :=
  match ops with
  | [] => Some true
  | (op, arg) :: ops' =>
      let here :=
        if String.eqb op "$in" then
          match arg with JArr vals => Some (in_values vals fv present) | _ => None end
        else if String.eqb op "$nin" then
          match arg with JArr vals => Some (negb (in_values vals fv present)) | _ => None end
        else if String.eqb op "$ne" then Some (negb (in_values [arg] fv present))
        else if String.eqb op "$exists" then
          match arg with JBool b => Some (Bool.eqb present b) | _ => None end
        else None in
      match here, cond_ops ops' fv present with
      | Some a, Some b => Some (a && b)
      | _, _ => None
      end
  end.

Definition is_operator_doc (o : JsObj) : bool :=
  match o with
  | [] => false
  | _ => forallb (fun kv => startsWith "$" (fst kv)) o
  end.

Definition cond_matches (cond : JsVal) (doc : JsObj) (key : string) : option bool :=
  let got := get_path (JObj doc) (path_of key) in
  let present := match got with Some _ => true | None => false end in
  let fv := match got with Some x => x | None => JUndef end in
  match fv with
  | JArr _ => None
  | _ =>
      match cond with
      | JObj o => if is_operator_doc o then cond_ops o fv present
                  else Some (JsVal_eqb cond fv)
      | _ => Some (in_values [cond] fv present)
      end
  end.

Fixpoint mongo_matches (filter : JsObj) (doc : JsObj) : option bool :=
  match filter with
  | [] => Some true
  | (k, cond) :: filter' =>
      match cond_matches cond doc k, mongo_matches filter' doc with
      | Some a, Some b => Some (a && b)
      | _, _ => None
      end
  end.

(** [coll.find(filter).toArray()]. *)
Fixpoint mongo_find (coll : list JsObj) (filter : JsObj) : option (list JsObj) :=
  match coll with
  | [] => Some []
  | d :: coll' =>
      match mongo_matches filter d, mongo_find coll' filter with
      | Some true, Some r => Some (d :: r)
      | Some false, Some r => Some r
      | _, _ => None
      end
  end.

(** ** The regular-expression engine (external)

    [translateLikeQuery] produces the text of a regular expression that the
    database (or the in-process matcher) runs.  The model covers the
    fragment that text is written in: the anchors [^] and [$], [.*], an
    escaped non-alphanumeric character and plain characters, with the
    options [i] (case-insensitive) and [s] (dot matches a line feed).  As
    in PCRE and in ECMAScript, a dot does not match a line feed unless [s]
    is given; as in PCRE, [$] also matches before a final line feed. *)

Inductive rtok : Type :=
| TBegin
| TEnd
| TAnyStar
| TLit (c : ascii).

Definition in_range (lo hi : nat) (c : ascii) : bool :=
  (lo <=? nat_of_ascii c)%nat && (nat_of_ascii c <=? hi)%nat.

Definition is_alnum (c : ascii) : bool :=
  in_range 48 57 c || in_range 65 90 c || in_range 97 122 c || Ascii.eqb c "_"%char.

Definition is_newline (c : ascii) : bool := Ascii.eqb c "010"%char.

(** The characters with a special meaning outside a character class. *)
Definition regex_special (c : ascii) : bool :=
  existsb (Ascii.eqb c) (list_ascii_of_string "\^$.|?*+()[{").

Fixpoint lex (re : string) : option (list rtok) :=
  match re with
  | EmptyString => Some []
  | String c re' =>
      if Ascii.eqb c "\"%char then
        match re' with
        | String d re'' =>
            if is_alnum d then None
            else match lex re'' with Some ts => Some (TLit d :: ts) | None => None end
        | EmptyString => None
        end
      else if Ascii.eqb c "."%char then
        match re' with
        | String d re'' =>
            if Ascii.eqb d "*"%char
            then match lex re'' with Some ts => Some (TAnyStar :: ts) | None => None end
            else None
        | EmptyString => None
        end
      else if Ascii.eqb c "^"%char then
        match lex re' with Some ts => Some (TBegin :: ts) | None => None end
      else if Ascii.eqb c "$"%char then
        match lex re' with Some ts => Some (TEnd :: ts) | None => None end
      else if regex_special c then None
      else match lex re' with Some ts => Some (TLit c :: ts) | None => None end
  end.

Definition to_lower (c : ascii) : ascii :=
  if in_range 65 90 c then ascii_of_nat (nat_of_ascii c + 32) else c.

Definition chr_eqb (ci : bool) (c d : ascii) : bool :=
  if ci then Ascii.eqb (to_lower c) (to_lower d) else Ascii.eqb c d.

Definition at_end (s : string) : bool :=
  match s with
  | EmptyString => true
  | String c EmptyString => is_newline c
  | _ => false
  end.

(** Do the tokens match a prefix of [s]?  [at_start]: [s] is the whole subject. *)
Fixpoint match_here (ci dotall : bool) (ts : list rtok) (s : string) (at_start : bool)
  {struct ts} : bool :=
  match ts with
  | [] => true
  | TBegin :: ts' => at_start && match_here ci dotall ts' s at_start
  | TEnd :: ts' => at_end s && match_here ci dotall ts' s at_start
  | TLit c :: ts' =>
      match s with
      | String d s' => chr_eqb ci c d && match_here ci dotall ts' s' false
      | EmptyString => false
      end
  | TAnyStar :: ts' =>
      (fix star (s : string) (at_start : bool) {struct s} : bool :=
         match_here ci dotall ts' s at_start ||
         match s with
         | String d s' => (dotall || negb (is_newline d)) && star s' false
         | EmptyString => false
         end) s at_start
  end.

Fixpoint search_from (ci dotall : bool) (ts : list rtok) (s : string) (at_start : bool) : bool :=
  match_here ci dotall ts s at_start ||
  match s with
  | String _ s' => search_from ci dotall ts s' false
  | EmptyString => false
  end.

Definition only_flags (allowed options : string) : bool :=
  forallb (fun c => existsb (Ascii.eqb c) (list_ascii_of_string allowed))
          (list_ascii_of_string options).

(** [{ $regex, $options }] applied to a string: [None] when the expression
    or an option is outside the fragment. *)
Definition regex_matches (regex options subject : string) : option bool :=
  if only_flags "is" options then
    match lex regex with
    | Some ts => Some (search_from (includes "i" options) (includes "s" options) ts subject true)
    | None => None
    end
  else None.

(** ** Numbers as text: [n.toString(16)] and [parseInt(s, 16)] *)

Definition hex_digit (d : N) : ascii :=
  nth (N.to_nat d) (list_ascii_of_string "0123456789abcdef") "0"%char.

Fixpoint to_hex_fuel (fuel : nat) (n : N) (acc : string) : string :=
  match fuel with
  | O => acc
  | S fuel' =>
      let acc' := String (hex_digit (n mod 16)) acc in
      if (n / 16 =? 0)%N then acc' else to_hex_fuel fuel' (n / 16) acc'
  end.

Definition toString16 (z : Z) : string :=
  if (z <? 0)%Z then "-" +s+ to_hex_fuel (S (N.to_nat (N.size (Z.to_N (- z))))) (Z.to_N (- z)) ""
  else to_hex_fuel (S (N.to_nat (N.size (Z.to_N z)))) (Z.to_N z) "".

Definition hex_val (c : ascii) : option Z :=
  if in_range 48 57 c then Some (Z.of_nat (nat_of_ascii c - 48))
  else if in_range 97 102 c then Some (Z.of_nat (nat_of_ascii c - 87))
  else if in_range 65 70 c then Some (Z.of_nat (nat_of_ascii c - 55))
  else None.

(** The longest prefix of hexadecimal digits; [None] (NaN) when it is empty. *)
Fixpoint parse_hex_digits (s : string) (acc : option Z) : option Z :=
  match s with
  | EmptyString => acc
  | String c s' =>
      match hex_val c with
      | Some d => parse_hex_digits s' (Some (16 * match acc with Some a => a | None => 0 end + d)%Z)
      | None => acc
      end
  end.

Definition is_space (c : ascii) : bool :=
  in_range 9 13 c || Ascii.eqb c " "%char.

Fixpoint skip_spaces (s : string) : string :=
  match s with
  | String c s' => if is_space c then skip_spaces s' else s
  | EmptyString => s
  end.

Definition strip_0x (s : string) : string :=
  match s with
  | String c (String x s') =>
      if Ascii.eqb c "0"%char && (Ascii.eqb x "x"%char || Ascii.eqb x "X"%char) then s' else s
  | _ => s
  end.

(** [parseInt(s, 16)]; [None] is NaN. *)
Definition parseInt16 (s : string) : option Z :=
  match skip_spaces s with
  | String c s' =>
      if Ascii.eqb c "-"%char then option_map Z.opp (parse_hex_digits (strip_0x s') None)
      else if Ascii.eqb c "+"%char then parse_hex_digits (strip_0x s') None
      else parse_hex_digits (strip_0x (String c s')) None
  | EmptyString => None
  end.

(** [s.slice(0, pos)] and [s.slice(pos + 1)] for [pos = s.indexOf('|')],
    where a missing bar is -1. *)
Definition slice_before_bar (s : string) : string :=
  match indexOf "|"%char s with
  | Some pos => substring 0 pos s
  | None => substring 0 (String.length s - 1) s
  end.

Definition slice_after_bar (s : string) : string :=
  match indexOf "|"%char s with
  | Some pos => substring (S pos) (String.length s - S pos) s
  | None => s
  end.

(** ** storage.ts *)

(** [translateDoc]: [{ ...doc, '%hash%': null }]. *)
Definition translateDoc (doc : JsObj) : JsObj := obj_set doc HASH JNull.

Definition isLookupQuery (query : JsObj) : bool :=
  existsb (includes "$lookup.") (obj_keys query).

Definition isLookupSort (sort : option JsObj) : bool :=
  match sort with
  | None => false
  | Some s => existsb (includes "$lookup.") (obj_keys s)
  end.

(** [stripHash] on one document and on an array of documents. *)
Definition stripHash1 (doc : JsObj) : JsObj :=
  if obj_has doc HASH then obj_delete doc HASH else doc.

Definition stripHash (docs : list JsObj) : list JsObj := map stripHash1 docs.

(** A cursor of the database driver (external): the documents it has
    buffered, and the batches the server has still to send.  [next] gives
    the first buffered document, asking for batches until one has a
    document, and [null] ([None]) when there is none left;
    [readBufferedDocuments] gives the buffered documents and empties the
    buffer. *)
Record Cursor : Type := {
  buffered : list JsObj;
  batches : list (list JsObj)
}.

Fixpoint fetch_batch (bs : list (list JsObj)) : option (JsObj * Cursor) :=
  match bs with
  | [] => None
  | [] :: bs' => fetch_batch bs'
  | (d :: rest) :: bs' => Some (d, {| buffered := rest; batches := bs' |})
  end.

Definition cursor_read (c : Cursor) : option (JsObj * Cursor) :=
  match buffered c with
  | d :: rest => Some (d, {| buffered := rest; batches := batches c |})
  | [] => fetch_batch (batches c)
  end.

Definition readBufferedDocuments (c : Cursor) : list JsObj * Cursor :=
  (buffered c, {| buffered := []; batches := batches c |}).

(** [toArray], with the array [data] filled so far; [fuel] bounds the
    iterations of its loop ([None]: the fuel is spent). *)
Fixpoint toArray (fuel : nat) (cursor : Cursor) (data : list JsObj) : option (list JsObj) :=
  match fuel with
  | O => None
  | S fuel' =>
      match cursor_read cursor with
      | None => Some data
      | Some (d, cursor) =>
          let data := data ++ [d] in
          let batch := fst (readBufferedDocuments cursor) in
          let cursor := snd (readBufferedDocuments cursor) in
          let data := if (0 <? List.length batch)%nat then data ++ batch else data in
          toArray fuel' cursor data
      end
  end.

(** The native operations of a bulk write ([AnyBulkWriteOperation]). *)
Inductive BulkOp : Type :=
| InsertOne (document : JsObj)
| UpdateOne (filter : JsObj) (update : JsObj)
| DeleteOne (filter : JsObj)
| ReplaceOne (filter : JsObj) (replacement : JsObj) (upsert : bool).

(** A deferred [findOneAndUpdate] (an element of [OperationBulk.raw]). *)
Record RawOp : Type := {
  raw_domain : string;
  raw_filter : JsObj;
  raw_update : JsObj
}.

Record OperationBulk : Type := {
  bulks : Z;
  add : list JsObj;
  update : list (string * JsObj);     (* Map<Ref<Doc>, Partial<Doc>>, in insertion order *)
  bulkOperations : list BulkOp;
  findUpdate : list string;           (* Set<Ref<Doc>> *)
  raw : list RawOp
}.

(** [Map.get] and [Map.set] on the update map. *)
Fixpoint map_get (m : list (string * JsObj)) (k : string) : option JsObj :=
  match m with
  | [] => None
  | (k', v) :: m' => if String.eqb k' k then Some v else map_get m' k
  end.

Fixpoint map_set (m : list (string * JsObj)) (k : string) (v : JsObj) : list (string * JsObj) :=
  match m with
  | [] => [(k, v)]
  | (k', v') :: m' =>
      if String.eqb k' k then (k', v) :: m' else (k', v') :: map_set m' k v
  end.

(** The native calls one adapter call performs, in order. *)
Inductive NativeCall : Type :=
| BulkWrite (domain : string) (ops : list BulkOp)
| FindByIds (domain : string) (ids : list string)
| FindOneAndUpdate (r : RawOp).

(** What the query executor asks of the database. *)
Inductive FindPath : Type :=
| ViaPipeline
| ViaFindOne
| ViaCursor.

(** [`${v}`]. *)
Fixpoint template_string (v : JsVal) : string :=
  match v with
  | JUndef => "undefined"
  | JNull => "null"
  | JBool true => "true"
  | JBool false => "false"
  | JNum n => if (n <? 0)%Z then "-" +s+ index_key (Z.to_nat (- n)) else index_key (Z.to_nat n)
  | JStr s => s
  | JArr l =>
      join "," ((fix items (l : list JsVal) : list string :=
                   match l with
                   | [] => []
                   | x :: l' => (if is_nullish x then "" else template_string x) :: items l'
                   end) l)
  | JObj _ => "[object Object]"
  end.

Record World : Type := {
  bulkOps : list (string * list BulkOp);    (* this.bulkOps: Map<Domain, ops> *)
  calls : list NativeCall;                  (* the native calls made so far *)
  console : list string;                    (* console.error *)
  events : list (string * string * nat)     (* handleEvent(domain, 'add' | 'update', count) *)
}.

Definition with_bulkOps (w : World) (x : list (string * list BulkOp)) : World :=
  {| bulkOps := x; calls := calls w; console := console w; events := events w |}.

Definition with_calls (w : World) (x : list NativeCall) : World :=
  {| bulkOps := bulkOps w; calls := x; console := console w; events := events w |}.

Definition with_console (w : World) (x : list string) : World :=
  {| bulkOps := bulkOps w; calls := calls w; console := x; events := events w |}.

Definition handleEvent (w : World) (dom event : string) (count : nat) : World :=
  {| bulkOps := bulkOps w; calls := calls w; console := console w;
     events := events w ++ [(dom, event, count)] |}.

(** The state of the change-hash iterator ([find]). *)
Inductive Mode : Type :=
| hashed
| non_hashed.

Record ChangeRecord : Type := {
  cr_id : JsVal;
  cr_hash : string;
  cr_size : option Z        (* None: NaN *)
}.

Record FindIter : Type := {
  mode : Mode;
  iterator : option (list JsObj);          (* the cursor: the documents to come; None: undefined *)
  bulkUpdate : list (JsVal * string);      (* Map<Ref<Doc>, string> *)
  coll : list JsObj;                       (* the collection of the domain *)
  writes : list (list (JsVal * string))    (* the write-back bulkWrite calls, in order *)
}.

(** The enums of the model: [(attr.type as EnumOf).of] of an attribute, and
    the [enumValues] of the enum [modelDb.getObject] returns for such a
    reference ([None]: [undefined]). *)
Record ModelDb : Type := {
  enum_of : AnyAttribute -> string;
  enumValues : string -> option (list string)
}.

(** ** Models of the imported helpers, and sample data

    The helpers below live in the core package; the adapter is verified
    for any implementation of them ([CoreLib]), and these models
    instantiate it where a property is evaluated on concrete data. *)

(** Modelled from the spec: [isOperator] of the core package (section 3:
    the operator form is "a single recognized operator ([$move], [$update],
    or native-style update operators)"): a non-empty object all of whose
    keys start with a dollar sign. *)
Definition model_isOperator (v : JsVal) : bool :=
  match v with
  | JObj o => is_operator_doc o
  | _ => false
  end.

(** Modelled from the spec: [TxProcessor.createDoc2Doc] of the core package
    (section 4.6: "materialize the full document"): the attributes of the
    transaction with the identity and provenance fields. *)
Definition model_createDoc2Doc (t : Tx) : JsObj :=
  obj_assign (match js_entries (attributes t) with Ok es => obj_assign [] es | Throw _ => [] end)
    [("_id", JStr (objectId t)); ("_class", JStr (objectClass t)); ("space", JStr (objectSpace t));
     ("modifiedBy", JStr (modifiedBy t)); ("modifiedOn", JNum (modifiedOn t))].

(** Modelled from the spec: [TxProcessor.isExtendsCUD] of the core package
    (section 3: a transaction is "one of {create, update, remove,
    mixin-apply, collection-attach}"). *)
Definition model_isExtendsCUD (c : string) : bool :=
  existsb (String.eqb c)
    [core_class_TxCreateDoc; core_class_TxUpdateDoc; core_class_TxRemoveDoc;
     core_class_TxCollectionCUD; core_class_TxMixin].

(** The characters [escapeLike] puts a backslash before. *)
Definition like_escaped (c : ascii) : bool :=
  existsb (Ascii.eqb c) (list_ascii_of_string "-/\^$*+?.()|[]{}").

(** Modelled from the spec: [escapeLikeForRegexp] of the core package
    (section 4.2: "escaping all literal regex metacharacters in the
    non-wildcard segments"): a backslash before each such character. *)
Fixpoint escapeLike (s : string) : string :=
  match s with
  | EmptyString => EmptyString
  | String c s' =>
      if like_escaped c then String "\"%char (String c (escapeLike s'))
      else String c (escapeLike s')
  end.

Definition model_core : CoreLib :=
  {| isOperator := model_isOperator;
     createDoc2Doc := model_createDoc2Doc;
     isExtendsCUD := model_isExtendsCUD;
     escapeLikeForRegexp := escapeLike;
     estimateDocSize := fun d => Z.of_nat (List.length d);
     calculateObjectSize := fun d => Z.of_nat (List.length d);
     sha256_base64 := fun d => template_string (obj_get d "_id") |}.

(** A hierarchy with a class [A], its subclass [B] and a mixin [M] of [A],
    all stored in the domain [task]. *)
Definition sample_hierarchy : Hierarchy :=
  {| getBaseClass := fun c => if String.eqb c "M" then "A" else c;
     getDescendants := fun c =>
       if String.eqb c "A" then ["A"; "B"; "M"]
       else if String.eqb c core_class_Doc then [core_class_Doc; "A"; "B"; "M"]
       else [c];
     isMixin := fun c => String.eqb c "M";
     findAttribute := fun c k =>
       if String.eqb k "rank" then Some {| attributeOf := "M"; type_class := "core:class:TypeNumber" |}
       else if String.eqb k "status" then Some {| attributeOf := "A"; type_class := core_class_EnumOf |}
       else None;
     getDomain := fun _ => "task";
     findDomain := fun _ => Some "task" |}.

Definition sample_tx (c id : string) (attrs ops : JsVal) : Tx :=
  mkTx c id "A" "space1" "user1" 1700000000000 attrs ops "M" false "" None.

(** The options [{ skipClass: true }]. *)
Definition skip_class_options : ServerFindOptions :=
  {| lookup := JUndef; sort := None; limit := None; projection := None; total := false;
     skipSpace := false; skipClass := true; domain := None |}.

Definition empty_world : World :=
  {| bulkOps := []; calls := []; console := []; events := [] |}.

Definition sample_apply_if : Tx := sample_tx core_class_TxApplyIf "d1" JUndef JUndef.

Definition sample_unknown : Tx := sample_tx "foo:class:TxBar" "d1" JUndef JUndef.

Definition sample_lookup_options : ServerFindOptions :=
  {| lookup := JObj [("parent", JStr "A")]; sort := None; limit := None; projection := None;
     total := false; skipSpace := false; skipClass := false; domain := None |}.

Definition sample_enum_sort_options : ServerFindOptions :=
  {| lookup := JUndef; sort := Some [("status", JNum 1)]; limit := None; projection := None;
     total := false; skipSpace := false; skipClass := false; domain := None |}.

Definition sample_move : JsVal :=
  JObj [("$move", JObj [("items", JObj [("$value", JStr "v"); ("$position", JNum 1)])])].

Definition sample_batch : list Tx :=
  [sample_tx core_class_TxCreateDoc "d1" (JObj [("title", JStr "t")]) JUndef;
   sample_tx core_class_TxUpdateDoc "d2" JUndef (JObj [("title", JStr "u")]);
   sample_tx core_class_TxUpdateDoc "d3" JUndef sample_move;
   sample_tx core_class_TxRemoveDoc "d4" JUndef JUndef].

Definition sample_iter (c : list JsObj) : FindIter :=
  {| mode := hashed; iterator := None; bulkUpdate := []; coll := c; writes := [] |}.


(** A patch of [update] that sets [title] and unsets [title] and [old]. *)
Definition sample_patch : JsObj :=
  [("title", JStr "t"); ("$unset", JObj [("title", JStr ""); ("old", JStr "")])].

(** A collection with one document that has a digest and two that have none. *)
Definition sample_collection : list JsObj :=
  [[("_id", JStr "a"); (HASH, JStr "h1|1f")]; [("_id", JStr "b")];
   [("_id", JStr "c"); (HASH, JNull)]].

(** A lookup of [parent] with a nested lookup of its [space], and a
    reverse lookup of the comments attached to the document. *)
Definition sample_nested_lookup : JsVal :=
  JObj [("parent", JArr [JStr "A"; JObj [("space", JStr "A")]]);
        ("_id", JObj [("comments", JStr "B")])].

(** The enum of the attribute [status] of the sample hierarchy. *)
Definition sample_modelDb : ModelDb :=
  {| enum_of := fun _ => "task:enum:Status";
     enumValues := fun r => if String.eqb r "task:enum:Status" then Some ["open"; "done"] else None |}.

Definition sample_pipeline_options : ServerFindOptions :=
  {| lookup := JObj [("parent", JStr "A")]; sort := Some [("status", JNum 1)];
     limit := Some 10%Z; projection := Some [("rank", JNum 1)]; total := true;
     skipSpace := false; skipClass := false; domain := None |}.

Definition sample_push : Tx :=
  sample_tx core_class_TxUpdateDoc "d1" JUndef (JObj [("$push", JObj [("tags", JStr "x")])]).

(** The create of a comment, and the collection transaction that attaches
    it to the document [parent1]. *)
Definition sample_comment : Tx :=
  sample_tx core_class_TxCreateDoc "c1"
    (JObj [("text", JStr "hi"); ("collection", JStr "other")]) JUndef.

Definition sample_attach : Tx :=
  mkTx core_class_TxCollectionCUD "parent1" "A" "space1" "user1" 1700000000000 JUndef JUndef ""
       false "comments" (Some sample_comment).

Definition sample_upload : JsObj := [("_id", JStr "d1"); ("title", JStr "t"); (HASH, JStr "abc")].

(** A cursor with a buffered document and three batches, one of them empty. *)
Definition sample_cursor : Cursor :=
  {| buffered := [[("_id", JNum 1)]];
     batches := [[[("_id", JNum 2)]; [("_id", JNum 3)]]; []; [[("_id", JNum 4)]]] |}.

Section Adapter.

Variable h : Hierarchy.
Variable core : CoreLib.

(** *** Key translation *)

Definition checkMixinKey (key clazz : string) (mixins : list string) : string * list string :=
  if negb (includes "." key) then
    match findAttribute h clazz key with
    | Some attr =>
        if isMixin h (attributeOf attr)
        then (attributeOf attr +s+ "." +s+ key, set_add mixins (attributeOf attr))
        else (key, mixins)
    | None => (key, mixins)
    end
  else (key, mixins).

(** The body of the loop of [translateKey]; [fuel] bounds the iterations
    ([i] grows at each one, so the length of [arr] is enough). *)
Fixpoint translateKey_loop (fuel i : nat) (arr : list string) (clazz tKey : string)
  (lkp : bool) (mixins : list string) : string * bool * list string :=
  match fuel with
  | O => (tKey, lkp, mixins)
  | S fuel' =>
      match nth_error arr i with
      | None => (tKey, lkp, mixins)
      | Some element =>
          if String.eqb element "$lookup" then
            let tKey1 := tKey +s+ str_or_undefined (nth_error arr (S i)) +s+ "_lookup" in
            let km := checkMixinKey tKey1 clazz mixins in
            translateKey_loop fuel' (S (S i)) arr clazz (fst km) true (snd km)
          else
            let tKey1 := if negb (endsWith "." tKey) && (0 <? i)%nat then tKey +s+ "." else tKey in
            let tKey2 := tKey1 +s+ element in
            let tKey3 := if negb (i =? List.length arr - 1)%nat then tKey2 +s+ "." else tKey2 in
            let km := checkMixinKey tKey3 clazz mixins in
            translateKey_loop fuel' (S i) arr clazz (fst km) lkp (snd km)
      end
  end.

Definition nonempty (s : string) : bool := negb (String.eqb s "").

Definition translateKey (key clazz : string) (mixins : list string) : string * bool * list string :=
  let arr := filter nonempty (split_on "."%char key) in
  translateKey_loop (List.length arr) 0 arr clazz "" false mixins.

(** *** Filters *)

Definition translateLikeQuery (pattern : string) : JsVal :=
  JObj [("$regex", JStr ("^" +s+ join ".*" (map (escapeLikeForRegexp core) (split_on "%"%char pattern)) +s+ "$"));
        ("$options", JStr "i")].

(** [value.$like as string]: a value of another type has no [split]. *)
Definition like_pattern (v : JsVal) : Res string :=
  match v with
  | JStr s => Ok s
  | _ => Throw "TypeError: pattern.split is not a function"
  end.

(** The value stored for one field of the query. *)
Definition translateValue (value : JsVal) : Res JsVal :=
  match value with
  | JArr _ | JObj _ =>
      ks <- js_keys value ;;
      match first_key ks with
      | JStr "$like" =>
          p <- js_get value "$like" ;;
          s <- like_pattern p ;;
          Ok (translateLikeQuery s)
      | _ => Ok value
      end
  | _ => Ok value
  end.

(** The first loop of [translateQuery]: base filter, lookup filter, mixins. *)
Fixpoint translateFields (clazz : string) (query : JsObj)
  (translatedBase translatedLookup : JsObj) (mixins : list string)
  : Res (JsObj * JsObj * list string) :=
  match query with
  | [] => Ok (translatedBase, translatedLookup, mixins)
  | (key, value) :: query' =>
      let tkey := translateKey key clazz mixins in
      v <- translateValue value ;;
      if snd (fst tkey)
      then translateFields clazz query' translatedBase (obj_set translatedLookup (fst (fst tkey)) v) (snd tkey)
      else translateFields clazz query' (obj_set translatedBase (fst (fst tkey)) v) translatedLookup (snd tkey)
  end.

Definition class_in (classes : list string) : JsVal :=
  JObj [("$in", JArr (map JStr classes))].

(** [l.length === 1 ? l[0] : { $in: l }]. *)
Definition one_or_in (l : list string) : JsVal :=
  match l with
  | [c] => JStr c
  | _ => class_in l
  end.

Definition concrete (l : list string) : list string :=
  filter (fun it => negb (isMixin h it)) l.

(** The new value of [translatedBase._class] when the base class is not
    [core.class.Doc]; [None]: the property is left as it is. *)
Definition scopeClass (classes : list string) (cur : JsVal) : option JsVal :=
  match cur with
  | JUndef => Some (class_in classes)
  | JStr c => if set_has classes c then None else Some (one_or_in classes)
  | JArr _ | JObj _ =>
      let d1 := match js_get_opt cur "$in" with
                | JArr ins => filter (set_has classes) (strings_of ins)
                | _ => classes
                end in
      let d2 := match js_get_opt cur "$nin" with
                | JArr nins => filter (fun c => negb (set_has (strings_of nins) c)) d1
                | _ => d1
                end in
      Some (one_or_in (concrete d2))
  | _ => None
  end.

(** The last statement: a one-element [$in] without [$nin] becomes its element. *)
Definition collapseClass (translatedBase : JsObj) : JsObj :=
  let c := obj_get translatedBase "_class" in
  match js_get_opt c "$in" with
  | JArr [x] =>
      if is_undefined (js_get_opt c "$nin") then obj_set translatedBase "_class" x
      else translatedBase
  | _ => translatedBase
  end.

Definition opt_flag (f : ServerFindOptions -> bool) (options : option ServerFindOptions) : bool :=
  match options with
  | Some o => f o
  | None => false
  end.

Definition translateQuery (clazz : string) (query : JsObj) (options : option ServerFindOptions)
  : Res (JsObj * JsObj) :=
  r <- translateFields clazz query [] [] [] ;;
  let translatedBase := fst (fst r) in
  let translatedLookup := snd (fst r) in
  let mixins := snd r in
  let translatedBase :=
    if opt_flag skipSpace options then obj_delete translatedBase "space" else translatedBase in
  if opt_flag skipClass options then Ok (obj_delete translatedBase "_class", translatedLookup)
  else
    let baseClass := getBaseClass h clazz in
    let translatedBase :=
      if negb (String.eqb baseClass core_class_Doc) then
        let classes := concrete (getDescendants h baseClass) in
        let tb := match scopeClass classes (obj_get translatedBase "_class") with
                  | Some c => obj_set translatedBase "_class" c
                  | None => translatedBase
                  end in
        if negb (String.eqb baseClass clazz) && negb (set_has mixins clazz)
        then obj_set tb clazz (JObj [("$exists", JBool true)])
        else tb
      else
        if obj_has translatedBase "_class" then obj_delete translatedBase "_class" else translatedBase in
    Ok (collapseClass translatedBase, translatedLookup).

(** *** The query executor *)

(** [SortingOrder.Ascending]. *)
Definition Ascending : JsVal := JNum 1.

Definition order_of (v : JsVal) : JsVal :=
  if JsVal_eqb v Ascending then JNum 1 else JNum (-1).

Definition isEnumSort (_class : string) (options : option ServerFindOptions) : bool :=
  match options with
  | None => false
  | Some o =>
      match sort o with
      | None => false
      | Some s =>
          existsb (fun key => match findAttribute h _class key with
                              | Some attr => String.eqb (type_class attr) core_class_EnumOf
                              | None => false
                              end) (obj_keys s)
      end
  end.

Definition isRulesSort (options : option ServerFindOptions) : bool :=
  match options with
  | None => false
  | Some o =>
      match sort o with
      | None => false
      | Some s => existsb typeof_object (map snd s)
      end
  end.

Definition collectSort (options : option ServerFindOptions) (_class : string) : option JsObj :=
  match options with
  | None => None
  | Some o =>
      match sort o with
      | None => None
      | Some s =>
          let r := fold_left (fun acc kv =>
                                obj_set acc (fst (checkMixinKey (fst kv) _class [])) (order_of (snd kv)))
                             s [] in
          if (List.length s =? 0)%nat then None else Some r
      end
  end.

Definition calcProjection (options : option ServerFindOptions) (_class : string) : option JsObj :=
  match options with
  | None => None
  | Some o =>
      match projection o with
      | None => None
      | Some p =>
          let r := fold_left (fun acc kv =>
                                obj_set acc (fst (checkMixinKey (fst kv) _class [])) (snd kv))
                             p [] in
          if (List.length p =? 0)%nat then None else Some r
      end
  end.

(** The test at the head of [findAll]. *)
Definition usesPipeline (_class : string) (options : option ServerFindOptions) : bool :=
  match options with
  | None => false
  | Some o => negb (is_nullish (lookup o)) || isEnumSort _class options || isRulesSort options
  end.

Definition opt_limit (options : option ServerFindOptions) : option Z :=
  match options with
  | Some o => limit o
  | None => None
  end.

Definition is_one (l : option Z) : bool :=
  match l with
  | Some n => (n =? 1)%Z
  | None => false
  end.

Definition findAll_path (_class : string) (query : JsObj) (options : option ServerFindOptions)
  : FindPath :=
  if usesPipeline _class options then ViaPipeline
  else if is_one (opt_limit options) || is_string (obj_get query "_id") then ViaFindOne
  else ViaCursor.

(** The stages [findWithPipeline] emits before the sort stages
    ([totalPipeline]); [steps] is the result of [getLookups]. *)
Definition pipelinePrefix (base lkp : JsObj) (slowPipeline : bool) (steps : list JsVal)
  : list JsVal :=
  let lookups := map (fun st => JObj [("$lookup", st)]) steps in
  if slowPipeline then
    (if (0 <? List.length base)%nat then [JObj [("$match", JObj base)]] else [])
      ++ lookups
      ++ (if (0 <? List.length lkp)%nat then [JObj [("$match", JObj lkp)]] else [])
  else
    if (0 <? List.length base)%nat then [JObj [("$match", JObj (obj_assign base lkp))]] else [].

(** The request [findAll] sends to the collection. *)
Inductive NativeQuery : Type :=
| Aggregate (dom : string) (slowPipeline : bool) (prefix : list JsVal)
| FindOne (dom : string) (filter : JsObj) (srt prj : option JsObj) (recheck : bool)
| Find (dom : string) (filter : JsObj) (prj srt : option JsObj) (lim : option Z).

Definition findAll (_class : string) (query : JsObj) (options : option ServerFindOptions)
  (steps : list JsVal) : Res NativeQuery :=
  mongoQuery <- translateQuery _class query options ;;
  let fQuery := obj_assign (fst mongoQuery) (snd mongoQuery) in
  let dom := match options with
             | Some o => match domain o with Some d => d | None => getDomain h _class end
             | None => getDomain h _class
             end in
  match findAll_path _class query options with
  | ViaPipeline =>
      (* findWithPipeline translates the query again *)
      tquery <- translateQuery _class query options ;;
      let slowPipeline :=
        isLookupQuery query || isLookupSort (match options with Some o => sort o | None => None end) in
      Ok (Aggregate dom slowPipeline (pipelinePrefix (fst tquery) (snd tquery) slowPipeline steps))
  | ViaFindOne =>
      match obj_get fQuery "_id" with
      | JStr id =>
          Ok (FindOne dom [("_id", JStr id)] (collectSort options _class)
                (calcProjection options _class) true)
      | _ =>
          Ok (FindOne dom fQuery (collectSort options _class) (calcProjection options _class) false)
      end
  | ViaCursor =>
      Ok (Find dom fQuery (calcProjection options _class) (collectSort options _class)
            (opt_limit options))
  end.

(** The documents a request returns from a collection, for the requests
    the database model covers (no sort, projection, limit or pipeline),
    after [stripHash]. *)
Definition run_query (coll : list JsObj) (q : NativeQuery) : option (list JsObj) :=
  match q with
  | Find _ filter None None None => option_map stripHash (mongo_find coll filter)
  | FindOne _ filter None None false =>
      option_map (fun r => stripHash (firstn 1 r)) (mongo_find coll filter)
  | _ => None
  end.


(** *** The transaction bulk translator *)

(** [{ ...v }]: spreading [null] or [undefined] gives no property. *)
Definition spread (v : JsVal) : JsObj :=
  match js_entries v with
  | Ok es => obj_assign [] es
  | Throw _ => []
  end.

Definition with_add (b : OperationBulk) (x : list JsObj) : OperationBulk :=
  {| bulks := bulks b; add := x; update := update b; bulkOperations := bulkOperations b;
     findUpdate := findUpdate b; raw := raw b |}.

Definition with_update (b : OperationBulk) (x : list (string * JsObj)) : OperationBulk :=
  {| bulks := bulks b; add := add b; update := x; bulkOperations := bulkOperations b;
     findUpdate := findUpdate b; raw := raw b |}.

Definition with_bulkOperations (b : OperationBulk) (x : list BulkOp) : OperationBulk :=
  {| bulks := bulks b; add := add b; update := update b; bulkOperations := x;
     findUpdate := findUpdate b; raw := raw b |}.

Definition with_findUpdate (b : OperationBulk) (x : list string) : OperationBulk :=
  {| bulks := bulks b; add := add b; update := update b; bulkOperations := bulkOperations b;
     findUpdate := x; raw := raw b |}.

Definition with_raw (b : OperationBulk) (x : list RawOp) : OperationBulk :=
  {| bulks := bulks b; add := add b; update := update b; bulkOperations := bulkOperations b;
     findUpdate := findUpdate b; raw := x |}.

Definition id_filter (id : string) : JsObj := [("_id", JStr id)].

(** [{ modifiedBy: tx.modifiedBy, modifiedOn: tx.modifiedOn }]. *)
Definition modifyOp (tx : Tx) : JsObj :=
  [("modifiedBy", JStr (modifiedBy tx)); ("modifiedOn", JNum (modifiedOn tx))].

(** [{ modifiedBy, modifiedOn, '%hash%': null }]. *)
Definition modifyHashOp (tx : Tx) : JsObj :=
  [("modifiedBy", JStr (modifiedBy tx)); ("modifiedOn", JNum (modifiedOn tx)); (HASH, JNull)].

Definition txCreateDoc (bulk : OperationBulk) (tx : Tx) : Res OperationBulk :=
  let doc := createDoc2Doc core tx in
  Ok (with_add bulk (add bulk ++ [translateDoc doc])).

Definition txRemoveDoc (bulk : OperationBulk) (tx : Tx) : Res OperationBulk :=
  Ok (with_bulkOperations bulk (bulkOperations bulk ++ [DeleteOne (id_filter (objectId tx))])).

(** [Object.keys(o)[0]] used as a property name. *)
Definition first_key_name (ks : list string) : string :=
  match ks with
  | k :: _ => k
  | [] => "undefined"
  end.

Fixpoint translateMixinAttrs (mixin : string) (attributes : JsVal) {struct attributes} : Res JsObj :=
  let sentinel (attrs : JsObj) (count : nat) : JsObj :=
    if (count =? 0)%nat then obj_set attrs (mixin +s+ "." +s+ "__mixin") (JStr "true") else attrs in
  let flat (es : JsObj) : JsObj :=
    fold_left (fun attrs kv => obj_set attrs (mixin +s+ "." +s+ fst kv) (snd kv)) es [] in
  match attributes with
  | JUndef | JNull => Throw "TypeError: Cannot convert undefined or null to object"
  | JBool _ | JNum _ => Ok (sentinel [] 0%nat)
  | JStr s => Ok (sentinel (flat (str_entries_from 0 s)) (String.length s))
  | JArr l => Ok (sentinel (flat (arr_entries_from 0 l)) (List.length l))
  | JObj o =>
      (fix loop (es : list (string * JsVal)) (attrs : JsObj) (count : nat) {struct es} : Res JsObj :=
         match es with
         | [] => Ok (sentinel attrs count)
         | (k, v) :: es' =>
             if startsWith "$" k then
               match translateMixinAttrs mixin v with
               | Ok sub => loop es' (obj_set attrs k (JObj sub)) (S count)
               | Throw m => Throw m
               end
             else loop es' (obj_set attrs (mixin +s+ "." +s+ k) v) (S count)
         end) o [] 0%nat
  end.

Definition coalesce (bulk : OperationBulk) (id : string) (patch : JsObj) : OperationBulk :=
  let upd := match map_get (update bulk) id with
             | Some u => u
             | None => []
             end in
  with_update bulk (map_set (update bulk) id (obj_assign upd patch)).

Definition txMixin (bulk : OperationBulk) (tx : Tx) : Res OperationBulk :=
  let filter := id_filter (objectId tx) in
  if isOperator core (attributes tx) then
    ks <- js_keys (attributes tx) ;;
    if JsVal_eqb (first_key ks) (JStr "$move") then
      keyval <- js_get (attributes tx) "$move" ;;
      kks <- js_keys keyval ;;
      let arr := mixin tx +s+ "." +s+ first_key_name kks in
      desc <- js_get keyval arr ;;
      value <- js_get desc "$value" ;;
      position <- js_get desc "$position" ;;
      let ops :=
        [UpdateOne filter [("$pull", JObj [(arr, value)])];
         UpdateOne filter [("$set", JObj (modifyOp tx));
                           ("$push", JObj [(arr, JObj [("$each", JArr [value]); ("$position", position)])])]] in
      Ok (with_bulkOperations bulk (bulkOperations bulk ++ ops))
    else
      attrs <- translateMixinAttrs (mixin tx) (attributes tx) ;;
      let upd := obj_set attrs "$set" (JObj (modifyOp tx)) in
      Ok (with_bulkOperations bulk (bulkOperations bulk ++ [UpdateOne filter upd]))
  else
    attrs <- translateMixinAttrs (mixin tx) (attributes tx) ;;
    Ok (coalesce bulk (objectId tx) (obj_assign attrs (modifyOp tx))).

(** [Object.fromEntries(Object.entries(o).map((it) => [prefix + it[0], it[1]]))]. *)
Definition prefixed (prefix : string) (es : JsObj) : JsObj :=
  fold_left (fun acc kv => obj_set acc (prefix +s+ fst kv) (snd kv)) es [].

Definition txUpdateDoc (bulk : OperationBulk) (tx : Tx) : Res OperationBulk :=
  let filter := id_filter (objectId tx) in
  if isOperator core (operations tx) then
    ks <- js_keys (operations tx) ;;
    if JsVal_eqb (first_key ks) (JStr "$move") then
      keyval <- js_get (operations tx) "$move" ;;
      kks <- js_keys keyval ;;
      let arr := first_key_name kks in
      desc <- js_get keyval arr ;;
      value <- js_get desc "$value" ;;
      position <- js_get desc "$position" ;;
      let ops :=
        [UpdateOne filter [("$set", JObj [(HASH, JNull)]);
                           ("$pull", JObj [(arr, value)])];
         UpdateOne filter [("$set", JObj (modifyHashOp tx));
                           ("$push", JObj [(arr, JObj [("$each", JArr [value]); ("$position", position)])])]] in
      Ok (with_bulkOperations bulk (bulkOperations bulk ++ ops))
    else if JsVal_eqb (first_key ks) (JStr "$update") then
      keyval <- js_get (operations tx) "$update" ;;
      kks <- js_keys keyval ;;
      let arr := first_key_name kks in
      desc <- js_get keyval arr ;;
      q <- js_get desc "$query" ;;
      qes <- js_entries q ;;
      u <- js_get desc "$update" ;;
      ues <- js_entries u ;;
      let ops :=
        [UpdateOne (obj_assign filter (prefixed (arr +s+ ".") qes))
                   [("$set", JObj (obj_set (prefixed (arr +s+ ".$.") ues) HASH JNull))];
         UpdateOne filter [("$set", JObj (modifyHashOp tx))]] in
      Ok (with_bulkOperations bulk (bulkOperations bulk ++ ops))
    else
      let dom := getDomain h (objectClass tx) in
      let upd := obj_set (spread (operations tx)) "$set" (JObj (modifyHashOp tx)) in
      if retrieve tx then
        Ok (with_raw bulk (raw bulk ++ [{| raw_domain := dom; raw_filter := filter; raw_update := upd |}]))
      else
        Ok (with_bulkOperations bulk (bulkOperations bulk ++ [UpdateOne filter upd]))
  else
    let bulk1 := coalesce bulk (objectId tx) (obj_assign (spread (operations tx)) (modifyHashOp tx)) in
    if retrieve tx then Ok (with_findUpdate bulk1 (set_add (findUpdate bulk1) (objectId tx)))
    else Ok bulk1.

(** [txCollectionCUD]; [updateBulk] is the translator it calls back for a
    nested transaction that is not a create. *)
Definition txCollectionCUD (updateBulk : OperationBulk * list string -> Tx -> Res (OperationBulk * list string))
  (st : OperationBulk * list string) (tx : Tx) : Res (OperationBulk * list string) :=
  match inner tx with
  | None => Throw "TypeError: Cannot read properties of undefined (reading '_class')"
  | Some createTx =>
      if String.eqb (tx_class createTx) core_class_TxCreateDoc then
        let attrs := obj_assign (spread (attributes createTx))
                       [("attachedTo", JStr (objectId tx));
                        ("attachedToClass", JStr (objectClass tx));
                        ("collection", JStr (collection tx))] in
        let d := mkTx (tx_class createTx) (objectId createTx) (objectClass createTx)
                      (objectSpace createTx) (modifiedBy createTx) (modifiedOn createTx)
                      (JObj attrs) (operations createTx) (mixin createTx) (retrieve createTx)
                      (collection createTx) (inner createTx) in
        b <- txCreateDoc (fst st) d ;; Ok (b, snd st)
      else updateBulk st createTx
  end.

(** [updateBulk]; the state is the bulk together with the lines written by
    [console.error]. *)
Fixpoint updateBulk (st : OperationBulk * list string) (tx : Tx) {struct tx}
  : Res (OperationBulk * list string) :=
  let c := tx_class tx in
  if String.eqb c core_class_TxCreateDoc then b <- txCreateDoc (fst st) tx ;; Ok (b, snd st)
  else if String.eqb c core_class_TxCollectionCUD then txCollectionCUD updateBulk st tx
  else if String.eqb c core_class_TxUpdateDoc then b <- txUpdateDoc (fst st) tx ;; Ok (b, snd st)
  else if String.eqb c core_class_TxRemoveDoc then b <- txRemoveDoc (fst st) tx ;; Ok (b, snd st)
  else if String.eqb c core_class_TxMixin then b <- txMixin (fst st) tx ;; Ok (b, snd st)
  else if String.eqb c core_class_TxApplyIf then Ok st
  else Ok (fst st, snd st ++ ["Unknown/Unsupported operation: " +s+ c]).

(** *** The bulk flush *)

Fixpoint ops_get (m : list (string * list BulkOp)) (k : string) : option (list BulkOp) :=
  match m with
  | [] => None
  | (k', v) :: m' => if String.eqb k' k then Some v else ops_get m' k
  end.

Fixpoint ops_set (m : list (string * list BulkOp)) (k : string) (v : list BulkOp)
  : list (string * list BulkOp) :=
  match m with
  | [] => [(k, v)]
  | (k', v') :: m' =>
      if String.eqb k' k then (k', v) :: m' else (k', v') :: ops_set m' k v
  end.

(** [_pushBulk]: one [bulkWrite] for each domain with pending operations. *)
Definition _pushBulk (w : World) : World :=
  let bulk := bulkOps w in
  let w := with_bulkOps w [] in
  fold_left (fun w dops =>
               match snd dops with
               | [] => w
               | ops => with_calls w (calls w ++ [BulkWrite (fst dops) ops])
               end) bulk w.

Definition pushBulk (w : World) (dom : string) (ops : list BulkOp) : World :=
  let w := match ops_get (bulkOps w) dom with
           | Some existing => with_bulkOps w (ops_set (bulkOps w) dom (existing ++ ops))
           | None => with_bulkOps w (ops_set (bulkOps w) dom ops)
           end in
  _pushBulk w.

(** Modelled from the spec: [groupByArray] of the core package (section 4.6
    consumes the batch "grouped by storage domain"): the items with the same
    key, in their order, under the keys in order of first appearance. *)
Fixpoint group_add (g : list (option string * list Tx)) (k : option string) (t : Tx)
  : list (option string * list Tx) :=
  match g with
  | [] => [(k, [t])]
  | (k', ts) :: g' =>
      let same := match k', k with
                  | Some a, Some b => String.eqb a b
                  | None, None => true
                  | _, _ => false
                  end in
      if same then (k', ts ++ [t]) :: g' else (k', ts) :: group_add g' k t
  end.

Definition groupByArray (array : list Tx) (keyProvider : Tx -> option string)
  : list (option string * list Tx) :=
  fold_left (fun g t => group_add g (keyProvider t) t) array [].

Definition emptyBulk : OperationBulk :=
  {| bulks := 1; add := []; update := []; bulkOperations := []; findUpdate := []; raw := [] |}.

Definition updateEntry (it : string * JsObj) : BulkOp :=
  UpdateOne (id_filter (fst it)) [("$set", JObj (snd it))].

(** The operation list [tx] assembles from one domain's bulk. *)
Definition domainOps (b : OperationBulk) : list BulkOp :=
  let ops := [] in
  let ops := if (0 <? List.length (add b))%nat then ops ++ map InsertOne (add b) else ops in
  let ops := if (0 <? List.length (update b))%nat then ops ++ map updateEntry (update b) else ops in
  let ops := if (0 <? List.length (bulkOperations b))%nat then ops ++ bulkOperations b else ops in
  ops.

Definition bulk_is_empty (b : OperationBulk) : bool :=
  (List.length (add b) =? 0)%nat && (List.length (update b) =? 0)%nat &&
  (List.length (bulkOperations b) =? 0)%nat && (List.length (findUpdate b) =? 0)%nat &&
  (List.length (raw b) =? 0)%nat.

Fixpoint updateAll (st : OperationBulk * list string) (txs : list Tx)
  : Res (OperationBulk * list string) :=
  match txs with
  | [] => Ok st
  | t :: txs' => st' <- updateBulk st t ;; updateAll st' txs'
  end.

(** The body of the loop of [tx] for one domain. *)
Definition txDomain (w : World) (dom : string) (txs : list Tx) : Res World :=
  st <- updateAll (emptyBulk, console w) txs ;;
  let domainBulk := fst st in
  let w := with_console w (snd st) in
  if bulk_is_empty domainBulk then Ok w
  else
    let w := if (0 <? List.length (add domainBulk))%nat
             then handleEvent w dom "add" (List.length (add domainBulk)) else w in
    let w := if (0 <? List.length (update domainBulk))%nat
             then handleEvent w dom "update" (List.length (update domainBulk)) else w in
    let w := if (0 <? List.length (bulkOperations domainBulk))%nat
             then handleEvent w dom "update" (List.length (bulkOperations domainBulk)) else w in
    let ops := domainOps domainBulk in
    let w := if (0 <? List.length ops)%nat then pushBulk w dom ops else w in
    let w := if (0 <? List.length (findUpdate domainBulk))%nat
             then with_calls w (calls w ++ [FindByIds dom (findUpdate domainBulk)]) else w in
    let w := if (0 <? List.length (raw domainBulk))%nat
             then with_calls w (calls w ++ map FindOneAndUpdate (raw domainBulk)) else w in
    Ok w.

Fixpoint txDomains (w : World) (byDomain : list (option string * list Tx)) : Res World :=
  match byDomain with
  | [] => Ok w
  | (None, _) :: rest => txDomains w rest
  | (Some dom, txs) :: rest => w' <- txDomain w dom txs ;; txDomains w' rest
  end.

(** [MongoAdapter.tx]. *)
Definition tx (w : World) (txes : list Tx) : Res World :=
  let byDomain := groupByArray txes (fun it =>
                    if isExtendsCUD core (tx_class it) then findDomain h (objectClass it)
                    else None) in
  txDomains w byDomain.

(** *** upload and update *)

(** [ops.splice(0, n)] until [ops] is empty: the parts, in order. *)
Fixpoint parts_of {A : Type} (fuel n : nat) (ops : list A) : list (list A) :=
  match fuel with
  | O => []
  | S fuel' =>
      match ops with
      | [] => []
      | _ => firstn n ops :: parts_of fuel' n (skipn n ops)
      end
  end.

(** The operation [uploadDocuments] emits for one document. *)
Definition uploadOp (it : JsObj) : BulkOp :=
  let digest := obj_get it HASH in
  let it := if obj_has it HASH then obj_delete it HASH else it in
  let size := calculateObjectSize core it in
  ReplaceOne [("_id", obj_get it "_id")]
             (obj_set (obj_assign [] it) HASH
                (if is_nullish digest then JNull
                 else JStr (template_string digest +s+ "|" +s+ toString16 size)))
             true.

(** [uploadDocuments]: the [bulkWrite] calls, one for each part of 500. *)
Definition uploadDocuments (docs : list JsObj) : list (list BulkOp) :=
  map (map uploadOp) (parts_of (List.length docs) 500 docs).

(** The operation [update] emits for one entry of its map. *)
Definition updateOp (it : string * JsVal) : Res BulkOp :=
  es <- js_entries (snd it) ;;
  let unset := obj_get es "$unset" in
  let set := obj_delete (obj_assign [] es) "$unset" in
  unset' <- (if is_undefined unset then Ok unset
             else fold_left (fun acc k =>
                               u <- acc ;;
                               x <- js_get u k ;;
                               if JsVal_eqb x (JStr "")
                               then match u with JObj o => Ok (JObj (obj_delete o k)) | _ => Ok u end
                               else Ok u)
                            (obj_keys set) (Ok unset)) ;;
  Ok (UpdateOne (id_filter (fst it))
        (obj_assign [("$set", JObj (obj_set set HASH JNull))]
           (if is_undefined unset' then [] else [("$unset", unset')]))).

Fixpoint all_ok {A : Type} (l : list (Res A)) : Res (list A) :=
  match l with
  | [] => Ok []
  | r :: l' => a <- r ;; rest <- all_ok l' ;; Ok (a :: rest)
  end.

(** [update]: the [bulkWrite] calls of the first pass, in parts of 500 (the
    retry after a failed write depends on the database and is left out). *)
Definition update_calls (operations : list (string * JsVal)) : list (Res (list BulkOp)) :=
  map (fun part => all_ok (map updateOp part)) (parts_of (List.length operations) 500 operations).

(** *** The change-hash iterator ([find]) *)

Variable calculateHash : option (JsObj -> string).   (* options.calculateHash *)

Fixpoint digest_set (m : list (JsVal * string)) (k : JsVal) (v : string) : list (JsVal * string) :=
  match m with
  | [] => [(k, v)]
  | (k', v') :: m' =>
      if JsVal_eqb k' k then (k', v) :: m' else (k', v') :: digest_set m' k v
  end.

(** [coll.find({ '%hash%': { $nin: ['', null] } })] selects these. *)
Definition is_hashed (d : JsObj) : bool :=
  negb (in_values [JStr ""; JNull] (obj_get d HASH) (obj_has d HASH)).

(** The effect of one write-back entry on the collection. *)
Definition write_digest (c : list JsObj) (e : JsVal * string) : list JsObj :=
  map (fun d => if JsVal_eqb (obj_get d "_id") (fst e) then obj_set d HASH (JStr (snd e)) else d) c.

(** The local function [flush]. *)
Definition flush (it : FindIter) (force : bool) : FindIter :=
  if (1000 <? List.length (bulkUpdate it))%nat || force then
    let it1 := if (0 <? List.length (bulkUpdate it))%nat
               then {| mode := mode it; iterator := iterator it; bulkUpdate := bulkUpdate it;
                       coll := fold_left write_digest (bulkUpdate it) (coll it);
                       writes := writes it ++ [bulkUpdate it] |}
               else it in
    {| mode := mode it1; iterator := iterator it1; bulkUpdate := [];
       coll := coll it1; writes := writes it1 |}
  else it.

Definition project_hash_id (d : JsObj) : JsObj :=
  (if obj_has d "_id" then [("_id", obj_get d "_id")] else []) ++
  (if obj_has d HASH then [(HASH, obj_get d HASH)] else []).

(** [updateMany({ '%hash%': { $ne: null } }, { $set: { '%hash%': null } })]. *)
Definition invalidate_all (c : list JsObj) : list JsObj :=
  map (fun d => if negb (in_values [JNull] (obj_get d HASH) (obj_has d HASH))
                then obj_set d HASH JNull else d) c.

Definition cursor_next (it : FindIter) : option JsObj * FindIter :=
  match iterator it with
  | Some (d :: rest) =>
      (Some d, {| mode := mode it; iterator := Some rest; bulkUpdate := bulkUpdate it;
                  coll := coll it; writes := writes it |})
  | _ => (None, it)
  end.

(** The first part of [next]: the cursor is opened at the first call, moved
    to the documents without a digest when those with one are exhausted,
    and asked for a document. *)
Definition fetch (recheck : bool) (it : FindIter) : option JsObj * FindIter :=
  let it :=
    match iterator it with
    | None =>
        let c := if recheck then invalidate_all (coll it) else coll it in
        {| mode := mode it; iterator := Some (map project_hash_id (filter is_hashed c));
           bulkUpdate := bulkUpdate it; coll := c; writes := writes it |}
    | Some _ => it
    end in
  let '(d, it) := cursor_next it in
  match d, mode it with
  | None, hashed =>
      cursor_next {| mode := non_hashed;
                     iterator := Some (filter (fun x => negb (is_hashed x)) (coll it));
                     bulkUpdate := bulkUpdate it; coll := coll it; writes := writes it |}
  | _, _ => (d, it)
  end.

(** The hash of a document without a digest. *)
Definition fresh_hash (d : JsObj) : string :=
  match calculateHash with
  | Some f => f d
  | None => sha256_base64 core d
  end.

(** The second part of [next]: the record for the document [d]; a digest
    that is neither a string nor null (against its type) is reported as an
    error. *)
Definition yield (d : JsObj) (it : FindIter) : Res (option ChangeRecord * FindIter) :=
  let digest := obj_get d HASH in
  let d := if obj_has d HASH then obj_delete d HASH else d in
  match digest with
  | JUndef | JNull | JStr EmptyString =>
      let size := estimateDocSize core d in
      let digest := fresh_hash d in
      let it := {| mode := mode it; iterator := iterator it;
                   bulkUpdate := digest_set (bulkUpdate it) (obj_get d "_id")
                                   (digest +s+ "|" +s+ toString16 size);
                   coll := coll it; writes := writes it |} in
      Ok (Some {| cr_id := obj_get d "_id"; cr_hash := digest; cr_size := Some size |},
          flush it false)
  | JStr s =>
      Ok (Some {| cr_id := obj_get d "_id"; cr_hash := slice_before_bar s;
                  cr_size := parseInt16 (slice_after_bar s) |}, it)
  | _ => Throw "TypeError: the digest is not a string"
  end.

(** [next]. *)
Definition next (recheck : bool) (it : FindIter) : Res (option ChangeRecord * FindIter) :=
  match fetch recheck it with
  | (None, it) => Ok (None, it)
  | (Some d, it) => yield d it
  end.


(** [close]: the state after it, and whether closing the cursor threw
    (when [next] was never called the cursor is [undefined]). *)
Definition close (it : FindIter) : FindIter * Res unit :=
  let it := flush it true in
  match iterator it with
  | Some _ => ({| mode := mode it; iterator := Some []; bulkUpdate := bulkUpdate it;
                  coll := coll it; writes := writes it |}, Ok tt)
  | None => (it, Throw "TypeError: Cannot read properties of undefined (reading 'close')")
  end.

(** *** The meaning of a [$like] pattern

    The spec's words for a [$like] pattern, as a matcher of its own: the
    whole subject is matched, letters without regard to case, each [%]
    against any sequence of characters and every other character of the
    pattern against itself. *)
Fixpoint like_match (pattern subject : string) : bool :=
  match pattern with
  | EmptyString =>
      match subject with
      | EmptyString => true
      | String _ _ => false
      end
  | String c pattern' =>
      if Ascii.eqb c "%"%char then
        (fix any (s : string) : bool :=
           like_match pattern' s ||
           match s with
           | String _ s' => any s'
           | EmptyString => false
           end) subject
      else
        match subject with
        | String d s' => chr_eqb true c d && like_match pattern' s'
        | EmptyString => false
        end
  end.

Fixpoint no_newline (s : string) : bool :=
  match s with
  | EmptyString => true
  | String c s' => negb (is_newline c) && no_newline s'
  end.

(** The claim of section 4.5 about the choice of the slow path, in its words:
    the query touches a joined field, the sort touches a joined field, the
    sort has a custom-rules field, or a sort key is enum-typed. *)
Definition claimed_slow_path (_class : string) (query : JsObj)
  (options : option ServerFindOptions) : bool :=
  isLookupQuery query ||
  isLookupSort (match options with Some o => sort o | None => None end) ||
  isRulesSort options || isEnumSort _class options.

(** *** The lookup planner *)

(** [DOMAIN_MODEL] of the core package. *)
Definition DOMAIN_MODEL : string := "model".

(** [s.split('.').join('')]. *)
Definition without_dots (s : string) : string := join "" (split_on "."%char s).

(** The properties [for (const key in v)] visits, each with [v[key]]. *)
Definition for_in (v : JsVal) : JsObj :=
  match js_entries v with
  | Ok es => es
  | Throw _ => []
  end.

(** [getReverseLookupValue]; a class reference reaches the hierarchy as
    its text. *)
Definition getReverseLookupValue (lookup : JsVal) (result : list JsVal) (parent : option string)
  : list JsVal :=
  let fullKey := match parent with Some p => p +s+ "." +s+ "_id" | None => "_id" end in
  let lid := let x := js_get_opt lookup "_id" in if is_nullish x then JObj [] else x in
  fold_left (fun result kv =>
               let key := fst kv in
               let value := snd kv in
               let as_ := match parent with Some p => p +s+ key | None => key end in
               let _class := match value with JArr items => nth 0 items JUndef | _ => value end in
               let attr := match value with
                           | JArr items => nth 1 items JUndef
                           | _ => JStr "attachedTo"
                           end in
               let domain := getDomain h (template_string _class) in
               let desc := getDescendants h (template_string _class) in
               if negb (String.eqb domain DOMAIN_MODEL) then
                 result ++ [JObj [("from", JStr domain);
                                  ("localField", JStr fullKey);
                                  ("foreignField", attr);
                                  ("pipeline", JArr [JObj [("$match", JObj [("_class", one_or_in desc)])]]);
                                  ("as", JStr (without_dots as_ +s+ "_lookup"))]]
               else result)
            (for_in lid) result.

(** [getLookupValue]: the steps are appended to [result]. *)
Fixpoint getLookupValue (clazz : string) (lookup : JsVal) (result : list JsVal)
  (parent : option string) {struct lookup} : list JsVal :=
  let fullKeyOf (key : string) : string :=
    let tkey := fst (checkMixinKey key clazz []) in
    match parent with Some p => p +s+ "." +s+ tkey | None => tkey end in
  let push (_class : JsVal) (fullKey : string) (result : list JsVal) : list JsVal :=
    let domain := getDomain h (template_string _class) in
    if negb (String.eqb domain DOMAIN_MODEL) then
      result ++ [JObj [("from", JStr domain);
                       ("localField", JStr fullKey);
                       ("foreignField", JStr "_id");
                       ("as", JStr (without_dots fullKey +s+ "_lookup"))]]
    else result in
  match lookup with
  | JObj fields =>
      (fix loop (es : list (string * JsVal)) (result : list JsVal) {struct es} : list JsVal :=
         match es with
         | [] => result
         | (key, value) :: es' =>
             if String.eqb key "_id" then loop es' (getReverseLookupValue lookup result parent)
             else
               match value with
               | JArr (_class :: nested :: _) =>
                   let fullKey := fullKeyOf key in
                   loop es' (getLookupValue (template_string _class) nested
                               (push _class fullKey result) (Some (fullKey +s+ "_lookup")))
               | JArr [_class] => loop es' (push _class (fullKeyOf key) result)
               | JArr [] => loop es' (push JUndef (fullKeyOf key) result)
               | _ => loop es' (push value (fullKeyOf key) result)
               end
         end) fields result
  | JArr elements =>
      (fix loop (l : list JsVal) (i : nat) (result : list JsVal) {struct l} : list JsVal :=
         match l with
         | [] => result
         | value :: l' =>
             let key := index_key i in
             match value with
             | JArr (_class :: nested :: _) =>
                 let fullKey := fullKeyOf key in
                 loop l' (S i) (getLookupValue (template_string _class) nested
                                  (push _class fullKey result) (Some (fullKey +s+ "_lookup")))
             | JArr [_class] => loop l' (S i) (push _class (fullKeyOf key) result)
             | JArr [] => loop l' (S i) (push JUndef (fullKeyOf key) result)
             | _ => loop l' (S i) (push value (fullKeyOf key) result)
             end
         end) elements 0%nat result
  | JStr s =>
      fold_left (fun result kv => push (snd kv) (fullKeyOf (fst kv)) result)
                (str_entries_from 0 s) result
  | _ => result
  end.

Definition getLookups (_class : string) (lookup : JsVal) (parent : option string) : list JsVal :=
  match lookup with
  | JUndef => []
  | _ => getLookupValue _class lookup [] parent
  end.

Definition clearExtraLookups (row : JsObj) : JsObj :=
  fold_left (fun row key => if endsWith "_lookup" key then obj_delete row key else row)
            (obj_keys row) row.

(** *** What the query executor returns *)

(** [stripHash(v)] for one value [v]: the elements of an array and an
    object lose the digest field in place; [in] on an element that is not
    an object throws. *)
Definition stripHash_value (v : JsVal) : Res JsVal :=
  match v with
  | JArr l =>
      its <- all_ok (map (fun it =>
                            match it with
                            | JObj o => Ok (JObj (stripHash1 o))
                            | JArr _ => Ok it
                            | _ => Throw "TypeError: Cannot use 'in' operator to search for '%hash%'"
                            end) l) ;;
      Ok (JArr its)
  | JObj o => Ok (JObj (stripHash1 o))
  | _ => Ok v
  end.

(** The loop of [findWithPipeline] over the rows, for one row, when the
    lookup has no key, so that [fillLookupValue] does nothing: the values
    of [row.$lookup], if the row has one, go through [stripHash], then
    [clearExtraLookups] deletes the keys that end in [_lookup]. *)
Definition pipeline_row (row : JsObj) : Res JsObj :=
  row1 <- match obj_get row "$lookup" with
          | JUndef => Ok row
          | JNull => Throw "TypeError: Cannot convert undefined or null to object"
          | JObj o =>
              vs <- all_ok (map (fun kv => v <- stripHash_value (snd kv) ;; Ok (fst kv, v)) o) ;;
              Ok (obj_set row "$lookup" (JObj vs))
          | JArr l =>
              vs <- all_ok (map stripHash_value l) ;;
              Ok (obj_set row "$lookup" (JArr vs))
          | _ => Ok row
          end ;;
  Ok (clearExtraLookups row1).

(** What [findAll] returns from the answer of the collection to the
    request: [found] are the documents the cursor gives to [toArray], and
    [findOne] finds the first of them, or [null] when there is none.
    [matchQuery] of the core package is external: [matches d] tells
    whether it keeps the document [d].  [lookup] is [options?.lookup]; the
    result of the pipeline path for a lookup with keys, where
    [fillLookupValue] links the joined documents into the rows, is not
    given here ([None]). *)
Definition findAll_returns (matches : JsObj -> bool) (lookup : JsVal) (q : NativeQuery)
  (found : list JsObj) : option (Res (list JsObj)) :=
  match q with
  | Aggregate _ _ _ =>
      match for_in lookup with
      | [] => Some (result <- all_ok (map pipeline_row found) ;; Ok (stripHash result))
      | _ => None
      end
  | FindOne _ _ _ _ recheck =>
      let doc := match found with
                 | d :: _ => if recheck && negb (matches d) then None else Some d
                 | [] => None
                 end in
      match doc with
      | Some d => Some (Ok [stripHash1 d])
      | None => Some (Ok [])
      end
  | Find _ _ _ _ _ => Some (Ok (stripHash found))
  end.


(** *** The sort stages *)

Definition core_class_TypeDate : string := "core:class:TypeDate".

Definition getEnumById (modelDb : ModelDb) (_class key : string) : option (list string) :=
  match findAttribute h _class key with
  | Some attr =>
      if String.eqb (type_class attr) core_class_EnumOf
      then enumValues modelDb (enum_of modelDb attr)
      else None
  | None => None
  end.

Definition isDate (_class key : string) : bool :=
  match findAttribute h _class key with
  | Some attr => String.eqb (type_class attr) core_class_TypeDate
  | None => false
  end.

(** [enumValues.map((value, index) => ...)] from the index [index] on. *)
Fixpoint enum_branches (key : string) (index : nat) (values : list string) : list JsVal :=
  match values with
  | [] => []
  | value :: values' =>
      JObj [("case", JObj [("$eq", JArr [JStr ("$" +s+ key); JStr value])]);
            ("then", JNum (Z.of_nat index))]
        :: enum_branches key (S index) values'
  end.

(** [fillEnumSort]; [order] is [options.sort[_key]], the result the
    pipeline and the sort document after the call. *)
Definition fillEnumSort (enumOf : list string) (key : string) (pipeline : list JsVal)
  (sort : JsObj) (order : JsVal) : list JsVal * JsObj :=
  let branches := enum_branches key 0 enumOf in
  (pipeline ++
     [JObj [("$addFields",
             JObj [("sort_" +s+ key,
                    JObj [("$switch",
                           JObj [("branches", JArr branches);
                                 ("default", JNum (Z.of_nat (List.length enumOf)))])])])]],
   obj_set sort ("sort_" +s+ key) (order_of order)).

Definition fillDateSort (key : string) (pipeline : list JsVal) (sort : JsObj) (order : JsVal)
  : list JsVal * JsObj :=
  (pipeline ++
     [JObj [("$addFields",
             JObj [("sort_isNull_" +s+ key,
                    JObj [("$or",
                           JArr [JObj [("$eq", JArr [JStr ("$" +s+ key); JNull])];
                                 JObj [("$eq", JArr [JObj [("$type", JStr ("$" +s+ key))];
                                                     JStr "missing"])]])])])]],
   obj_set (obj_set sort ("sort_isNull_" +s+ key) (order_of order)) key (order_of order)).

(** One element of [rules.cases.map(...)] in [fillCustomSort]. *)
Definition custom_branch (key : string) (selector : JsVal) : Res JsVal :=
  query <- js_get selector "query" ;;
  index <- js_get selector "index" ;;
  let by_eq := JObj [("case", JObj [("$eq", JArr [JStr ("$" +s+ key); query])]); ("then", index)] in
  if typeof_object query then
    q_in <- js_get query "$in" ;;
    if negb (is_undefined q_in) then
      Ok (JObj [("case", JObj [("$in", JObj [(key, q_in)])]); ("then", index)])
    else
      q_nin <- js_get query "$nin" ;;
      if negb (is_undefined q_nin) then
        Ok (JObj [("case", JObj [("$nin", JObj [(key, q_in)])]); ("then", index)])
      else
        q_ne <- js_get query "$ne" ;;
        if negb (is_undefined q_ne) then
          Ok (JObj [("case", JObj [("$ne", JArr [JStr ("$" +s+ key); q_ne])]); ("then", index)])
        else Ok by_eq
  else Ok by_eq.

Definition fillCustomSort (rules : JsVal) (key : string) (pipeline : list JsVal) (sort : JsObj)
  : Res (list JsVal * JsObj) :=
  cases <- js_get rules "cases" ;;
  match cases with
  | JArr selectors =>
      branches <- all_ok (map (custom_branch key) selectors) ;;
      dflt <- js_get rules "default" ;;
      order <- js_get rules "order" ;;
      Ok (pipeline ++
            [JObj [("$addFields",
                    JObj [("sort_" +s+ key,
                           JObj [("$switch",
                                  JObj [("branches", JArr branches);
                                        ("default",
                                         if is_nullish dflt
                                         then JNum (Z.of_nat (List.length branches))
                                         else dflt)])])])]],
          obj_set sort ("sort_" +s+ key) (order_of order))
  | _ => Throw "TypeError: rules.cases.map is not a function"
  end.

(** The body of the loop of [fillSortPipeline] for the key [_key] of
    [options.sort]. *)
Definition sortField (modelDb : ModelDb) (clazz : string) (options_sort : JsObj) (_key : string)
  (st : list JsVal * JsObj) : Res (list JsVal * JsObj) :=
  let key := fst (fst (translateKey _key clazz [])) in
  let order := obj_get options_sort _key in
  if typeof_object order then fillCustomSort order key (fst st) (snd st)
  else if isDate clazz _key then Ok (fillDateSort key (fst st) (snd st) order)
  else
    match getEnumById modelDb clazz _key with
    | Some enumOf => Ok (fillEnumSort enumOf key (fst st) (snd st) order)
    | None => Ok (fst st, obj_set (snd st) key (order_of order))
    end.

(** [fillSortPipeline]: the pipeline after the call. *)
Definition fillSortPipeline (modelDb : ModelDb) (clazz : string)
  (options : option ServerFindOptions) (pipeline : list JsVal) : Res (list JsVal) :=
  match options with
  | None => Ok pipeline
  | Some o =>
      match sort o with
      | None => Ok pipeline
      | Some options_sort =>
          st <- fold_left (fun acc _key => st <- acc ;; sortField modelDb clazz options_sort _key st)
                          (obj_keys options_sort) (Ok (pipeline, [])) ;;
          Ok (fst st ++ [JObj [("$sort", JObj (snd st))]])
      end
  end.

(** *** The pipeline of [findWithPipeline] *)

(** The pipeline [findWithPipeline] gives to [aggregate], and the pipeline
    of the count when [options.total] is set. *)
Definition findWithPipeline (modelDb : ModelDb) (clazz : string) (query : JsObj)
  (options : ServerFindOptions) : Res (list JsVal * option (list JsVal)) :=
  tquery <- translateQuery clazz query (Some options) ;;
  let slowPipeline := isLookupQuery query || isLookupSort (sort options) in
  let steps := getLookups clazz (lookup options) None in
  let pipeline := pipelinePrefix (fst tquery) (snd tquery) slowPipeline steps in
  let totalPipeline := pipeline in
  pipeline <- fillSortPipeline modelDb clazz (Some options) pipeline ;;
  let pipeline :=
    if negb (match limit options with None => true | Some _ => false end)
       || is_string (obj_get query "_id")
    then pipeline ++ [JObj [("$limit", JNum (match limit options with Some l => l | None => 1%Z end))]]
    else pipeline in
  let pipeline :=
    if negb slowPipeline then pipeline ++ map (fun step => JObj [("$lookup", step)]) steps
    else pipeline in
  let pipeline :=
    match projection options with
    | Some p =>
        pipeline ++
          [JObj [("$project",
                  JObj (fold_left (fun acc kv =>
                                     obj_set acc (fst (checkMixinKey (fst kv) clazz [])) (snd kv))
                                  p []))]]
    | None => pipeline
    end in
  Ok (pipeline,
      if total options then Some (totalPipeline ++ [JObj [("$count", JStr "total")]]) else None).

(** *** [update] with its retry *)

(** One [bulkWrite] of [update]: the entries it was given, and whether it
    resolved. *)
Record Attempt : Type := {
  att_part : list (string * JsVal);
  att_ok : bool
}.

(** The loop of [update].  [bulkWrite n ops] tells whether the database
    resolves the call number [n] of the loop; an exception of the mapping
    function is caught with it.  [fuel] bounds the iterations. *)
Fixpoint update_loop (bulkWrite : nat -> list BulkOp -> bool) (fuel : nat)
  (ops : list (string * JsVal)) (skip : nat) (log : list Attempt)
  : list Attempt * list (string * JsVal) :=
  match fuel with
  | O => (log, ops)
  | S fuel' =>
      match ops with
      | [] => (log, [])
      | _ =>
          let part := firstn skip ops in
          let ops := skipn skip ops in
          let ok := match all_ok (map updateOp part) with
                    | Ok bops => bulkWrite (List.length log) bops
                    | Throw _ => false
                    end in
          let log := log ++ [{| att_part := part; att_ok := ok |}] in
          if ok then update_loop bulkWrite fuel' ops skip log
          else if negb (skip =? 1)%nat then update_loop bulkWrite fuel' (ops ++ part) 1%nat log
          else update_loop bulkWrite fuel' ops skip log
      end
  end.

(** [update]: the attempts made, and the entries left when the fuel is
    spent. *)
Definition update_entries (bulkWrite : nat -> list BulkOp -> bool) (operations : list (string * JsVal))
  : list Attempt * list (string * JsVal) :=
  update_loop bulkWrite (2 * List.length operations + 1) operations 500 [].

(** *** The transaction log ([MongoTxAdapter]) *)

Definition core_account_System : string := "core:account:System".

Definition isPersonAccount (tx : Tx) : bool :=
  (String.eqb (tx_class tx) core_class_TxCreateDoc ||
   String.eqb (tx_class tx) core_class_TxUpdateDoc ||
   String.eqb (tx_class tx) core_class_TxRemoveDoc) &&
  String.eqb (objectClass tx) "contact:class:PersonAccount".

(** The test of the [forEach] of [getModel]. *)
Definition is_system_tx (tx : Tx) : bool :=
  String.eqb (modifiedBy tx) core_account_System && negb (isPersonAccount tx).

(** [getModel], from the transactions [model] the cursor returns. *)
Definition getModel (model : list Tx) : list Tx :=
  let st := fold_left (fun st tx =>
                         if is_system_tx tx then (fst st ++ [tx], snd st)
                         else (fst st, snd st ++ [tx]))
                      model ([], []) in
  fst st ++ snd st.

(** ** The predicates of the statements *)

Definition translated_kind (c : string) : bool :=
  existsb (String.eqb c)
    [core_class_TxCreateDoc; core_class_TxCollectionCUD; core_class_TxUpdateDoc;
     core_class_TxRemoveDoc; core_class_TxMixin].

Definition is_bulk_write (c : NativeCall) : bool :=
  match c with
  | BulkWrite _ _ => true
  | _ => false
  end.

Definition after_flush (dom : string) (b : OperationBulk) : list NativeCall :=
  (if (0 <? List.length (findUpdate b))%nat then [FindByIds dom (findUpdate b)] else []) ++
  map FindOneAndUpdate (raw b).

Definition is_create (t : Tx) : bool := String.eqb (tx_class t) core_class_TxCreateDoc.

Definition is_flat_update (t : Tx) : bool :=
  String.eqb (tx_class t) core_class_TxUpdateDoc && negb (isOperator core (operations t)).

Definition flat_patch (t : Tx) : JsObj := obj_assign (spread (operations t)) (modifyHashOp t).

(** The ids in the update map after a list of creates and flat updates. *)
Definition updated_ids (txs : list Tx) (ks : list string) : list string :=
  fold_left (fun ks t => if is_create t then ks else set_add ks (objectId t)) txs ks.

Definition is_insert (op : BulkOp) : bool :=
  match op with
  | InsertOne _ => true
  | _ => false
  end.

Definition is_update (op : BulkOp) : bool :=
  match op with
  | UpdateOne _ _ => true
  | _ => false
  end.

(** The object has the digest field, set to [null]. *)
Definition digest_null (o : JsObj) : bool :=
  obj_has o HASH && JsVal_eqb (obj_get o HASH) JNull.

Definition sets_digest_null (upd : JsObj) : bool :=
  match obj_get upd "$set" with
  | JObj s => digest_null s
  | _ => false
  end.






Definition replacement_of (op : BulkOp) : JsObj :=
  match op with
  | ReplaceOne _ r _ => r
  | _ => []
  end.

(** A [$like] condition carries a string, as its type says. *)
Definition value_typed (v : JsVal) : bool :=
  match v with
  | JObj ((k, p) :: _) => if String.eqb k "$like" then is_string p else true
  | _ => true
  end.

(** What an explicit class condition [cur] leaves of the classes. *)
Definition admits (classes : list string) (cur : JsVal) (x : string) : Prop :=
  match cur with
  | JStr c => In c classes -> x = c
  | JArr _ | JObj _ =>
      (forall ins, js_get_opt cur "$in" = JArr ins -> In x (strings_of ins)) /\
      (forall nins, js_get_opt cur "$nin" = JArr nins -> ~ In x (strings_of nins))
  | _ => True
  end.

Definition constrains (cur : JsVal) : bool :=
  match cur with
  | JUndef | JStr _ | JArr _ | JObj _ => true
  | _ => false
  end.

Definition doc_of (id : Z) (c : string) : JsObj := [("_id", JNum id); ("_class", JStr c)].

Definition run (coll : list JsObj) (r : Res NativeQuery) : option (list JsObj) :=
  match r with
  | Ok q => run_query coll q
  | Throw _ => None
  end.

Definition plain_ref (m : string) : bool :=
  match indexOf "."%char m with
  | None => negb (existsb (String.eqb m) ["modifiedBy"; "modifiedOn"; HASH])
  | Some _ => false
  end.

(** How many elements of the array equal [v]. *)
Definition occurrences (v : JsVal) (l : list JsVal) : nat :=
  List.length (filter (JsVal_eqb v) l).

(** The text a character of the pattern becomes. *)
Definition like_piece (c : ascii) : string :=
  if Ascii.eqb c "%"%char then ".*"
  else if like_escaped c then String "\"%char (String c EmptyString)
  else String c EmptyString.

Fixpoint like_body (pattern : string) : string :=
  match pattern with
  | EmptyString => EmptyString
  | String c p' => like_piece c +s+ like_body p'
  end.

Definition like_tok (c : ascii) : rtok :=
  if Ascii.eqb c "%"%char then TAnyStar else TLit c.

(** *** The digest text [hash|sizeHex] *)

Definition acc_val (a : option Z) : Z :=
  match a with
  | Some x => x
  | None => 0
  end.

Definition is_hex_lower (c : ascii) : bool :=
  existsb (Ascii.eqb c) (list_ascii_of_string "0123456789abcdef").

Fixpoint all_hex (s : string) : bool :=
  match s with
  | EmptyString => true
  | String c s' => is_hex_lower c && all_hex s'
  end.

(** *** A whole scan of the change-hash iterator *)

(** The iterator [find] returns, before the first call of [next]. *)
Definition opened (c : list JsObj) : FindIter :=
  {| mode := hashed; iterator := None; bulkUpdate := []; coll := c; writes := [] |}.

(** The results of [n] calls of [next], in order, and the state after them. *)
Fixpoint next_results (recheck : bool) (n : nat) (it : FindIter)
  : Res (list (option ChangeRecord) * FindIter) :=
  match n with
  | O => Ok ([], it)
  | S n' =>
      r <- next recheck it ;;
      rs <- next_results recheck n' (snd r) ;;
      Ok (fst r :: fst rs, snd rs)
  end.

(** The digest of a stored document is a string or null, or the document
    has none (its type in [storage.ts] is [string | null]). *)
Definition digest_typed (d : JsObj) : bool :=
  match obj_get d HASH with
  | JStr _ | JNull => true
  | JUndef => negb (obj_has d HASH)
  | _ => false
  end.

(** The record read from the stored digest [hash|sizeHex] of a document. *)
Definition stored_record (d : JsObj) : ChangeRecord :=
  let s := template_string (obj_get d HASH) in
  {| cr_id := obj_get d "_id"; cr_hash := slice_before_bar s;
     cr_size := parseInt16 (slice_after_bar s) |}.

(** The record computed from the document without its digest field. *)
Definition computed_record (d : JsObj) : ChangeRecord :=
  {| cr_id := obj_get d "_id"; cr_hash := fresh_hash (stripHash1 d);
     cr_size := Some (estimateDocSize core (stripHash1 d)) |}.

(** The second document is the first one but for its digest field. *)
Definition same_but_digest (d d' : JsObj) : Prop :=
  forall k, k <> HASH -> obj_get d' k = obj_get d k /\ obj_has d' k = obj_has d k.

(** The iterator [it] with its cursor at the documents [l], in the mode [m]. *)
Definition at_cursor (it : FindIter) (m : Mode) (l : list JsObj) : FindIter :=
  {| mode := m; iterator := Some l; bulkUpdate := bulkUpdate it; coll := coll it;
     writes := writes it |}.

(** One write-back entry applied to one document. *)
Definition write1 (d : JsObj) (e : JsVal * string) : JsObj :=
  if JsVal_eqb (obj_get d "_id") (fst e) then obj_set d HASH (JStr (snd e)) else d.

(** What holds of the iterator during a scan of the collection [c0], when
    [rest] are the documents without a digest still to come: the collection
    differs from [c0] in digests only, no buffered entry is empty, and
    every document has a digest, or a buffered entry, or is still to come. *)
Definition scan_inv (c0 rest : list JsObj) (it : FindIter) : Prop :=
  Forall2 same_but_digest c0 (coll it) /\
  Forall (fun e : JsVal * string => snd e <> "") (bulkUpdate it) /\
  Forall (fun x => is_hashed x = true \/
                   (exists e, In e (bulkUpdate it) /\ fst e = obj_get x "_id") \/
                   (exists d, In d rest /\ obj_get d "_id" = obj_get x "_id"))
         (coll it).

(** *** Join steps and pipeline stages *)

(** A join step over a domain other than the model's, whose alias is one
    name (no dot) that ends in [_lookup]. *)
Definition scratch_step (step : JsVal) : Prop :=
  exists a dom,
    js_get_opt step "as" = JStr a /\ js_get_opt step "from" = JStr dom /\
    dom <> DOMAIN_MODEL /\ endsWith "_lookup" a = true /\ includes "." a = false.

(** The stage is [{ name: ... }]. *)
Definition stage_is (name : string) (stage : JsVal) : bool :=
  match stage with
  | JObj [(k, _)] => String.eqb k name
  | _ => false
  end.

(** How many stages of the pipeline are [name] stages. *)
Definition count_stage (name : string) (pipeline : list JsVal) : nat :=
  List.length (filter (stage_is name) pipeline).

(** A sort direction of the database: 1 or -1. *)
Definition is_direction (v : JsVal) : Prop := v = JNum 1 \/ v = JNum (-1).

(** The index of the first occurrence of [x], the length when there is none. *)
Fixpoint first_index (x : string) (l : list string) : nat :=
  match l with
  | [] => 0
  | y :: l' => if String.eqb y x then 0 else S (first_index x l')
  end.

(** What the database computes for [$switch] on a document whose field has
    the value [x], when each case is [{ $eq: [field, value] }]: the [then]
    of the first case whose value is [x], the default when there is none
    ([None]: the branches are not of this form). *)
Fixpoint switch_branches (branches : list JsVal) (x dflt : JsVal) : option JsVal :=
  match branches with
  | [] => Some dflt
  | JObj [(c, JObj [(eq, JArr [_; value])]); (t, result)] :: rest =>
      if String.eqb c "case" && String.eqb eq "$eq" && String.eqb t "then" then
        if JsVal_eqb value x then Some result else switch_branches rest x dflt
      else None
  | _ => None
  end.

(** The value an [$addFields] stage with a [$switch] gives to the field
    [name]. *)
Definition eval_switch (stage : JsVal) (name : string) (x : JsVal) : option JsVal :=
  match stage with
  | JObj [(a, JObj [(f, JObj [(s, JObj [(b, JArr branches); (d, dflt)])])])] =>
      if String.eqb a "$addFields" && String.eqb f name && String.eqb s "$switch" &&
         String.eqb b "branches" && String.eqb d "default"
      then switch_branches branches x dflt
      else None
  | _ => None
  end.

(** *** Mixin attributes *)

(** Every field of the update document [v] lies under the name of the
    mixin: a key that is not an operator starts with [mixin.], and what an
    operator holds is an object of which the same is true. *)
Fixpoint namespaced (mixin : string) (v : JsVal) {struct v} : bool :=
  match v with
  | JObj o =>
      (fix all (es : list (string * JsVal)) : bool :=
         match es with
         | [] => true
         | (k, x) :: es' =>
             (if startsWith "$" k then namespaced mixin x else startsWith (mixin +s+ ".") k)
             && all es'
         end) o
  | _ => false
  end.

(** The transaction reaches the translator: it is a CUD transaction on a
    class that has a domain. *)
Definition has_domain (t : Tx) : bool :=
  isExtendsCUD core (tx_class t) &&
  match findDomain h (objectClass t) with Some _ => true | None => false end.

(** A step from the state [w] to the state [w'] that makes no [bulkWrite]
    with an empty list of operations and leaves nothing pending if nothing
    was. *)
Definition proper_step (w w' : World) : Prop :=
  (bulkOps w = [] -> bulkOps w' = []) /\
  exists new, calls w' = calls w ++ new /\
    forall d ops, In (BulkWrite d ops) new -> ops <> [].

(** The group is one of a domain. *)
Definition of_domain (g : option string * list Tx) : bool :=
  match fst g with
  | Some _ => true
  | None => false
  end.

(** The state [st'] of the translator keeps everything of the state [st],
    in its place, and only adds to it: inserts, ids of the update map,
    explicit operations, ids to fetch, deferred calls and console lines. *)
Definition grows (st st' : OperationBulk * list string) : Prop :=
  bulks (fst st') = bulks (fst st) /\
  (exists a, add (fst st') = add (fst st) ++ a) /\
  (exists ks, map fst (update (fst st')) = map fst (update (fst st)) ++ ks) /\
  (exists o, bulkOperations (fst st') = bulkOperations (fst st) ++ o) /\
  (exists f, findUpdate (fst st') = findUpdate (fst st) ++ f) /\
  (exists r, raw (fst st') = raw (fst st) ++ r) /\
  (exists l, snd st' = snd st ++ l).

(** ** Properties *)

(** *** Unknown and unsupported transactions *)

Lemma updateBulk_untranslated (st : OperationBulk * list string) (t : Tx) :
  translated_kind (tx_class t) = false ->
  updateBulk st t =
    if String.eqb (tx_class t) core_class_TxApplyIf then Ok st
    else Ok (fst st, snd st ++ ["Unknown/Unsupported operation: " +s+ tx_class t]).
Proof.
  intros Hk. unfold translated_kind in Hk. cbn [existsb] in Hk.
  repeat (apply orb_false_elim in Hk; destruct Hk as [? Hk]).
  destruct t; cbn [updateBulk tx_class] in *.
  repeat match goal with
         | H : String.eqb ?a ?b = false |- context [String.eqb ?a ?b] => rewrite H
         end.
  reflexivity.
Qed.

(** C10. A [TxApplyIf] passed to [updateBulk] leaves the bulk and the
    console untouched; a transaction of any other kind the translator does
    not know writes one line to the console and leaves the bulk untouched;
    in both cases the rest of the batch is translated from that same bulk. *)
Theorem updateBulk_skips_unsupported (bulk : OperationBulk) (log : list string) (t : Tx)
  (rest : list Tx) :
  translated_kind (tx_class t) = false ->
  (tx_class t = core_class_TxApplyIf ->
     updateBulk (bulk, log) t = Ok (bulk, log) /\
     updateAll (bulk, log) (t :: rest) = updateAll (bulk, log) rest) /\
  (tx_class t <> core_class_TxApplyIf ->
     let line := "Unknown/Unsupported operation: " +s+ tx_class t in
     updateBulk (bulk, log) t = Ok (bulk, log ++ [line]) /\
     updateAll (bulk, log) (t :: rest) = updateAll (bulk, log ++ [line]) rest).
Proof.
  intros Hk. pose proof (updateBulk_untranslated (bulk, log) t Hk) as E.
  split; intros Hc.
  - rewrite Hc in E. rewrite String.eqb_refl in E.
    split; [exact E|]. cbn [updateAll]. rewrite E. reflexivity.
  - apply String.eqb_neq in Hc. rewrite Hc in E. cbn [fst snd] in E.
    split; [exact E|]. cbn [updateAll]. rewrite E. reflexivity.
Qed.

(** *** The choice between the pipeline and the fast path *)

Lemma usesPipeline_spec (_class : string) (options : option ServerFindOptions) :
  usesPipeline _class options = true <->
  exists o, options = Some o /\
    (is_nullish (lookup o) = false \/
     (exists s key attr, sort o = Some s /\ In key (obj_keys s) /\
        findAttribute h _class key = Some attr /\ type_class attr = core_class_EnumOf) \/
     (exists s v, sort o = Some s /\ In v (map snd s) /\ typeof_object v = true)).
Proof.
  unfold usesPipeline. destruct options as [o|].
  - rewrite !orb_true_iff, negb_true_iff. split.
    + intros [[Hl | He] | Hr]; exists o; split; auto.
      * right; left. unfold isEnumSort in He. destruct (sort o) as [s|]; [|discriminate].
        apply existsb_exists in He. destruct He as [key [Hin Hk]].
        destruct (findAttribute h _class key) as [attr|] eqn:Ha; [|discriminate].
        apply String.eqb_eq in Hk. exists s, key, attr. auto.
      * right; right. unfold isRulesSort in Hr. destruct (sort o) as [s|]; [|discriminate].
        apply existsb_exists in Hr. destruct Hr as [v [Hin Hv]]. exists s, v. auto.
    + intros [o' [Ho H]]. injection Ho as <-.
      destruct H as [Hl | [[s [key [attr [Hs [Hin [Ha Ht]]]]]] | [s [v [Hs [Hin Hv]]]]]].
      * left; left; exact Hl.
      * left; right. unfold isEnumSort. rewrite Hs. apply existsb_exists.
        exists key. split; [exact Hin|]. rewrite Ha. apply String.eqb_eq. exact Ht.
      * right. unfold isRulesSort. rewrite Hs. apply existsb_exists. exists v. auto.
  - split; [discriminate|]. intros [o [Ho _]]. discriminate.
Qed.

(** C2 (as the code has it). [findAll] runs the aggregation pipeline
    exactly when options are given and they carry a lookup specification,
    or a sort key that is an enum-typed attribute, or a sort entry with
    custom rules; otherwise it takes the fast path (a point query or a
    cursor).  Whether the query or the sort mentions a joined field does
    not enter this choice: inside the pipeline path it only decides whether
    the join steps come before the filter on joined fields. *)
Theorem findAll_pipeline_choice (_class : string) (query : JsObj)
  (options : option ServerFindOptions) (steps : list JsVal) :
  (findAll_path _class query options = ViaPipeline <->
   exists o, options = Some o /\
     (is_nullish (lookup o) = false \/
      (exists s key attr, sort o = Some s /\ In key (obj_keys s) /\
         findAttribute h _class key = Some attr /\ type_class attr = core_class_EnumOf) \/
      (exists s v, sort o = Some s /\ In v (map snd s) /\ typeof_object v = true))) /\
  match findAll _class query options steps with
  | Ok (Aggregate _ slow _) =>
      findAll_path _class query options = ViaPipeline /\
      slow = isLookupQuery query || isLookupSort (match options with Some o => sort o | None => None end)
  | Ok _ => findAll_path _class query options <> ViaPipeline
  | Throw _ => is_ok (translateQuery _class query options) = false
  end.
Proof.
  split.
  - rewrite <- usesPipeline_spec. unfold findAll_path.
    destruct (usesPipeline _class options); [tauto|].
    split; [|discriminate].
    destruct (is_one (opt_limit options) || is_string (obj_get query "_id")); discriminate.
  - unfold findAll. destruct (translateQuery _class query options) as [mq|m] eqn:E; cbn [bind].
    + destruct (findAll_path _class query options) eqn:P.
      * cbn [bind]. split; reflexivity.
      * destruct (obj_get (obj_assign (fst mq) (snd mq)) "_id"); discriminate.
      * discriminate.
    + reflexivity.
Qed.

(** *** Objects and maps *)

Lemma obj_get_set_same (o : JsObj) (k : string) (v : JsVal) :
  obj_get (obj_set o k v) k = v.
Proof.
  induction o as [|[k' v'] o IH]; cbn.
  - now rewrite String.eqb_refl.
  - destruct (String.eqb k' k) eqn:E; cbn; rewrite E; auto.
Qed.

Lemma obj_get_set_other (o : JsObj) (k k' : string) (v : JsVal) :
  k <> k' -> obj_get (obj_set o k v) k' = obj_get o k'.
Proof.
  intros N. induction o as [|[k0 v0] o IH]; cbn.
  - apply String.eqb_neq in N. now rewrite N.
  - destruct (String.eqb k0 k) eqn:E; cbn.
    + apply String.eqb_eq in E. subst k0. apply String.eqb_neq in N. now rewrite N.
    + destruct (String.eqb k0 k'); auto.
Qed.

Lemma obj_has_set_same (o : JsObj) (k : string) (v : JsVal) :
  obj_has (obj_set o k v) k = true.
Proof.
  induction o as [|[k' v'] o IH]; cbn.
  - now rewrite String.eqb_refl.
  - destruct (String.eqb k' k) eqn:E; cbn; rewrite E; auto.
Qed.

Lemma obj_has_set_other (o : JsObj) (k k' : string) (v : JsVal) :
  k <> k' -> obj_has (obj_set o k v) k' = obj_has o k'.
Proof.
  intros N. induction o as [|[k0 v0] o IH]; cbn.
  - apply String.eqb_neq in N. now rewrite N.
  - destruct (String.eqb k0 k) eqn:E; cbn.
    + reflexivity.
    + now rewrite IH.
Qed.

Lemma obj_has_delete_same (o : JsObj) (k : string) : obj_has (obj_delete o k) k = false.
Proof.
  induction o as [|[k' v'] o IH]; cbn; auto.
  destruct (String.eqb k' k) eqn:E; cbn; auto. now rewrite E.
Qed.

Lemma obj_get_delete_other (o : JsObj) (k k' : string) :
  k <> k' -> obj_get (obj_delete o k) k' = obj_get o k'.
Proof.
  intros N. induction o as [|[k0 v0] o IH]; cbn; auto.
  destruct (String.eqb k0 k) eqn:E; cbn.
  - apply String.eqb_eq in E. subst k0. apply String.eqb_neq in N. now rewrite N.
  - now rewrite IH.
Qed.

Lemma obj_has_delete_other (o : JsObj) (k k' : string) :
  k <> k' -> obj_has (obj_delete o k) k' = obj_has o k'.
Proof.
  intros N. induction o as [|[k0 v0] o IH]; cbn; auto.
  destruct (String.eqb k0 k) eqn:E; cbn.
  - apply String.eqb_eq in E. subst k0. apply String.eqb_neq in N. now rewrite N.
  - now rewrite IH.
Qed.

Lemma obj_has_In (o : JsObj) (k : string) : obj_has o k = true <-> In k (obj_keys o).
Proof.
  induction o as [|[k' v'] o IH]; cbn.
  - split; [discriminate | tauto].
  - rewrite orb_true_iff, IH, String.eqb_eq. tauto.
Qed.

Lemma obj_keys_set (o : JsObj) (k : string) (v : JsVal) :
  obj_keys (obj_set o k v) = if obj_has o k then obj_keys o else obj_keys o ++ [k].
Proof.
  unfold obj_keys. induction o as [|[k' v'] o IH]; cbn; auto.
  destruct (String.eqb k' k) eqn:E; cbn; auto.
  rewrite IH. destruct (obj_has o k); reflexivity.
Qed.

Lemma NoDup_snoc (A : Type) (l : list A) (x : A) : NoDup l -> ~ In x l -> NoDup (l ++ [x]).
Proof.
  intros Hl Hx. induction Hl as [|y l Hy Hl IH]; cbn.
  - constructor; [tauto | constructor].
  - constructor.
    + rewrite in_app_iff. cbn. intros [H | [H | []]]; [tauto|]. subst. apply Hx. now left.
    + apply IH. intros H. apply Hx. now right.
Qed.

Lemma obj_set_NoDup (o : JsObj) (k : string) (v : JsVal) :
  NoDup (obj_keys o) -> NoDup (obj_keys (obj_set o k v)).
Proof.
  intros H. rewrite obj_keys_set. destruct (obj_has o k) eqn:E; auto.
  apply NoDup_snoc; auto. rewrite <- obj_has_In, E. discriminate.
Qed.

Lemma obj_assign_NoDup (t s : JsObj) : NoDup (obj_keys t) -> NoDup (obj_keys (obj_assign t s)).
Proof.
  unfold obj_assign. revert t. induction s as [|[k v] s IH]; cbn; auto.
  intros t H. apply IH. now apply obj_set_NoDup.
Qed.

Lemma obj_assign_snoc (t s : JsObj) (k : string) (v : JsVal) :
  obj_assign t (s ++ [(k, v)]) = obj_set (obj_assign t s) k v.
Proof. unfold obj_assign. now rewrite fold_left_app. Qed.

(** The value a key has after [{ ...t, ...s }] when [s] gives it last. *)
Lemma obj_get_assign_last (t s : JsObj) (k : string) (v : JsVal) :
  obj_get (obj_assign t (s ++ [(k, v)])) k = v /\ obj_has (obj_assign t (s ++ [(k, v)])) k = true.
Proof. rewrite obj_assign_snoc. split; [apply obj_get_set_same | apply obj_has_set_same]. Qed.

Lemma obj_get_assign (t s : JsObj) (k : string) :
  NoDup (obj_keys s) ->
  obj_get (obj_assign t s) k = if obj_has s k then obj_get s k else obj_get t k.
Proof.
  unfold obj_assign. revert t. induction s as [|[k1 v1] s IH]; intros t H; cbn; auto.
  inversion H as [|? ? Hk Hs]; subst. rewrite (IH _ Hs).
  destruct (String.eqb k1 k) eqn:E; cbn.
  - apply String.eqb_eq in E. subst k1.
    destruct (obj_has s k) eqn:Hh; [apply obj_has_In in Hh; contradiction|].
    apply obj_get_set_same.
  - destruct (obj_has s k); auto. apply obj_get_set_other. now apply String.eqb_neq.
Qed.


Lemma map_set_keys (m : list (string * JsObj)) (k : string) (v : JsObj) :
  map fst (map_set m k v) = set_add (map fst m) k.
Proof.
  unfold set_add, set_has. induction m as [|[k' v'] m IH]; cbn; auto.
  rewrite (String.eqb_sym k k'). destruct (String.eqb k' k) eqn:E; cbn; auto.
  rewrite IH. destruct (existsb (String.eqb k) (map fst m)); reflexivity.
Qed.

Lemma map_set_In (m : list (string * JsObj)) (k : string) (v : JsObj) (e : string * JsObj) :
  In e (map_set m k v) -> In e m \/ e = (k, v).
Proof.
  induction m as [|[k' v'] m IH]; cbn.
  - intros [H | []]; auto.
  - destruct (String.eqb k' k) eqn:E; cbn.
    + apply String.eqb_eq in E. subst. intros [H | H]; auto.
    + intros [H | H]; auto. destruct (IH H); auto.
Qed.

Lemma set_has_In (s : list string) (x : string) : set_has s x = true <-> In x s.
Proof.
  unfold set_has. rewrite existsb_exists. split.
  - intros [y [Hy E]]. apply String.eqb_eq in E. now subst.
  - intros H. exists x. split; auto. apply String.eqb_refl.
Qed.

Lemma set_add_In (s : list string) (x y : string) : In y (set_add s x) <-> In y s \/ y = x.
Proof.
  unfold set_add. destruct (set_has s x) eqn:E.
  - apply set_has_In in E. split; [auto|]. intros [H | ->]; auto.
  - rewrite in_app_iff. cbn. intuition.
Qed.

Lemma set_add_NoDup (s : list string) (x : string) : NoDup s -> NoDup (set_add s x).
Proof.
  intros H. unfold set_add. destruct (set_has s x) eqn:E; auto.
  apply NoDup_snoc; auto. rewrite <- set_has_In, E. discriminate.
Qed.

(** *** The assembled operation list and the flush *)

Lemma domainOps_eq (b : OperationBulk) :
  domainOps b = map InsertOne (add b) ++ map updateEntry (update b) ++ bulkOperations b.
Proof.
  unfold domainOps. destruct (add b), (update b), (bulkOperations b); cbn;
    rewrite ?app_nil_r, <- ?app_assoc; reflexivity.
Qed.

Lemma after_flush_no_write (dom : string) (b : OperationBulk) (c : NativeCall) :
  In c (after_flush dom b) -> is_bulk_write c = false.
Proof.
  unfold after_flush. rewrite in_app_iff, in_map_iff.
  intros [H | [r [<- _]]]; auto.
  destruct (0 <? List.length (findUpdate b))%nat; cbn in H; [|tauto].
  destruct H as [<- | []]. reflexivity.
Qed.

Lemma pushBulk_fresh (w : World) (dom : string) (ops : list BulkOp) :
  bulkOps w = [] -> ops <> [] ->
  bulkOps (pushBulk w dom ops) = [] /\
  calls (pushBulk w dom ops) = calls w ++ [BulkWrite dom ops] /\
  console (pushBulk w dom ops) = console w.
Proof.
  intros Hb Ho. unfold pushBulk. rewrite Hb. cbn.
  destruct ops as [|op ops]; [contradiction|]. cbn. auto.
Qed.

(** The native calls of one domain of a batch, when nothing is pending. *)
Lemma txDomain_calls (w : World) (dom : string) (txs : list Tx) (b : OperationBulk)
  (log : list string) :
  bulkOps w = [] ->
  updateAll (emptyBulk, console w) txs = Ok (b, log) ->
  exists w', txDomain w dom txs = Ok w' /\
    bulkOps w' = [] /\
    calls w' = calls w ++
      match domainOps b with
      | [] => []
      | ops => [BulkWrite dom ops]
      end ++ after_flush dom b.
Proof.
  intros Hb Hu. unfold txDomain. rewrite Hu. cbn [bind fst snd].
  destruct (bulk_is_empty b) eqn:Hemp.
  - eexists. split; [reflexivity|]. cbn. split; [exact Hb|].
    unfold bulk_is_empty in Hemp. rewrite !andb_true_iff, !Nat.eqb_eq in Hemp.
    destruct Hemp as [[[[Ha Hm] Ho] Hf] Hr].
    rewrite domainOps_eq. unfold after_flush.
    apply length_zero_iff_nil in Ha, Hm, Ho, Hf, Hr. rewrite Ha, Hm, Ho, Hf, Hr. cbn.
    now rewrite app_nil_r.
  - eexists. split; [reflexivity|].
    set (w1 := if (0 <? List.length (add b))%nat then _ else _).
    set (w2 := if (0 <? List.length (update b))%nat then _ else _).
    set (w3 := if (0 <? List.length (bulkOperations b))%nat then _ else _).
    assert (H3 : bulkOps w3 = [] /\ calls w3 = calls w).
    { subst w3 w2 w1.
      destruct (0 <? List.length (add b))%nat, (0 <? List.length (update b))%nat,
        (0 <? List.length (bulkOperations b))%nat; cbn; auto. }
    destruct H3 as [Hb3 Hc3].
    set (w4 := if (0 <? List.length (domainOps b))%nat then _ else _).
    assert (H4 : bulkOps w4 = [] /\
                 calls w4 = calls w ++ match domainOps b with [] => [] | ops => [BulkWrite dom ops] end).
    { subst w4. destruct (domainOps b) as [|op ops] eqn:Eo; cbn [List.length Nat.ltb Nat.leb].
      - rewrite app_nil_r. auto.
      - destruct (pushBulk_fresh w3 dom (op :: ops) Hb3) as [P1 [P2 _]]; [discriminate|].
        rewrite P1, P2, Hc3. auto. }
    destruct H4 as [Hb4 Hc4]. unfold after_flush.
    destruct (0 <? List.length (findUpdate b))%nat, (0 <? List.length (raw b))%nat eqn:Er; cbn;
      rewrite ?Hc4, ?Hb4; split; auto; rewrite <- ?app_assoc; cbn; auto.
    + apply Nat.ltb_ge in Er. apply Nat.le_0_r, length_zero_iff_nil in Er. rewrite Er. reflexivity.
    + apply Nat.ltb_ge in Er. apply Nat.le_0_r, length_zero_iff_nil in Er. rewrite Er. cbn.
      now rewrite app_nil_r.
Qed.

(** C5 (as the code has it). The operation list of one domain is the
    insert list, then the entries of the update map as [updateOne]
    operations, then the explicit bulk operations, sent as one batched
    write: the update map's entries come before the explicit bulk
    operations, and nothing keeps an id out of both the insert list and the
    update map. *)
Theorem flush_order (w : World) (dom : string) (txs : list Tx) (b : OperationBulk)
  (log : list string) :
  bulkOps w = [] ->
  updateAll (emptyBulk, console w) txs = Ok (b, log) ->
  domainOps b = map InsertOne (add b) ++ map updateEntry (update b) ++ bulkOperations b /\
  exists w', txDomain w dom txs = Ok w' /\
    calls w' = calls w ++
      match map InsertOne (add b) ++ map updateEntry (update b) ++ bulkOperations b with
      | [] => []
      | ops => [BulkWrite dom ops]
      end ++ after_flush dom b.
Proof.
  intros Hb Hu. split; [apply domainOps_eq|].
  destruct (txDomain_calls w dom txs b log Hb Hu) as [w' [H1 [_ H3]]].
  exists w'. split; [exact H1|]. now rewrite <- domainOps_eq.
Qed.

(** *** A batch of creates and flat updates *)

Lemma updateBulk_create (st : OperationBulk * list string) (t : Tx) :
  is_create t = true ->
  updateBulk st t = Ok (with_add (fst st) (add (fst st) ++ [translateDoc (createDoc2Doc core t)]), snd st).
Proof.
  unfold is_create. intros H. destruct t; cbn [updateBulk tx_class] in *. rewrite H. reflexivity.
Qed.

Lemma updateBulk_flat_update (st : OperationBulk * list string) (t : Tx) :
  is_flat_update t = true ->
  updateBulk st t =
    Ok (let b1 := coalesce (fst st) (objectId t) (flat_patch t) in
        if retrieve t then with_findUpdate b1 (set_add (findUpdate b1) (objectId t)) else b1,
        snd st).
Proof.
  unfold is_flat_update. intros H. apply andb_true_iff in H. destruct H as [Hc Ho].
  apply negb_true_iff in Ho. apply String.eqb_eq in Hc.
  destruct t; cbn [updateBulk tx_class operations objectId retrieve] in *. subst tx_class0.
  cbn. unfold txUpdateDoc. cbn [operations objectId retrieve]. rewrite Ho.
  destruct retrieve0; reflexivity.
Qed.

Lemma updateAll_creates_updates (txs : list Tx) (b : OperationBulk) (log : list string) :
  Forall (fun t => is_create t = true \/ is_flat_update t = true) txs ->
  exists b', updateAll (b, log) txs = Ok (b', log) /\
    List.length (add b') = (List.length (add b) + List.length (filter is_create txs))%nat /\
    bulkOperations b' = bulkOperations b /\
    raw b' = raw b /\
    map fst (update b') = updated_ids txs (map fst (update b)).
Proof.
  intros H. revert b. induction H as [|t txs Ht _ IH]; intros b.
  - exists b. cbn. rewrite Nat.add_0_r. auto.
  - cbn [updateAll]. unfold updated_ids. cbn [fold_left filter].
    destruct (is_create t) eqn:Ec.
    + rewrite (updateBulk_create _ _ Ec). cbn [bind fst snd].
      destruct (IH (with_add b (add b ++ [translateDoc (createDoc2Doc core t)])))
        as [b' [E [Ha [Ho [Hr Hm]]]]].
      exists b'. split; [exact E|]. cbn in Ha, Ho, Hr, Hm. rewrite Ha, length_app. cbn.
      repeat split; auto. lia.
    + destruct Ht as [Ht | Ht]; [congruence|].
      rewrite (updateBulk_flat_update _ _ Ht). cbn [bind fst snd].
      match goal with |- context [updateAll (?x, log) txs] => destruct (IH x) as [b' [E [Ha [Ho [Hr Hm]]]]] end.
      exists b'. split; [exact E|].
      assert (K : forall bb : OperationBulk,
                 map fst (update (if retrieve t then with_findUpdate bb (set_add (findUpdate bb) (objectId t)) else bb))
                 = map fst (update bb) /\
                 add (if retrieve t then with_findUpdate bb (set_add (findUpdate bb) (objectId t)) else bb) = add bb /\
                 bulkOperations (if retrieve t then with_findUpdate bb (set_add (findUpdate bb) (objectId t)) else bb)
                 = bulkOperations bb /\
                 raw (if retrieve t then with_findUpdate bb (set_add (findUpdate bb) (objectId t)) else bb) = raw bb).
      { intros bb. destruct (retrieve t); cbn; auto. }
      cbv zeta in Ha, Ho, Hr, Hm.
      destruct (K (coalesce b (objectId t) (flat_patch t))) as [K1 [K2 [K3 K4]]].
      rewrite K1 in Hm. rewrite K2 in Ha. rewrite K3 in Ho. rewrite K4 in Hr.
      unfold coalesce in Hm, Ha, Ho, Hr. cbn in Hm, Ha, Ho, Hr.
      rewrite map_set_keys in Hm. repeat split; auto.
Qed.

Lemma updated_ids_In (txs : list Tx) (ks : list string) (k : string) :
  In k (updated_ids txs ks) <->
  In k ks \/ exists t, In t txs /\ is_create t = false /\ objectId t = k.
Proof.
  unfold updated_ids. revert ks. induction txs as [|t txs IH]; intros ks; cbn [fold_left].
  - split; [auto|]. intros [H | [t [[] _]]]. exact H.
  - rewrite IH. destruct (is_create t) eqn:Ec.
    + split.
      * intros [H | [t' [H1 H2]]]; [auto|]. right. exists t'. cbn. tauto.
      * intros [H | [t' [[<- | H1] [H2 H3]]]]; auto; [congruence|]. right. exists t'. auto.
    + rewrite set_add_In. split.
      * intros [[H | ->] | [t' [H1 H2]]]; auto.
        -- right. exists t. cbn. auto.
        -- right. exists t'. cbn. tauto.
      * intros [H | [t' [[<- | H1] [H2 H3]]]]; auto. right. exists t'. auto.
Qed.

Lemma updated_ids_NoDup (txs : list Tx) (ks : list string) :
  NoDup ks -> NoDup (updated_ids txs ks).
Proof.
  unfold updated_ids. revert ks. induction txs as [|t txs IH]; intros ks H; cbn [fold_left]; auto.
  apply IH. destruct (is_create t); auto. now apply set_add_NoDup.
Qed.

Lemma filter_length_perm (A : Type) (f : A -> bool) (l l' : list A) :
  Permutation l l' -> List.length (filter f l) = List.length (filter f l').
Proof.
  induction 1 as [|x l l' _ IH|x y l|l l' l'' _ IH1 _ IH2]; cbn; auto.
  - destruct (f x); cbn; auto.
  - destruct (f x), (f y); cbn; auto.
  - congruence.
Qed.

Lemma groupByArray_one (txs : list Tx) (key : Tx -> option string) (dom : string) :
  (forall t, In t txs -> key t = Some dom) -> txs <> [] ->
  groupByArray txs key = [(Some dom, txs)].
Proof.
  intros Hk Hne. unfold groupByArray. destruct txs as [|t0 txs]; [contradiction|].
  cbn [fold_left group_add]. rewrite (Hk t0) by (now left).
  assert (G : forall l acc, (forall t, In t l -> key t = Some dom) ->
              fold_left (fun g t => group_add g (key t) t) l [(Some dom, acc)] = [(Some dom, acc ++ l)]).
  { induction l as [|t l IH]; intros acc Hl; cbn [fold_left].
    - now rewrite app_nil_r.
    - rewrite (Hl t) by (now left). cbn [group_add]. rewrite String.eqb_refl.
      rewrite IH by (intros; apply Hl; now right). now rewrite <- app_assoc. }
  rewrite G by (intros; apply Hk; now right). reflexivity.
Qed.

Lemma filter_map_all (A B : Type) (f : A -> B) (p : B -> bool) (l : list A) :
  (forall a, p (f a) = true) -> filter p (map f l) = map f l.
Proof. intros H. induction l; cbn; auto. rewrite H. now f_equal. Qed.

Lemma filter_map_none (A B : Type) (f : A -> B) (p : B -> bool) (l : list A) :
  (forall a, p (f a) = false) -> filter p (map f l) = [].
Proof. intros H. induction l; cbn; auto. now rewrite H. Qed.

(** C6. A batch of three creates and two flat updates of two distinct
    ids, in any order and all of one domain, is flushed as exactly one
    batched write for that domain, with three insert entries and two update
    entries. *)
Theorem batch_of_creates_and_updates (w : World) (dom : string) (c1 c2 c3 u1 u2 : Tx)
  (txes : list Tx) :
  Permutation txes [c1; c2; c3; u1; u2] ->
  is_create c1 = true -> is_create c2 = true -> is_create c3 = true ->
  is_flat_update u1 = true -> is_flat_update u2 = true ->
  objectId u1 <> objectId u2 ->
  (forall t, In t [c1; c2; c3; u1; u2] ->
     isExtendsCUD core (tx_class t) = true /\ findDomain h (objectClass t) = Some dom) ->
  bulkOps w = [] ->
  exists w' ops rest,
    tx w txes = Ok w' /\
    calls w' = calls w ++ BulkWrite dom ops :: rest /\
    (forall c, In c rest -> is_bulk_write c = false) /\
    List.length (filter is_insert ops) = 3%nat /\
    List.length (filter is_update ops) = 2%nat /\
    List.length ops = 5%nat.
Proof.
  intros P C1 C2 C3 U1 U2 Hne Hdom Hw.
  assert (Uc : forall u, is_flat_update u = true -> is_create u = false).
  { intros u Hu. unfold is_flat_update in Hu. apply andb_true_iff in Hu. destruct Hu as [Hu _].
    apply String.eqb_eq in Hu. unfold is_create. rewrite Hu. reflexivity. }
  assert (Hall : Forall (fun t => is_create t = true \/ is_flat_update t = true) txes).
  { apply Forall_forall. intros t Ht. apply (Permutation_in _ P) in Ht. cbn in Ht.
    destruct Ht as [<- | [<- | [<- | [<- | [<- | []]]]]]; auto. }
  destruct (updateAll_creates_updates txes emptyBulk (console w) Hall)
    as [b [E [Ha [Ho [Hr Hm]]]]].
  cbn in Ha, Ho, Hr, Hm.
  assert (Hadd : List.length (add b) = 3%nat).
  { rewrite Ha, (filter_length_perm _ is_create _ _ P). cbn.
    rewrite C1, C2, C3, (Uc _ U1), (Uc _ U2). reflexivity. }
  assert (Hupd : List.length (update b) = 2%nat).
  { rewrite <- (length_map fst), Hm.
    assert (Pk : Permutation (updated_ids txes []) [objectId u1; objectId u2]).
    { apply NoDup_Permutation.
      - apply updated_ids_NoDup. constructor.
      - constructor; [cbn; intuition congruence|]. constructor; [cbn; tauto | constructor].
      - intros k. rewrite updated_ids_In. cbn. split.
        + intros [[] | [t [Ht [Hc Hk]]]]. apply (Permutation_in _ P) in Ht. cbn in Ht.
          destruct Ht as [<- | [<- | [<- | [<- | [<- | []]]]]]; try congruence; auto.
        + intros [<- | [<- | []]]; right.
          * exists u1. split; [|auto]. apply (Permutation_in _ (Permutation_sym P)). cbn. auto.
          * exists u2. split; [|auto]. apply (Permutation_in _ (Permutation_sym P)). cbn. auto 6. }
    now rewrite (Permutation_length Pk). }
  assert (Hops : domainOps b = map InsertOne (add b) ++ map updateEntry (update b)).
  { rewrite domainOps_eq, Ho. now rewrite app_nil_r. }
  assert (Hg : groupByArray txes
                 (fun it => if isExtendsCUD core (tx_class it) then findDomain h (objectClass it) else None)
               = [(Some dom, txes)]).
  { apply groupByArray_one.
    - intros t Ht. apply (Permutation_in _ P) in Ht. destruct (Hdom t Ht) as [H1 H2]. now rewrite H1.
    - intros ->. apply Permutation_nil in P. discriminate. }
  destruct (txDomain_calls w dom txes b (console w) Hw E) as [w' [T1 [_ T3]]].
  exists w', (domainOps b), (after_flush dom b).
  unfold tx. rewrite Hg. cbn [txDomains]. rewrite T1. cbn [bind].
  split; [reflexivity|]. split.
  - rewrite T3.
    assert (L : List.length (domainOps b) = 5%nat).
    { rewrite Hops, length_app, !length_map, Hadd, Hupd. reflexivity. }
    destruct (domainOps b); [discriminate L | reflexivity].
  - split; [apply after_flush_no_write|].
    rewrite Hops, !filter_app, !length_app.
    rewrite (filter_map_all _ _ InsertOne is_insert), (filter_map_none _ _ updateEntry is_insert),
      (filter_map_none _ _ InsertOne is_update), (filter_map_all _ _ updateEntry is_update); auto.
    cbn. rewrite !length_map, Hadd, Hupd. auto.
Qed.

(** *** Digest invalidation *)

Lemma Tx_inner_ind (P : Tx -> Prop) :
  (forall t, (forall t', inner t = Some t' -> P t') -> P t) -> forall t, P t.
Proof.
  intros H. fix IH 1. intros t. apply H.
  destruct t as [? ? ? ? ? ? ? ? ? ? ? [t1|]]; cbn; intros t' E.
  - injection E as <-. apply IH.
  - discriminate.
Qed.

Ltac ok_steps H :=
  repeat match type of H with
         | bind ?r _ = Ok _ =>
             let x := fresh "x" in
             let E := fresh "E" in
             destruct r as [x|] eqn:E; cbn [bind] in H; [|discriminate H]
         end.


Lemma spread_NoDup (v : JsVal) : NoDup (obj_keys (spread v)).
Proof.
  unfold spread. destruct (js_entries v); [|constructor].
  apply obj_assign_NoDup. constructor.
Qed.

Lemma flat_patch_digest (t : Tx) :
  NoDup (obj_keys (flat_patch t)) /\ obj_has (flat_patch t) HASH = true /\
  obj_get (flat_patch t) HASH = JNull.
Proof.
  unfold flat_patch. split; [apply obj_assign_NoDup, spread_NoDup|].
  unfold modifyHashOp.
  change [("modifiedBy", JStr (modifiedBy t)); ("modifiedOn", JNum (modifiedOn t)); (HASH, JNull)]
    with ([("modifiedBy", JStr (modifiedBy t)); ("modifiedOn", JNum (modifiedOn t))] ++ [(HASH, JNull)]).
  destruct (obj_get_assign_last (spread (operations t))
              [("modifiedBy", JStr (modifiedBy t)); ("modifiedOn", JNum (modifiedOn t))] HASH JNull); auto.
Qed.




(** *** Class scoping *)

Lemma first_key_like (ks : list string) (A : Type) (x y : A) :
  match first_key ks with JStr "$like" => x | _ => y end =
  match ks with
  | k :: _ => if String.eqb k "$like" then x else y
  | [] => y
  end.
Proof.
  destruct ks as [|k ks]; cbn [first_key]; auto.
  destruct (String.eqb k "$like") eqn:E.
  - apply String.eqb_eq in E. subst. reflexivity.
  - apply String.eqb_neq in E.
    repeat (match goal with
            | |- context [match ?s with EmptyString => _ | String _ _ => _ end] => destruct s; auto
            | |- context [match ?a with Ascii _ _ _ _ _ _ _ _ => _ end] => destruct a
            | |- context [if ?b then _ else _] => destruct b; auto
            end).
    contradiction E; reflexivity.
Qed.

Lemma translateValue_total (v : JsVal) :
  value_typed v = true -> exists v', translateValue v = Ok v'.
Proof.
  intros H. destruct v as [| | | | |l|o]; try (eexists; reflexivity).
  - unfold translateValue, js_keys. cbn [js_entries bind]. rewrite first_key_like.
    destruct l as [|x l]; cbn; eexists; reflexivity.
  - unfold translateValue, js_keys. cbn [js_entries bind]. rewrite first_key_like.
    destruct o as [|[k p] o]; cbn [obj_keys map fst]; [eexists; reflexivity|].
    destruct (String.eqb k "$like") eqn:E; [|eexists; reflexivity].
    cbn [value_typed] in H. rewrite E in H. cbn [js_get obj_get bind]. rewrite E. cbn [bind].
    destruct p; try discriminate. cbn. eexists; reflexivity.
Qed.

Lemma translateFields_total (clazz : string) (query : JsObj) :
  forallb value_typed (map snd query) = true ->
  forall tb tl mx, exists r, translateFields clazz query tb tl mx = Ok r.
Proof.
  induction query as [|[k v] query IH]; intros H tb tl mx; cbn [translateFields].
  - eexists; reflexivity.
  - cbn [map snd forallb] in H. apply andb_true_iff in H. destruct H as [Hv Hq].
    destruct (translateValue_total v Hv) as [v' ->]. cbn [bind].
    destruct (snd (fst (translateKey k clazz mx))); apply IH; auto.
Qed.

Lemma index_key_not_dollar (i : nat) (k : string) :
  startsWith "$" k = true -> String.eqb (index_key i) k = false.
Proof.
  intros Hk. apply String.eqb_neq. intros E. subst k. revert Hk.
  unfold index_key, NilZero.string_of_uint.
  destruct (Nat.to_uint i); cbn; discriminate.
Qed.

Lemma str_entries_dollar (s : string) (i : nat) (k : string) :
  startsWith "$" k = true -> obj_get (str_entries_from i s) k = JUndef.
Proof.
  intros Hk. revert i. induction s as [|c s IH]; intros i; cbn; auto.
  now rewrite (index_key_not_dollar i k Hk).
Qed.

Lemma js_get_opt_str (s k : string) : startsWith "$" k = true -> js_get_opt (JStr s) k = JUndef.
Proof.
  intros Hk. unfold js_get_opt, js_get.
  destruct (String.eqb k "length") eqn:E.
  - apply String.eqb_eq in E. subst. discriminate.
  - now apply str_entries_dollar.
Qed.

Lemma collapse_class_in (X : JsObj) (l : list string) :
  obj_get X "_class" = class_in l -> obj_get (collapseClass X) "_class" = one_or_in l.
Proof.
  intros E. unfold collapseClass. rewrite E. cbn.
  destruct l as [|a [|b l]]; cbn; auto. apply obj_get_set_same.
Qed.

Lemma collapse_class_str (X : JsObj) (c : string) :
  obj_get X "_class" = JStr c -> obj_get (collapseClass X) "_class" = JStr c.
Proof.
  intros E. unfold collapseClass. rewrite E, js_get_opt_str by reflexivity. exact E.
Qed.

Lemma collapse_one_or_in (X : JsObj) (l : list string) :
  obj_get X "_class" = one_or_in l -> obj_get (collapseClass X) "_class" = one_or_in l.
Proof.
  destruct l as [|a [|b l]]; cbn [one_or_in]; intros E.
  - now apply collapse_class_in in E.
  - now apply collapse_class_str.
  - now apply collapse_class_in in E.
Qed.

Lemma collapse_has (X : JsObj) : obj_has (collapseClass X) "_class" = obj_has X "_class".
Proof.
  unfold collapseClass.
  destruct (js_get_opt (obj_get X "_class") "$in") as [| | | | |[|x [|y l]]|] eqn:E; auto.
  destruct (is_undefined (js_get_opt (obj_get X "_class") "$nin")); auto.
  rewrite obj_has_set_same.
  destruct (obj_has X "_class") eqn:Hh; auto.
  assert (G : obj_get X "_class" = JUndef).
  { clear E. induction X as [|[k v] X IH]; cbn in *; auto.
    destruct (String.eqb k "_class"); [discriminate|]. auto. }
  rewrite G in E. discriminate.
Qed.

Lemma concrete_In (l : list string) (x : string) :
  In x (concrete l) <-> In x l /\ isMixin h x = false.
Proof. unfold concrete. rewrite filter_In, negb_true_iff. tauto. Qed.

Lemma not_set_has (s : list string) (x : string) :
  negb (set_has s x) = true <-> ~ In x s.
Proof.
  rewrite negb_true_iff, <- set_has_In. destruct (set_has s x); split; congruence.
Qed.

Lemma narrowed_In (classes : list string) (vin vnin : JsVal) (x : string) :
  In x (match vnin with
        | JArr nins =>
            filter (fun c => negb (set_has (strings_of nins) c))
              (match vin with
               | JArr ins => filter (set_has classes) (strings_of ins)
               | _ => classes
               end)
        | _ => match vin with
               | JArr ins => filter (set_has classes) (strings_of ins)
               | _ => classes
               end
        end) <->
  In x classes /\
  (forall ins, vin = JArr ins -> In x (strings_of ins)) /\
  (forall nins, vnin = JArr nins -> ~ In x (strings_of nins)).
Proof.
  assert (D1 : In x (match vin with
                     | JArr ins => filter (set_has classes) (strings_of ins)
                     | _ => classes
                     end) <->
               In x classes /\ (forall ins, vin = JArr ins -> In x (strings_of ins))).
  { destruct vin; try (split; [intros H; split; [exact H | intros ? ?; discriminate] | tauto]).
    rewrite filter_In, set_has_In. split.
    - intros [H1 H2]. split; auto. intros ins E. now injection E as <-.
    - intros [H1 H2]. split; auto. }
  destruct vnin; try (rewrite D1; split;
                      [intros [H1 H2]; repeat split; auto; intros ? ?; discriminate | tauto]).
  rewrite filter_In, not_set_has, D1. split.
  - intros [[H1 H2] H3]. repeat split; auto. intros nins E. now injection E as <-.
  - intros [H1 [H2 H3]]. repeat split; auto.
Qed.

(** The value [scopeClass] and the final collapse give the class condition. *)
Lemma scopeClass_admits (raw_classes : list string) (cur : JsVal) (X : JsObj) :
  constrains cur = true ->
  obj_get X "_class" = match scopeClass (concrete raw_classes) cur with
                       | Some c => c
                       | None => cur
                       end ->
  exists l, obj_get (collapseClass X) "_class" = one_or_in l /\
    forall x, In x l <-> (In x raw_classes /\ isMixin h x = false) /\
                         admits (concrete raw_classes) cur x.
Proof.
  intros Hc E. destruct cur as [| | | |c|items|fields]; try discriminate; cbn [scopeClass] in E.
  - exists (concrete raw_classes). split; [now apply collapse_class_in|].
    intros x. rewrite concrete_In. cbn. tauto.
  - destruct (set_has (concrete raw_classes) c) eqn:Hs.
    + exists [c]. split; [now apply collapse_class_str|].
      apply set_has_In in Hs. intros x. cbn. split.
      * intros [<- | []]. split; [now apply concrete_In | auto].
      * intros [_ Hx]. left. symmetry. auto.
    + exists (concrete raw_classes). split; [now apply collapse_one_or_in|].
      intros x. rewrite concrete_In. cbn. split; [|tauto].
      intros Hx. split; auto. intros Hin. apply set_has_In in Hin. congruence.
  - eexists. split; [apply collapse_one_or_in; exact E|].
    intros x. cbn [admits]. rewrite concrete_In, narrowed_In, concrete_In. tauto.
  - eexists. split; [apply collapse_one_or_in; exact E|].
    intros x. cbn [admits]. rewrite concrete_In, narrowed_In, concrete_In. tauto.
Qed.

Lemma translateQuery_unfold (clazz : string) (query : JsObj) (options : option ServerFindOptions)
  (tb tl : JsObj) (mixins : list string) :
  translateFields clazz query [] [] [] = Ok (tb, tl, mixins) ->
  let tb1 := if opt_flag skipSpace options then obj_delete tb "space" else tb in
  translateQuery clazz query options =
    if opt_flag skipClass options then Ok (obj_delete tb1 "_class", tl)
    else if String.eqb (getBaseClass h clazz) core_class_Doc
         then Ok (collapseClass (if obj_has tb1 "_class" then obj_delete tb1 "_class" else tb1), tl)
         else
           let tb2 := match scopeClass (concrete (getDescendants h (getBaseClass h clazz)))
                              (obj_get tb1 "_class") with
                      | Some c => obj_set tb1 "_class" c
                      | None => tb1
                      end in
           Ok (collapseClass
                 (if negb (String.eqb (getBaseClass h clazz) clazz) && negb (set_has mixins clazz)
                  then obj_set tb2 clazz (JObj [("$exists", JBool true)]) else tb2), tl).
Proof.
  intros E. unfold translateQuery. rewrite E. cbn [bind fst snd].
  destruct (opt_flag skipClass options); auto.
  destruct (String.eqb (getBaseClass h clazz) core_class_Doc); reflexivity.
Qed.

Lemma tb1_class (tb : JsObj) (b : bool) :
  obj_get (if b then obj_delete tb "space" else tb) "_class" = obj_get tb "_class".
Proof. destruct b; auto. apply obj_get_delete_other. discriminate. Qed.

(** The class condition of the translated filter. *)
Lemma translateQuery_scoped (clazz : string) (query : JsObj) (options : option ServerFindOptions) :
  forallb value_typed (map snd query) = true ->
  clazz <> "_class" ->
  exists tb tl mixins base,
    translateFields clazz query [] [] [] = Ok (tb, tl, mixins) /\
    translateQuery clazz query options = Ok (base, tl) /\
    (opt_flag skipClass options = true -> obj_has base "_class" = false) /\
    (opt_flag skipClass options = false -> getBaseClass h clazz = core_class_Doc ->
       obj_has base "_class" = false) /\
    (opt_flag skipClass options = false -> getBaseClass h clazz <> core_class_Doc ->
     constrains (obj_get tb "_class") = true ->
     exists l, obj_get base "_class" = one_or_in l /\
       forall x, In x l <->
         (In x (getDescendants h (getBaseClass h clazz)) /\ isMixin h x = false) /\
         admits (concrete (getDescendants h (getBaseClass h clazz))) (obj_get tb "_class") x).
Proof.
  intros Ht Hc.
  destruct (translateFields_total clazz query Ht [] [] []) as [[[tb tl] mixins] E].
  pose proof (translateQuery_unfold clazz query options tb tl mixins E) as U. cbv zeta in U.
  exists tb, tl, mixins.
  destruct (opt_flag skipClass options) eqn:Hs.
  - eexists. split; [exact E|]. split; [exact U|].
    split; [intros _; apply obj_has_delete_same|]. split; intros; discriminate.
  - destruct (String.eqb (getBaseClass h clazz) core_class_Doc) eqn:Hd.
    + eexists. split; [exact E|]. split; [exact U|]. split; [discriminate|]. split.
      * intros _ _. rewrite collapse_has.
        destruct (obj_has _ "_class") eqn:Hh; [apply obj_has_delete_same | exact Hh].
      * intros _ N. apply String.eqb_eq in Hd. contradiction.
    + eexists. split; [exact E|]. split; [exact U|]. split; [discriminate|]. split.
      * intros _ N. apply String.eqb_neq in Hd. contradiction.
      * intros _ _ Hcur. apply scopeClass_admits; auto.
        rewrite <- (tb1_class tb (opt_flag skipSpace options)).
        set (tb1 := if opt_flag skipSpace options then obj_delete tb "space" else tb).
        assert (G : forall Y : JsObj,
                   obj_get (if negb (String.eqb (getBaseClass h clazz) clazz) && negb (set_has mixins clazz)
                            then obj_set Y clazz (JObj [("$exists", JBool true)]) else Y) "_class"
                   = obj_get Y "_class").
        { intros Y. destruct (negb _ && negb _); auto. now apply obj_get_set_other. }
        rewrite G.
        destruct (scopeClass _ (obj_get tb1 "_class")); auto. apply obj_get_set_same.
Qed.

(** *** The scenario with a class and its subclass *)

Lemma in_values_classes (l : list string) (c : string) :
  in_values (map JStr l) (JStr c) true = set_has l c.
Proof.
  unfold in_values, set_has. induction l as [|a l IH]; cbn [map existsb]; auto.
  rewrite IH. cbn [JsVal_eqb negb andb]. rewrite orb_false_r, (String.eqb_sym a c). reflexivity.
Qed.

Lemma matches_class_in (l : list string) (id : Z) (c : string) :
  mongo_matches [("_class", class_in l)] (doc_of id c) = Some (set_has l c).
Proof.
  cbn -[in_values]. rewrite in_values_classes. now rewrite !andb_true_r.
Qed.

Lemma matches_class_str (c' : string) (id : Z) (c : string) :
  mongo_matches [("_class", JStr c')] (doc_of id c) = Some (String.eqb c' c).
Proof. cbn. now rewrite !orb_false_r, andb_true_r. Qed.

Lemma collapse_two (l : list string) (a b : string) :
  In a l -> In b l -> a <> b ->
  collapseClass [("_class", class_in l)] = [("_class", class_in l)].
Proof.
  intros Ha Hb N. destruct l as [|x [|y l]]; cbn; auto.
  cbn in Ha, Hb. destruct Ha as [<- | []], Hb as [<- | []]. contradiction.
Qed.

Lemma collapse_str (X : JsObj) (c : string) :
  obj_get X "_class" = JStr c -> collapseClass X = X.
Proof. intros E. unfold collapseClass. now rewrite E, js_get_opt_str. Qed.

Lemma translateKey_class (clazz : string) :
  checkMixinKey "_class" clazz [] = ("_class", []) ->
  translateKey "_class" clazz [] = ("_class", false, []).
Proof.
  intros H. unfold translateKey. cbn -[checkMixinKey]. now rewrite H.
Qed.

Lemma class_scope_scenario (A B : string) (steps : list JsVal) :
  A <> B -> getBaseClass h A = A -> A <> core_class_Doc ->
  In A (getDescendants h A) -> In B (getDescendants h A) ->
  isMixin h A = false -> isMixin h B = false ->
  checkMixinKey "_class" A [] = ("_class", []) ->
  let coll := [doc_of 1 A; doc_of 2 B] in
  run coll (findAll A [] None steps) = Some coll /\
  run coll (findAll A [("_class", JStr B)] None steps) = Some [doc_of 2 B] /\
  run coll (findAll A [] (Some {| lookup := JUndef; sort := None; limit := None;
                                  projection := None; total := false; skipSpace := false;
                                  skipClass := true; domain := None |}) steps) = Some coll.
Proof.
  intros N Hbase Hdoc HA HB HmA HmB Hkey coll.
  assert (CA : In A (concrete (getDescendants h A))) by (apply concrete_In; auto).
  assert (CB : In B (concrete (getDescendants h A))) by (apply concrete_In; auto).
  apply String.eqb_neq in Hdoc.
  split; [|split].
  - unfold findAll.
    rewrite (translateQuery_unfold A [] None [] [] [] eq_refl). cbv zeta.
    cbn [opt_flag]. rewrite Hbase, Hdoc, String.eqb_refl. cbn [negb andb obj_get scopeClass obj_set].
    rewrite (collapse_two _ A B CA CB N). cbn [bind fst snd obj_assign fold_left].
    cbn [findAll_path usesPipeline opt_limit is_one obj_get is_string orb].
    cbn [run run_query calcProjection collectSort opt_limit].
    subst coll. cbn [mongo_find]. rewrite !matches_class_in.
    apply set_has_In in CA, CB. rewrite CA, CB. reflexivity.
  - unfold findAll.
    assert (E : translateFields A [("_class", JStr B)] [] [] [] = Ok ([("_class", JStr B)], [], [])).
    { cbn [translateFields]. rewrite (translateKey_class A Hkey). reflexivity. }
    rewrite (translateQuery_unfold A _ None _ _ _ E). cbv zeta.
    cbn [opt_flag]. rewrite Hbase, Hdoc, String.eqb_refl.
    cbn [negb andb obj_get scopeClass String.eqb Ascii.eqb Bool.eqb].
    apply set_has_In in CB. rewrite CB.
    rewrite (collapse_str _ B) by reflexivity. cbn [bind fst snd obj_assign fold_left].
    cbn [findAll_path usesPipeline opt_limit is_one obj_get is_string orb String.eqb Ascii.eqb Bool.eqb].
    cbn [run run_query calcProjection collectSort opt_limit].
    subst coll. cbn [mongo_find]. rewrite !matches_class_str.
    rewrite String.eqb_refl. apply not_eq_sym in N. apply String.eqb_neq in N. rewrite N.
    reflexivity.
  - unfold findAll.
    rewrite (translateQuery_unfold A [] _ [] [] [] eq_refl). cbv zeta.
    cbn [opt_flag skipClass skipSpace obj_delete bind fst snd obj_assign fold_left].
    cbn. reflexivity.
Qed.

(** C3 (as the code has it). When the caller does not pass [skipClass]
    and the base class of the queried class is not [core.class.Doc], the
    class condition of the translated filter admits exactly the concrete
    (non-mixin) descendants of the base class that the query's own class
    condition leaves: all of them when it has none or when it names a
    single class that is not among them, that class when it names one of
    them, and for an include/exclude set those in the includes and not in
    the excludes; a condition for exactly one class is written as that
    class.  With [skipClass], and also when the base class is
    [core.class.Doc], the filter has no class condition.  For a class [A]
    that is its own base class, other than [core.class.Doc], with a
    concrete subclass [B], the three queries of the scenario return both
    documents, only the second, and both. *)
Theorem class_scoping (clazz : string) (query : JsObj) (options : option ServerFindOptions)
  (A B : string) (steps : list JsVal) :
  forallb value_typed (map snd query) = true ->
  clazz <> "_class" ->
  (exists tb tl mixins base,
    translateFields clazz query [] [] [] = Ok (tb, tl, mixins) /\
    translateQuery clazz query options = Ok (base, tl) /\
    (opt_flag skipClass options = true -> obj_has base "_class" = false) /\
    (opt_flag skipClass options = false -> getBaseClass h clazz = core_class_Doc ->
       obj_has base "_class" = false) /\
    (opt_flag skipClass options = false -> getBaseClass h clazz <> core_class_Doc ->
     constrains (obj_get tb "_class") = true ->
     exists l, obj_get base "_class" = one_or_in l /\
       forall x, In x l <->
         (In x (getDescendants h (getBaseClass h clazz)) /\ isMixin h x = false) /\
         admits (concrete (getDescendants h (getBaseClass h clazz))) (obj_get tb "_class") x)) /\
  (A <> B -> getBaseClass h A = A -> A <> core_class_Doc ->
   In A (getDescendants h A) -> In B (getDescendants h A) ->
   isMixin h A = false -> isMixin h B = false ->
   checkMixinKey "_class" A [] = ("_class", []) ->
   let coll := [doc_of 1 A; doc_of 2 B] in
   run coll (findAll A [] None steps) = Some coll /\
   run coll (findAll A [("_class", JStr B)] None steps) = Some [doc_of 2 B] /\
   run coll (findAll A [] (Some {| lookup := JUndef; sort := None; limit := None;
                                   projection := None; total := false; skipSpace := false;
                                   skipClass := true; domain := None |}) steps) = Some coll).
Proof.
  intros Ht Hc. split.
  - apply translateQuery_scoped; auto.
  - apply class_scope_scenario.
Qed.

(** *** Mixin namespacing *)

Lemma split_on_none (sep : ascii) (s : string) :
  indexOf sep s = None -> split_on sep s = [s].
Proof.
  induction s as [|c s IH]; cbn; auto.
  destruct (Ascii.eqb c sep); [discriminate|].
  destruct (indexOf sep s); [discriminate|]. intros _. now rewrite IH.
Qed.

Lemma split_on_app (sep : ascii) (a b : string) :
  indexOf sep a = None -> split_on sep (a +s+ String sep b) = a :: split_on sep b.
Proof.
  induction a as [|c a IH]; cbn.
  - intros _. now rewrite Ascii.eqb_refl.
  - destruct (Ascii.eqb c sep); [discriminate|].
    destruct (indexOf sep a); [discriminate|]. intros _. now rewrite IH.
Qed.

Lemma indexOf_app (sep : ascii) (a b : string) :
  indexOf sep (a +s+ String sep b) <> None.
Proof.
  induction a as [|c a IH]; cbn.
  - now rewrite Ascii.eqb_refl.
  - destruct (Ascii.eqb c sep); [discriminate|].
    destruct (indexOf sep (a +s+ String sep b)); [discriminate | contradiction].
Qed.

Lemma path_of_mixin_key (m a : string) :
  indexOf "."%char m = None -> indexOf "."%char a = None ->
  path_of (m +s+ "." +s+ a) = [m; a].
Proof.
  intros Hm Ha. unfold path_of. cbn [String.append].
  rewrite (split_on_app _ m a Hm), (split_on_none _ a Ha). reflexivity.
Qed.

Lemma mixin_key_neq (m a k : string) :
  indexOf "."%char k = None -> String.eqb (m +s+ "." +s+ a) k = false.
Proof.
  intros Hk. apply String.eqb_neq. intros E. cbn [String.append] in E.
  apply (indexOf_app "."%char m a). now rewrite E.
Qed.

Lemma append_dot_assoc (m k : string) : (m +s+ ".") +s+ k = m +s+ "." +s+ k.
Proof. induction m as [|c m IHm]; cbn [String.append]; [reflexivity | f_equal; exact IHm]. Qed.

(** A flat patch: every key is put under the mixin; an empty one gets the
    marker. *)
Lemma translateMixinAttrs_flat (m : string) (o : JsObj) :
  (forall k, In k (obj_keys o) -> startsWith "$" k = false) ->
  translateMixinAttrs m (JObj o) =
    Ok (match o with
        | [] => [(m +s+ "." +s+ "__mixin", JStr "true")]
        | _ => prefixed (m +s+ ".") o
        end).
Proof.
  intros Hk. cbn [translateMixinAttrs].
  assert (G : forall es attrs count,
             (forall k, In k (obj_keys es) -> startsWith "$" k = false) ->
             (fix loop (es : list (string * JsVal)) (attrs : JsObj) (count : nat) {struct es}
                : Res JsObj :=
                match es with
                | [] => Ok (if (count =? 0)%nat
                            then obj_set attrs (m +s+ "." +s+ "__mixin") (JStr "true") else attrs)
                | (k, v) :: es' =>
                    if startsWith "$" k
                    then match translateMixinAttrs m v with
                         | Ok sub => loop es' (obj_set attrs k (JObj sub)) (S count)
                         | Throw msg => Throw msg
                         end
                    else loop es' (obj_set attrs (m +s+ "." +s+ k) v) (S count)
                end) es attrs count
             = Ok (let r := fold_left (fun acc kv => obj_set acc ((m +s+ ".") +s+ fst kv) (snd kv)) es attrs in
                   if (count + List.length es =? 0)%nat
                   then obj_set r (m +s+ "." +s+ "__mixin") (JStr "true") else r)).
  { induction es as [|[k v] es IH]; intros attrs count Hes.
    - cbn. now rewrite Nat.add_0_r.
    - rewrite (Hes k) by (now left). rewrite IH by (intros; apply Hes; now right).
      cbn [fold_left fst snd List.length]. rewrite Nat.add_succ_r.
      now rewrite append_dot_assoc. }
  rewrite (G o [] 0%nat Hk). unfold prefixed. destruct o; reflexivity.
Qed.

Lemma get_path_two (X : JsObj) (m a : string) (sub : JsObj) :
  get_path (JObj X) [m] = Some (JObj sub) ->
  get_path (JObj X) [m; a] = if obj_has sub a then Some (obj_get sub a) else None.
Proof.
  cbn [get_path]. destruct (obj_has X m); [|discriminate].
  intros E. injection E as E. now rewrite E.
Qed.

Lemma plain_ref_spec (m : string) :
  plain_ref m = true ->
  indexOf "."%char m = None /\ m <> "modifiedBy" /\ m <> "modifiedOn" /\ m <> HASH.
Proof.
  unfold plain_ref. destruct (indexOf "."%char m); [discriminate|].
  rewrite negb_true_iff. cbn [existsb]. rewrite !orb_false_iff, !String.eqb_neq. tauto.
Qed.

(** The document after [$set] of one key under the mixin and of the two
    provenance fields. *)
Lemma mixin_set_applied (doc : JsObj) (m a : string) (v by_ on_ : JsVal) :
  plain_ref m = true -> indexOf "."%char a = None ->
  (obj_has doc m = false \/ exists sub, obj_get doc m = JObj sub) ->
  exists doc' sub',
    mongo_update doc [("$set", JObj [(m +s+ "." +s+ a, v); ("modifiedBy", by_); ("modifiedOn", on_)])]
      = Ok doc' /\
    get_path (JObj (stripHash1 doc')) [m] = Some (JObj sub') /\
    obj_get sub' a = v /\ obj_has sub' a = true.
Proof.
  intros Hm Ha Hdoc. destruct (plain_ref_spec m Hm) as [Hd [N1 [N2 N3]]].
  set (sub := match obj_get doc m with JObj s => if obj_has doc m then s else [] | _ => [] end).
  assert (S1 : set_path doc [m; a] v = Ok (obj_set doc m (JObj (obj_set sub a v)))).
  { cbn [set_path]. subst sub. destruct Hdoc as [Hn | [s Hs]].
    - rewrite Hn. cbn [bind]. destruct (obj_get doc m); reflexivity.
    - rewrite Hs. destruct (obj_has doc m); reflexivity. }
  exists (obj_set (obj_set (obj_set doc m (JObj (obj_set sub a v))) "modifiedBy" by_) "modifiedOn" on_),
    (obj_set sub a v).
  split.
  - cbn [mongo_update String.eqb Ascii.eqb Bool.eqb mongo_set].
    rewrite (path_of_mixin_key m a Hd Ha), S1. cbn [bind]. reflexivity.
  - split; [|split; [apply obj_get_set_same | apply obj_has_set_same]].
    set (d3 := obj_set (obj_set (obj_set doc m _) "modifiedBy" by_) "modifiedOn" on_).
    assert (G : obj_get d3 m = JObj (obj_set sub a v) /\ obj_has d3 m = true).
    { subst d3. rewrite !obj_get_set_other, !obj_has_set_other by congruence.
      now rewrite obj_get_set_same, obj_has_set_same. }
    destruct G as [G1 G2].
    assert (G' : obj_get (stripHash1 d3) m = JObj (obj_set sub a v) /\ obj_has (stripHash1 d3) m = true).
    { unfold stripHash1. destruct (obj_has d3 HASH); auto.
      rewrite obj_get_delete_other, obj_has_delete_other by congruence. auto. }
    destruct G' as [G3 G4]. cbn [get_path]. now rewrite G4, G3.
Qed.

(** A query without conditions and without class scoping returns the
    stored documents, less the digest field. *)
Lemma read_back_unscoped (clazz : string) (steps : list JsVal) (d : JsObj) :
  run [d] (findAll clazz [] (Some skip_class_options) steps) = Some [stripHash1 d].
Proof.
  unfold findAll. rewrite (translateQuery_unfold clazz [] _ [] [] [] eq_refl). reflexivity.
Qed.

(** One mixin-apply transaction with a flat patch, given to [tx] alone:
    [updateBulk] hands it to [txMixin], and the flush sends one batched
    write with one update of the document. *)
Lemma tx_flat_mixin (w : World) (dom : string) (t : Tx) (attrs : JsObj) :
  tx_class t = core_class_TxMixin ->
  isExtendsCUD core (tx_class t) = true ->
  findDomain h (objectClass t) = Some dom ->
  bulkOps w = [] ->
  isOperator core (attributes t) = false ->
  translateMixinAttrs (mixin t) (attributes t) = Ok attrs ->
  exists w',
    tx w [t] = Ok w' /\
    calls w' = calls w ++
      [BulkWrite dom [UpdateOne (id_filter (objectId t))
                        [("$set", JObj (obj_assign [] (obj_assign attrs (modifyOp t))))]]].
Proof.
  intros Hc Hcud Hdom Hw Hflat Hattrs.
  assert (U : updateBulk (emptyBulk, console w) t =
              Ok (coalesce emptyBulk (objectId t) (obj_assign attrs (modifyOp t)), console w)).
  { destruct t as [c oid ocl osp mby mon at_ ops mx rtr col inn]. cbn [tx_class] in Hc. subst c.
    cbn [updateBulk tx_class String.eqb Ascii.eqb Bool.eqb core_class_TxMixin core_class_TxCreateDoc
         core_class_TxCollectionCUD core_class_TxUpdateDoc core_class_TxRemoveDoc fst snd].
    unfold txMixin. cbn [attributes mixin objectId] in *. rewrite Hflat, Hattrs. reflexivity. }
  eexists. split.
  - unfold tx, groupByArray. cbn [fold_left group_add]. rewrite Hcud, Hdom.
    cbn [txDomains]. unfold txDomain. cbn [updateAll]. rewrite U. cbn [bind fst snd].
    cbn [coalesce emptyBulk update add bulkOperations findUpdate raw with_update map_get map_set
         bulk_is_empty List.length Nat.eqb andb Nat.ltb Nat.leb domainOps app map bind].
    reflexivity.
  - unfold pushBulk, _pushBulk.
    cbn [handleEvent with_console bulkOps calls]. rewrite Hw. reflexivity.
Qed.

(** C7. A mixin-apply transaction with the flat patch [{ a: v }], given to
    [tx], is sent as one batched write for the domain of the document, with
    one update that is a [$set] of the key [M.a]; applied to the stored
    document and read back with a query that has no lookup, the document
    has [v] at [M.a].  With an empty patch the update carries the marker
    [M.__mixin], so the stored document gets the object [M].  In a flat
    patch every key is put under the mixin. *)
Theorem mixin_round_trip (w : World) (dom : string) (t : Tx) (a : string) (v : JsVal)
  (doc : JsObj) (o : JsObj) (clazz : string) (steps : list JsVal) :
  tx_class t = core_class_TxMixin ->
  isExtendsCUD core (tx_class t) = true ->
  findDomain h (objectClass t) = Some dom ->
  bulkOps w = [] ->
  isOperator core (attributes t) = false ->
  plain_ref (mixin t) = true ->
  indexOf "."%char a = None -> startsWith "$" a = false ->
  (obj_has doc (mixin t) = false \/ exists sub, obj_get doc (mixin t) = JObj sub) ->
  (attributes t = JObj [(a, v)] ->
   exists w' upd doc' read sub,
     tx w [t] = Ok w' /\
     calls w' = calls w ++
       [BulkWrite dom [UpdateOne (id_filter (objectId t)) [("$set", JObj upd)]]] /\
     mongo_update doc [("$set", JObj upd)] = Ok doc' /\
     run [doc'] (findAll clazz [] (Some skip_class_options) steps) = Some [read] /\
     get_path (JObj read) [mixin t] = Some (JObj sub) /\
     obj_get sub a = v /\ obj_has sub a = true /\
     get_path (JObj read) [mixin t; a] = Some v) /\
  (attributes t = JObj [] ->
   exists w' upd doc' read sub,
     tx w [t] = Ok w' /\
     calls w' = calls w ++
       [BulkWrite dom [UpdateOne (id_filter (objectId t)) [("$set", JObj upd)]]] /\
     mongo_update doc [("$set", JObj upd)] = Ok doc' /\
     run [doc'] (findAll clazz [] (Some skip_class_options) steps) = Some [read] /\
     get_path (JObj read) [mixin t] = Some (JObj sub) /\
     obj_get sub "__mixin" = JStr "true") /\
  ((forall k, In k (obj_keys o) -> startsWith "$" k = false) -> o <> [] ->
   translateMixinAttrs (mixin t) (JObj o) = Ok (prefixed (mixin t +s+ ".") o)).
Proof.
  intros Hc Hcud Hdom Hw Hflat Hm Ha Hd Hdoc.
  assert (K : forall key val,
             indexOf "."%char key = None -> startsWith "$" key = false ->
             translateMixinAttrs (mixin t) (attributes t) = Ok [(mixin t +s+ "." +s+ key, val)] ->
             exists w' upd doc' sub,
               tx w [t] = Ok w' /\
               calls w' = calls w ++
                 [BulkWrite dom [UpdateOne (id_filter (objectId t)) [("$set", JObj upd)]]] /\
               mongo_update doc [("$set", JObj upd)] = Ok doc' /\
               get_path (JObj (stripHash1 doc')) [mixin t] = Some (JObj sub) /\
               obj_get sub key = val /\ obj_has sub key = true).
  { intros key val Hk1 Hk2 E.
    destruct (mixin_set_applied doc (mixin t) key val (JStr (modifiedBy t)) (JNum (modifiedOn t))
                Hm Hk1 Hdoc) as [doc' [sub' [M1 [M2 [M3 M4]]]]].
    destruct (tx_flat_mixin w dom t _ Hc Hcud Hdom Hw Hflat E) as [w' [T1 T2]].
    exists w', [(mixin t +s+ "." +s+ key, val); ("modifiedBy", JStr (modifiedBy t));
                ("modifiedOn", JNum (modifiedOn t))], doc', sub'.
    split; [exact T1|split; [|split; [exact M1|split; [exact M2|split; [exact M3 | exact M4]]]]].
    rewrite T2. unfold modifyOp.
    cbn [obj_assign fold_left fst snd obj_set].
    repeat (progress (cbn [fold_left fst snd obj_set String.eqb Ascii.eqb Bool.eqb];
                      rewrite ?(mixin_key_neq (mixin t) key) by reflexivity)).
    reflexivity. }
  split; [|split].
  - intros Hattrs.
    destruct (K a v Ha Hd) as [w' [upd [doc' [sub [K1 [K2 [K3 [K4 [K5 K6]]]]]]]]].
    { rewrite Hattrs, translateMixinAttrs_flat.
      - unfold prefixed. cbn [fold_left obj_set fst snd]. now rewrite append_dot_assoc.
      - cbn. intros k [<- | []]. exact Hd. }
    exists w', upd, doc', (stripHash1 doc'), sub.
    split; [exact K1|]. split; [exact K2|]. split; [exact K3|].
    split; [apply read_back_unscoped|]. split; [exact K4|]. split; [exact K5|].
    split; [exact K6|]. now rewrite (get_path_two _ _ a _ K4), K6, K5.
  - intros Hattrs.
    destruct (K "__mixin" (JStr "true") eq_refl eq_refl) as [w' [upd [doc' [sub [K1 [K2 [K3 [K4 [K5 K6]]]]]]]]].
    { rewrite Hattrs, translateMixinAttrs_flat; [reflexivity|]. cbn. tauto. }
    exists w', upd, doc', (stripHash1 doc'), sub.
    split; [exact K1|]. split; [exact K2|]. split; [exact K3|].
    split; [apply read_back_unscoped|]. split; [exact K4 | exact K5].
  - intros Hk Ho. rewrite translateMixinAttrs_flat by exact Hk. destruct o; [contradiction | reflexivity].
Qed.

(** *** Array moves *)

Lemma JsVal_eqb_refl : forall v : JsVal, JsVal_eqb v v = true.
Proof.
  fix IH 1. intros [| |b|n|s|l|o]; cbn [JsVal_eqb]; auto.
  - apply Bool.eqb_reflx.
  - apply Z.eqb_refl.
  - apply String.eqb_refl.
  - revert l. fix IHl 1. intros [|x l]; auto. rewrite IH. cbn [andb]. apply IHl.
  - revert o. fix IHo 1. intros [|[k x] o]; auto. rewrite String.eqb_refl, IH. cbn [andb]. apply IHo.
Qed.

Lemma occurrences_app (v : JsVal) (l1 l2 : list JsVal) :
  occurrences v (l1 ++ l2) = (occurrences v l1 + occurrences v l2)%nat.
Proof. unfold occurrences. now rewrite filter_app, length_app. Qed.

Lemma pull_value_removes (v : JsVal) (l : list JsVal) : occurrences v (pull_value l v) = 0%nat.
Proof.
  unfold occurrences, pull_value. induction l as [|x l IH]; cbn; auto.
  destruct (JsVal_eqb v x) eqn:E; cbn; auto. now rewrite E.
Qed.

Lemma push_each_adds (v : JsVal) (l : list JsVal) (p : Z) :
  exists l', push_each l [v] (JNum p) = Ok l' /\
             occurrences v l' = S (occurrences v l) /\
             pull_value l' v = pull_value l v.
Proof.
  unfold push_each. eexists. split; [reflexivity|].
  set (i := Z.to_nat _). split.
  - rewrite !occurrences_app. rewrite <- (firstn_skipn i l) at 3. rewrite occurrences_app.
    unfold occurrences at 2. cbn [filter]. rewrite JsVal_eqb_refl. cbn. lia.
  - unfold pull_value. rewrite !filter_app. cbn [filter]. rewrite JsVal_eqb_refl. cbn [negb app].
    rewrite <- filter_app, firstn_skipn. reflexivity.
Qed.

(** Pull, then push: the value is in the array exactly once, and the other
    elements keep their order. *)
Lemma move_exactly_once (v : JsVal) (l : list JsVal) (p : Z) :
  exists l', push_each (pull_value l v) [v] (JNum p) = Ok l' /\
             occurrences v l' = 1%nat /\
             pull_value l' v = pull_value l v.
Proof.
  destruct (push_each_adds v (pull_value l v) p) as [l' [E [H1 H2]]].
  exists l'. split; [exact E|]. rewrite H1, pull_value_removes. split; auto.
  rewrite H2. unfold pull_value. clear. induction l as [|x l IH]; cbn; auto.
  destruct (JsVal_eqb v x) eqn:E; cbn; auto. now rewrite E, IH.
Qed.

(** Push, then pull (the two operations the wrong way round): the value is
    gone. *)
Lemma move_out_of_order (v : JsVal) (l : list JsVal) (p : Z) :
  exists l', push_each l [v] (JNum p) = Ok l' /\ occurrences v (pull_value l' v) = 0%nat.
Proof.
  destruct (push_each_adds v l p) as [l' [E _]]. exists l'. split; auto. apply pull_value_removes.
Qed.

Lemma string_length_append (a b : string) :
  String.length (a +s+ b) = (String.length a + String.length b)%nat.
Proof. induction a; cbn; auto. Qed.

Lemma mixin_key_longer (m k : string) : String.eqb k (m +s+ "." +s+ k) = false.
Proof.
  apply String.eqb_neq. intros E. apply (f_equal String.length) in E.
  rewrite !string_length_append in E. cbn in E. lia.
Qed.

Lemma path_of_plain (k : string) : indexOf "."%char k = None -> path_of k = [k].
Proof. apply split_on_none. Qed.

Ltac js_steps :=
  repeat (progress cbn [js_keys js_entries bind obj_keys map fst snd first_key first_key_name
                        JsVal_eqb String.eqb Ascii.eqb Bool.eqb js_get obj_get]).

(** The two operations of an update-form move, applied in order to a
    document whose field is an array. *)
Lemma update_move_applied (t : Tx) (F : string) (d : JsObj) (v : JsVal) (p : Z)
  (doc : JsObj) (l : list JsVal) :
  isOperator core (operations t) = true ->
  operations t = JObj [("$move", JObj [(F, JObj d)])] ->
  obj_get d "$value" = v -> obj_get d "$position" = JNum p ->
  plain_ref F = true ->
  obj_has doc F = true -> obj_get doc F = JArr l ->
  exists b u1 u2 doc1 doc2 l',
    txUpdateDoc emptyBulk t = Ok b /\
    domainOps b = [UpdateOne (id_filter (objectId t)) u1; UpdateOne (id_filter (objectId t)) u2] /\
    obj_get u1 "$pull" = JObj [(F, v)] /\
    obj_get u2 "$push" = JObj [(F, JObj [("$each", JArr [v]); ("$position", JNum p)])] /\
    sets_digest_null u1 = true /\ sets_digest_null u2 = true /\
    mongo_update doc u1 = Ok doc1 /\ mongo_update doc1 u2 = Ok doc2 /\
    obj_get doc2 F = JArr l' /\ occurrences v l' = 1%nat /\ pull_value l' v = pull_value l v.
Proof.
  intros Hop Hops Hv Hp HF Hh Hg.
  destruct (plain_ref_spec F HF) as [Hd [N1 [N2 N3]]].
  destruct (move_exactly_once v l p) as [l' [E [O1 O2]]].
  eexists. exists [("$set", JObj [(HASH, JNull)]); ("$pull", JObj [(F, v)])].
  exists [("$set", JObj (modifyHashOp t));
          ("$push", JObj [(F, JObj [("$each", JArr [v]); ("$position", JNum p)])])].
  exists (obj_set (obj_set doc HASH JNull) F (JArr (pull_value l v))).
  exists (obj_set (obj_set (obj_set (obj_set (obj_set (obj_set doc HASH JNull) F (JArr (pull_value l v)))
                                       "modifiedBy" (JStr (modifiedBy t)))
                              "modifiedOn" (JNum (modifiedOn t))) HASH JNull) F (JArr l')).
  exists l'.
  split; [|split; [|split; [|split; [|split; [|split; [|split; [|split; [|split]]]]]]]].
  - unfold txUpdateDoc. rewrite Hop, Hops. js_steps.
    rewrite String.eqb_refl. js_steps. rewrite Hv, Hp. reflexivity.
  - reflexivity.
  - reflexivity.
  - reflexivity.
  - reflexivity.
  - reflexivity.
  - cbn [mongo_update String.eqb Ascii.eqb Bool.eqb mongo_set bind].
    change (path_of HASH) with [HASH]. cbn [set_path bind mongo_each_field].
    unfold mongo_pull_field. rewrite (path_of_plain F Hd). cbn [get_path].
    rewrite obj_has_set_other, Hh, obj_get_set_other, Hg by congruence.
    cbn [set_path bind]. reflexivity.
  - set (d1 := obj_set (obj_set doc HASH JNull) F (JArr (pull_value l v))).
    cbn [mongo_update String.eqb Ascii.eqb Bool.eqb mongo_set bind modifyHashOp].
    change (path_of "modifiedBy") with ["modifiedBy"]. change (path_of "modifiedOn") with ["modifiedOn"].
    change (path_of HASH) with [HASH]. cbn [set_path bind mongo_each_field].
    unfold mongo_push_field. cbn [obj_has obj_get String.eqb Ascii.eqb Bool.eqb orb bind].
    rewrite (path_of_plain F Hd). cbn [get_path].
    rewrite !obj_has_set_other, !obj_get_set_other by congruence.
    subst d1. rewrite obj_has_set_same, obj_get_set_same, E. cbn [bind set_path]. reflexivity.
  - apply obj_get_set_same.
  - split; assumption.
Qed.

(** C4. A mixin-apply transaction whose attributes are an array move
    [{ $move: { F: desc } }] is not translated into a pull and a push:
    [txMixin] looks the descriptor up under the key [mixin.F], finds
    [undefined] and throws when it reads its [$value], so no operation is
    emitted for the batch.  (The update form emits the two operations; see
    [update_move_applied].) *)
Theorem mixin_move_throws (b : OperationBulk) (t : Tx) (F : string) (desc : JsVal) :
  isOperator core (attributes t) = true ->
  attributes t = JObj [("$move", JObj [(F, desc)])] ->
  txMixin b t = Throw "TypeError: Cannot read properties of undefined (reading '$value')".
Proof.
  intros Hop Ha. unfold txMixin. rewrite Hop, Ha. js_steps.
  rewrite mixin_key_longer. reflexivity.
Qed.

(** *** The change-hash iterator *)




Lemma flush_force (it : FindIter) :
  bulkUpdate (flush it true) = [] /\
  writes (flush it true) = writes it ++ match bulkUpdate it with [] => [] | es => [es] end.
Proof.
  unfold flush. rewrite orb_true_r. destruct (bulkUpdate it) as [|e es]; cbn.
  - now rewrite app_nil_r.
  - auto.
Qed.



(** *** The digest text [hash|sizeHex] *)

Lemma hex_val_nth (k : nat) :
  (k < 16)%nat ->
  hex_val (nth k (list_ascii_of_string "0123456789abcdef") "0"%char) = Some (Z.of_nat k) /\
  is_hex_lower (nth k (list_ascii_of_string "0123456789abcdef") "0"%char) = true.
Proof.
  intros Hk. do 16 (destruct k as [|k]; [split; reflexivity|]). lia.
Qed.

Lemma hex_digit_val (d : N) :
  (d < 16)%N -> hex_val (hex_digit d) = Some (Z.of_N d) /\ is_hex_lower (hex_digit d) = true.
Proof.
  intros Hd. unfold hex_digit. destruct (hex_val_nth (N.to_nat d)) as [H1 H2]; [lia|].
  rewrite H1, H2, N_nat_Z. auto.
Qed.

Lemma parse_hex_cons (c : ascii) (s : string) (a : option Z) (d : Z) :
  hex_val c = Some d ->
  parse_hex_digits (String c s) a = parse_hex_digits s (Some (16 * acc_val a + d)%Z).
Proof. intros H. cbn [parse_hex_digits]. now rewrite H. Qed.

Lemma to_hex_step (fuel : nat) (n : N) (s : string) :
  to_hex_fuel (S fuel) n s =
    if (n / 16 =? 0)%N then String (hex_digit (n mod 16)) s
    else to_hex_fuel fuel (n / 16) (String (hex_digit (n mod 16)) s).
Proof. reflexivity. Qed.

(** Reading back the digits written for [n]. *)
Lemma to_hex_parse (fuel : nat) :
  forall (n : N) (s : string) (a : option Z),
    (n < 16 ^ N.of_nat (S fuel))%N ->
    exists k : nat,
      parse_hex_digits (to_hex_fuel (S fuel) n s) a =
        parse_hex_digits s (Some (acc_val a * 16 ^ Z.of_nat k + Z.of_N n)%Z).
Proof.
  assert (D : forall n : N, (n mod 16 < 16)%N) by (intros; apply N.mod_lt; discriminate).
  assert (One : forall (n : N) (s : string) (a : option Z),
             (n / 16 = 0)%N ->
             parse_hex_digits (String (hex_digit (n mod 16)) s) a =
               parse_hex_digits s (Some (acc_val a * 16 ^ Z.of_nat 1 + Z.of_N n)%Z)).
  { intros n s a Hq. destruct (hex_digit_val (n mod 16) (D n)) as [Hv _].
    rewrite (parse_hex_cons _ _ _ _ Hv). do 2 f_equal.
    assert (E' : (n mod 16 = n)%N).
    { apply N.mod_small. apply N.div_small_iff in Hq; [exact Hq | discriminate]. }
    rewrite E'. change (16 ^ Z.of_nat 1)%Z with 16%Z. lia. }
  induction fuel as [|fuel IH]; intros n s a Hn.
  - exists 1%nat. rewrite to_hex_step.
    assert (Hq : (n / 16 = 0)%N) by (apply N.div_small; exact Hn).
    rewrite Hq. cbn [N.eqb]. apply One. exact Hq.
  - rewrite to_hex_step. destruct (n / 16 =? 0)%N eqn:Hq.
    + apply N.eqb_eq in Hq. exists 1%nat. now apply One.
    + assert (Hn' : (n / 16 < 16 ^ N.of_nat (S fuel))%N).
      { apply N.Div0.div_lt_upper_bound.
        replace (N.of_nat (S (S fuel))) with (N.succ (N.of_nat (S fuel))) in Hn by lia.
        rewrite N.pow_succ_r' in Hn. exact Hn. }
      destruct (IH (n / 16)%N (String (hex_digit (n mod 16)) s) a Hn') as [k E].
      exists (S k). rewrite E.
      destruct (hex_digit_val (n mod 16) (D n)) as [Hv _].
      rewrite (parse_hex_cons _ _ _ _ Hv). do 2 f_equal. cbn [acc_val].
      rewrite Nat2Z.inj_succ, Z.pow_succ_r by lia.
      rewrite N2Z.inj_div, N2Z.inj_mod.
      pose proof (Z.div_mod (Z.of_N n) 16). change (Z.of_N 16) with 16%Z. lia.
Qed.

Lemma to_hex_all_hex (fuel : nat) :
  forall (n : N) (s : string), all_hex s = true -> all_hex (to_hex_fuel (S fuel) n s) = true.
Proof.
  assert (D : forall n : N, is_hex_lower (hex_digit (n mod 16)) = true).
  { intros n. apply hex_digit_val. apply N.mod_lt. discriminate. }
  induction fuel as [|fuel IH]; intros n s Hs; rewrite to_hex_step.
  - destruct (n / 16 =? 0)%N; cbn [to_hex_fuel all_hex]; now rewrite D, Hs.
  - destruct (n / 16 =? 0)%N.
    + cbn [all_hex]. now rewrite D, Hs.
    + apply IH. cbn [all_hex]. now rewrite D, Hs.
Qed.

Lemma to_hex_nonempty (fuel : nat) (n : N) (s : string) : to_hex_fuel (S fuel) n s <> "".
Proof.
  revert n s. induction fuel as [|fuel IH]; intros n s; rewrite to_hex_step.
  - destruct (n / 16 =? 0)%N; cbn [to_hex_fuel]; discriminate.
  - destruct (n / 16 =? 0)%N; [discriminate | apply IH].
Qed.

Lemma hex_lower_plain (c : ascii) :
  is_hex_lower c = true ->
  is_space c = false /\ Ascii.eqb c "-"%char = false /\ Ascii.eqb c "+"%char = false /\
  Ascii.eqb c "x"%char = false /\ Ascii.eqb c "X"%char = false.
Proof.
  destruct c as [[] [] [] [] [] [] [] []]; vm_compute; intros H; try discriminate H; auto.
Qed.

Lemma parseInt16_hex (s : string) :
  all_hex s = true -> s <> "" -> parseInt16 s = parse_hex_digits s None.
Proof.
  intros Hs Hne. destruct s as [|c s]; [contradiction|].
  cbn [all_hex] in Hs. apply andb_true_iff in Hs. destruct Hs as [Hc Hs].
  destruct (hex_lower_plain c Hc) as [H1 [H2 [H3 _]]].
  unfold parseInt16. cbn [skip_spaces]. rewrite H1, H2, H3.
  f_equal. unfold strip_0x. destruct s as [|x s]; auto.
  cbn [all_hex] in Hs. apply andb_true_iff in Hs. destruct Hs as [Hx _].
  destruct (hex_lower_plain x Hx) as [_ [_ [_ [H4 H5]]]]. rewrite H4, H5.
  now rewrite andb_false_r.
Qed.

(** [parseInt(n.toString(16), 16)] is [n] for a non-negative [n]. *)
Lemma parseInt16_toString16 (z : Z) : (0 <= z)%Z -> parseInt16 (toString16 z) = Some z.
Proof.
  intros Hz. unfold toString16. destruct (z <? 0)%Z eqn:E; [apply Z.ltb_lt in E; lia|].
  set (n := Z.to_N z). set (fuel := N.to_nat (N.size n)).
  rewrite parseInt16_hex by (try apply to_hex_all_hex; try apply to_hex_nonempty; reflexivity).
  assert (Hn : (n < 16 ^ N.of_nat (S fuel))%N).
  { subst fuel. rewrite Nat2N.inj_succ, N2Nat.id.
    apply N.lt_le_trans with (2 ^ N.size n)%N; [apply N.size_gt|].
    apply N.le_trans with (16 ^ N.size n)%N.
    - apply N.pow_le_mono_l. lia.
    - apply N.pow_le_mono_r; lia. }
  destruct (to_hex_parse fuel n "" None Hn) as [k Ek]. rewrite Ek. cbn [parse_hex_digits acc_val].
  subst n. rewrite Z2N.id by exact Hz. reflexivity.
Qed.

Lemma indexOf_bar (a b : string) :
  indexOf "|"%char a = None ->
  indexOf "|"%char (a +s+ String "|"%char b) = Some (String.length a).
Proof.
  induction a as [|c a IH]; cbn [String.append indexOf String.length].
  - intros _. now rewrite Ascii.eqb_refl.
  - destruct (Ascii.eqb c "|"%char); [discriminate|].
    destruct (indexOf "|"%char a); [discriminate|]. intros _. now rewrite IH.
Qed.

Lemma substring_all (s : string) : substring 0 (String.length s) s = s.
Proof. induction s as [|c s IH]; cbn; congruence. Qed.

Lemma substring_prefix (a b : string) : substring 0 (String.length a) (a +s+ b) = a.
Proof.
  induction a as [|c a IH]; cbn [String.append String.length substring].
  - destruct b; reflexivity.
  - now rewrite IH.
Qed.

Lemma substring_suffix (a b : string) (c : ascii) :
  substring (S (String.length a)) (String.length b) (a +s+ String c b) = b.
Proof.
  induction a as [|x a IH]; cbn [String.append String.length substring].
  - apply substring_all.
  - exact IH.
Qed.

(** The entry written back for a document reads back as the record that
    was yielded for it. *)
Lemma digest_entry_round_trip (hash : string) (size : Z) :
  indexOf "|"%char hash = None -> (0 <= size)%Z ->
  slice_before_bar (hash +s+ "|" +s+ toString16 size) = hash /\
  parseInt16 (slice_after_bar (hash +s+ "|" +s+ toString16 size)) = Some size.
Proof.
  intros Hh Hs. unfold slice_before_bar, slice_after_bar. cbn [String.append].
  rewrite (indexOf_bar hash (toString16 size) Hh). split.
  - apply substring_prefix.
  - replace (String.length (hash +s+ String "|"%char (toString16 size)) - S (String.length hash))%nat
      with (String.length (toString16 size)).
    + rewrite substring_suffix. now apply parseInt16_toString16.
    + rewrite string_length_append. cbn [String.length]. lia.
Qed.


(** *** [$like] patterns *)

Lemma split_on_nonempty (sep : ascii) (s : string) : split_on sep s <> [].
Proof.
  destruct s as [|c s]; cbn; [discriminate|].
  destruct (Ascii.eqb c sep); [discriminate|]. destruct (split_on sep s); discriminate.
Qed.

Lemma join_cons (sep a : string) (l : list string) :
  l <> [] -> join sep (a :: l) = a +s+ sep +s+ join sep l.
Proof. destruct l; [contradiction | reflexivity]. Qed.

Lemma append_assoc (a b c : string) : (a +s+ b) +s+ c = a +s+ b +s+ c.
Proof. induction a as [|x a IH]; cbn [String.append]; [reflexivity | f_equal; exact IH]. Qed.

Lemma join_head (sep a b : string) (l : list string) :
  join sep ((a +s+ b) :: l) = a +s+ join sep (b :: l).
Proof. destruct l; cbn [join]; [reflexivity | apply append_assoc]. Qed.

Lemma escapeLike_cons (c : ascii) (s : string) :
  escapeLike (String c s) =
    (if like_escaped c then String "\"%char (String c EmptyString) else String c EmptyString)
    +s+ escapeLike s.
Proof. cbn [escapeLike]. destruct (like_escaped c); reflexivity. Qed.

(** Splitting at [%], escaping the segments and joining them with [.*]
    rewrites the pattern character by character. *)
Lemma like_body_join (pattern : string) :
  join ".*" (map escapeLike (split_on "%"%char pattern)) = like_body pattern.
Proof.
  induction pattern as [|c p IH]; [reflexivity|].
  cbn [split_on like_body]. unfold like_piece.
  destruct (Ascii.eqb c "%"%char) eqn:E.
  - cbn [map]. rewrite join_cons.
    + cbn [escapeLike String.append]. now rewrite IH.
    + intros H. apply map_eq_nil in H. now apply split_on_nonempty in H.
  - destruct (split_on "%"%char p) as [|seg segs] eqn:S; [now apply split_on_nonempty in S|].
    cbn [map] in *. rewrite escapeLike_cons, join_head, IH. reflexivity.
Qed.

Lemma escaped_not_alnum (c : ascii) : like_escaped c = true -> is_alnum c = false.
Proof.
  destruct c as [[] [] [] [] [] [] [] []]; vm_compute; intros H; try reflexivity; discriminate H.
Qed.

Lemma unescaped_plain (c : ascii) :
  like_escaped c = false ->
  Ascii.eqb c "\"%char = false /\ Ascii.eqb c "."%char = false /\ Ascii.eqb c "^"%char = false /\
  Ascii.eqb c "$"%char = false /\ regex_special c = false.
Proof.
  destruct c as [[] [] [] [] [] [] [] []]; vm_compute; intros H; try discriminate H; auto.
Qed.

(** The compiled text is read by the engine as one token for each
    character of the pattern: [.*] for [%], the character itself otherwise. *)
Lemma lex_like_body (pattern rest : string) (ts : list rtok) :
  lex rest = Some ts ->
  lex (like_body pattern +s+ rest) = Some (map like_tok (list_ascii_of_string pattern) ++ ts).
Proof.
  intros Hr. induction pattern as [|c p IH]; [exact Hr|].
  cbn [like_body list_ascii_of_string map app]. rewrite append_assoc.
  unfold like_piece. unfold like_tok at 1. destruct (Ascii.eqb c "%"%char) eqn:E.
  - cbn [String.append lex Ascii.eqb Bool.eqb]. cbn. now rewrite IH.
  - destruct (like_escaped c) eqn:L.
    + cbn [String.append]. cbn [lex]. rewrite Ascii.eqb_refl, (escaped_not_alnum c L), IH. reflexivity.
    + destruct (unescaped_plain c L) as [H1 [H2 [H3 [H4 H5]]]].
      cbn [String.append]. cbn [lex]. rewrite H1, H2, H3, H4, H5, IH. reflexivity.
Qed.

Lemma search_from_begin (ci dotall : bool) (ts : list rtok) (s : string) :
  search_from ci dotall (TBegin :: ts) s false = false.
Proof. induction s as [|c s IH]; cbn; auto. Qed.

Lemma search_anchored (ci dotall : bool) (ts : list rtok) (s : string) :
  search_from ci dotall (TBegin :: ts) s true = match_here ci dotall ts s true.
Proof.
  destruct s as [|c s]; cbn [search_from match_here andb].
  - apply orb_false_r.
  - now rewrite search_from_begin, orb_false_r.
Qed.

Lemma match_star_unfold (ci dotall : bool) (ts : list rtok) (s : string) (b : bool) :
  match_here ci dotall (TAnyStar :: ts) s b =
    match_here ci dotall ts s b ||
    match s with
    | String d s' => (dotall || negb (is_newline d)) && match_here ci dotall (TAnyStar :: ts) s' false
    | EmptyString => false
    end.
Proof. destruct s; reflexivity. Qed.

Lemma like_any_unfold (p s : string) :
  like_match (String "%"%char p) s =
    like_match p s ||
    match s with
    | String _ s' => like_match (String "%"%char p) s'
    | EmptyString => false
    end.
Proof. destruct s; reflexivity. Qed.

(** On a subject without a line feed the engine accepts exactly what the
    pattern means. *)
Lemma match_like (pattern : string) :
  forall (subject : string) (at_start : bool),
    no_newline subject = true ->
    match_here true false (map like_tok (list_ascii_of_string pattern) ++ [TEnd]) subject at_start
    = like_match pattern subject.
Proof.
  induction pattern as [|c p IH]; intros s b Hs.
  - cbn. destruct s as [|d [|e s]]; cbn in *; auto.
    apply andb_true_iff in Hs. destruct Hs as [Hd _]. apply negb_true_iff in Hd. now rewrite Hd.
  - cbn [list_ascii_of_string map app]. unfold like_tok at 1.
    destruct (Ascii.eqb c "%"%char) eqn:E.
    + apply Ascii.eqb_eq in E. subst c. revert b. induction s as [|d s IHs]; intros b.
      * rewrite match_star_unfold, like_any_unfold, (IH "" b Hs). reflexivity.
      * pose proof Hs as Hs0. cbn [no_newline] in Hs. apply andb_true_iff in Hs.
        destruct Hs as [Hd Hs'].
        rewrite match_star_unfold, like_any_unfold, (IH (String d s) b Hs0).
        rewrite Hd. cbn [orb andb]. now rewrite (IHs Hs' false).
    + cbn [match_here like_match]. rewrite E. destruct s as [|d s]; auto.
      cbn [no_newline] in Hs. apply andb_true_iff in Hs. destruct Hs as [_ Hs'].
      now rewrite (IH s false Hs').
Qed.

Lemma translateLikeQuery_regex (pattern : string) :
  (forall s, escapeLikeForRegexp core s = escapeLike s) ->
  translateLikeQuery pattern =
    JObj [("$regex", JStr ("^" +s+ like_body pattern +s+ "$")); ("$options", JStr "i")].
Proof.
  intros Hesc. unfold translateLikeQuery.
  rewrite (map_ext _ _ Hesc), like_body_join. reflexivity.
Qed.

Lemma like_regex_matches (pattern subject : string) :
  no_newline subject = true ->
  regex_matches ("^" +s+ like_body pattern +s+ "$") "i" subject = Some (like_match pattern subject).
Proof.
  intros Hs. unfold regex_matches.
  change (only_flags "is" "i") with true. change (includes "i" "i") with true.
  change (includes "s" "i") with false. cbv iota.
  cbn [String.append lex Ascii.eqb Bool.eqb].
  rewrite (lex_like_body pattern "$" [TEnd] eq_refl).
  now rewrite search_anchored, match_like.
Qed.

(** C8 (as the code has it). The compiled pattern is a [^]...[$] regular
    expression with the option [i]; each [%] of the pattern is compiled to
    [.*] and every other character to itself, escaped when it is a
    metacharacter; on a subject that has no line feed it matches exactly
    when the pattern does, with [%] standing for any sequence of
    characters.  The pattern [te%st] matches [test] and [teXXXst] and not
    [Xtest]. *)
Theorem like_pattern_compiled (pattern subject : string) :
  (forall s, escapeLikeForRegexp core s = escapeLike s) ->
  no_newline subject = true ->
  exists regex,
    translateLikeQuery pattern = JObj [("$regex", JStr regex); ("$options", JStr "i")] /\
    regex = "^" +s+ like_body pattern +s+ "$" /\
    lex regex = Some (TBegin :: map like_tok (list_ascii_of_string pattern) ++ [TEnd]) /\
    regex_matches regex "i" subject = Some (like_match pattern subject) /\
    (pattern = "te%st" ->
     regex_matches regex "i" "test" = Some true /\
     regex_matches regex "i" "teXXXst" = Some true /\
     regex_matches regex "i" "Xtest" = Some false).
Proof.
  intros Hesc Hs. exists ("^" +s+ like_body pattern +s+ "$").
  split; [now apply translateLikeQuery_regex|]. split; [reflexivity|]. split; [|split].
  - cbn [String.append lex Ascii.eqb Bool.eqb].
    now rewrite (lex_like_body pattern "$" [TEnd] eq_refl).
  - now apply like_regex_matches.
  - intros ->. repeat split; reflexivity.
Qed.

(** *** The order of the model transactions *)

Lemma getModel_eq (model : list Tx) :
  getModel model =
    filter is_system_tx model ++ filter (fun t => negb (is_system_tx t)) model.
Proof.
  unfold getModel.
  assert (G : forall l a b,
             fold_left (fun st tx =>
                          if is_system_tx tx then (fst st ++ [tx], snd st)
                          else (fst st, snd st ++ [tx])) l (a, b) =
             (a ++ filter is_system_tx l, b ++ filter (fun t => negb (is_system_tx t)) l)).
  { induction l as [|t l IH]; intros a b; cbn [fold_left filter].
    - now rewrite !app_nil_r.
    - destruct (is_system_tx t); cbn [fst snd negb]; rewrite IH, <- app_assoc; reflexivity. }
  rewrite G. reflexivity.
Qed.

Lemma filter_split_perm (A : Type) (f : A -> bool) (l : list A) :
  Permutation (filter f l ++ filter (fun x => negb (f x)) l) l.
Proof.
  induction l as [|a l IH]; cbn [filter]; [constructor|].
  destruct (f a); cbn [negb app].
  - now constructor.
  - symmetry. apply Permutation_cons_app. now symmetry.
Qed.

Lemma filter_filter_same (A : Type) (f : A -> bool) (l : list A) :
  filter f (filter f l) = filter f l.
Proof.
  induction l as [|a l IH]; cbn [filter]; auto.
  destruct (f a) eqn:E; cbn [filter]; rewrite ?E, IH; reflexivity.
Qed.

Lemma filter_filter_neg (A : Type) (f : A -> bool) (l : list A) :
  filter f (filter (fun x => negb (f x)) l) = [] /\
  filter (fun x => negb (f x)) (filter f l) = [].
Proof.
  induction l as [|a l [IH1 IH2]]; cbn [filter]; auto.
  destruct (f a) eqn:E; cbn [negb filter]; rewrite ?E; cbn [negb]; auto.
Qed.

Lemma nth_error_filter (A : Type) (f : A -> bool) (l : list A) (i : nat) (a : A) :
  nth_error (filter f l) i = Some a -> f a = true.
Proof.
  intros H. apply nth_error_In in H. apply filter_In in H. tauto.
Qed.

(** X1. [getModel] returns every transaction the cursor gave, exactly
    once: those made by the system account that are not about a person
    account come first, the others after them, and inside each of the two
    groups the order of the cursor is kept. *)
Theorem getModel_system_first (model : list Tx) :
  Permutation (getModel model) model /\
  filter is_system_tx (getModel model) = filter is_system_tx model /\
  filter (fun t => negb (is_system_tx t)) (getModel model) =
    filter (fun t => negb (is_system_tx t)) model /\
  (forall i j a b,
     nth_error (getModel model) i = Some a -> nth_error (getModel model) j = Some b ->
     is_system_tx a = true -> is_system_tx b = false -> i < j).
Proof.
  rewrite getModel_eq. repeat split.
  - apply filter_split_perm.
  - rewrite filter_app, filter_filter_same.
    rewrite (proj1 (filter_filter_neg Tx is_system_tx model)). apply app_nil_r.
  - rewrite filter_app, filter_filter_same.
    rewrite (proj2 (filter_filter_neg Tx is_system_tx model)). reflexivity.
  - intros i j a b Hi Hj Ha Hb.
    set (S := filter is_system_tx model) in *.
    set (U := filter (fun t => negb (is_system_tx t)) model) in *.
    assert (Li : i < List.length S).
    { destruct (Nat.lt_ge_cases i (List.length S)) as [L|L]; [exact L|].
      rewrite nth_error_app2 in Hi by exact L.
      apply nth_error_filter in Hi. rewrite Ha in Hi. discriminate. }
    assert (Lj : List.length S <= j).
    { destruct (Nat.lt_ge_cases j (List.length S)) as [L|L]; [|exact L].
      rewrite nth_error_app1 in Hj by exact L.
      apply nth_error_filter in Hj. rewrite Hb in Hj. discriminate. }
    lia.
Qed.

(** *** The parts of a bulk write *)

Lemma parts_of_concat (A : Type) (n : nat) :
  0 < n -> forall fuel (l : list A), List.length l <= fuel -> concat (parts_of fuel n l) = l.
Proof.
  intros Hn. induction fuel as [|fuel IH]; intros l Hl.
  - destruct l; [reflexivity|cbn in Hl; lia].
  - destruct l as [|a l]; [reflexivity|].
    cbn [parts_of concat]. rewrite IH.
    + apply firstn_skipn.
    + rewrite length_skipn. cbn [List.length] in *. lia.
Qed.

Lemma parts_of_sizes (A : Type) (n : nat) :
  0 < n -> forall fuel (l : list A),
    Forall (fun p => 0 < List.length p <= n) (parts_of fuel n l) /\
    (forall pre last, parts_of fuel n l = pre ++ [last] ->
       Forall (fun p => List.length p = n) pre).
Proof.
  intros Hn. induction fuel as [|fuel IH]; intros l.
  - cbn. split; [constructor|]. intros pre last E. destruct pre; discriminate.
  - destruct l as [|a l].
    + cbn. split; [constructor|]. intros pre last E. destruct pre; discriminate.
    + cbn [parts_of]. destruct (IH (skipn n (a :: l))) as [F1 F2]. split.
      * constructor; [|exact F1]. rewrite length_firstn. cbn [List.length]. lia.
      * intros pre last E. destruct pre as [|p pre]; [constructor|].
        cbn [app] in E. injection E as E1 E2. subst p. constructor.
        -- rewrite length_firstn. apply Nat.min_l.
           destruct (Nat.le_gt_cases n (List.length (a :: l))) as [L|L]; [exact L|].
           rewrite skipn_all2 in E2 by lia.
           destruct fuel; cbn in E2; destruct pre; discriminate.
        -- exact (F2 pre last E2).
Qed.

(** X2. [uploadDocuments] writes every document exactly once and in the
    order given: the calls of [bulkWrite], laid end to end, are the upserts
    of the documents; no call is empty or has more than 500 operations, and
    every call but the last has exactly 500. *)
Theorem uploadDocuments_parts (docs : list JsObj) :
  concat (uploadDocuments docs) = map uploadOp docs /\
  Forall (fun call => 0 < List.length call <= 500) (uploadDocuments docs) /\
  (forall pre last, uploadDocuments docs = pre ++ [last] ->
     Forall (fun call => List.length call = 500) pre).
Proof.
  unfold uploadDocuments. repeat split.
  - rewrite <- concat_map. f_equal. apply parts_of_concat; [lia|apply Nat.le_refl].
  - apply Forall_map.
    refine (Forall_impl _ _ (proj1 (parts_of_sizes JsObj 500 ltac:(lia) _ docs))).
    intros p Hp. rewrite length_map. exact Hp.
  - intros pre last E.
    apply (f_equal (map (@List.length BulkOp))) in E.
    rewrite map_map, map_app in E. cbn [map] in E.
    destruct (parts_of_sizes JsObj 500 ltac:(lia) (List.length docs) docs) as [_ F].
    assert (M : forall (ps : list (list JsObj)) (pre : list (list BulkOp)) x,
               map (fun p => List.length (map uploadOp p)) ps = map (@List.length BulkOp) pre ++ [x] ->
               exists ps' q, ps = ps' ++ [q] /\ map (@List.length JsObj) ps' = map (@List.length BulkOp) pre).
    { clear. intros ps pre0 x. revert pre0. induction ps as [|p ps IH]; intros pre0 E.
      - destruct pre0; discriminate.
      - destruct pre0 as [|c pre0].
        + cbn in E. injection E as _ E. destruct ps; [|discriminate].
          exists [], p. split; reflexivity.
        + cbn [map app] in E. injection E as E1 E2.
          destruct (IH pre0 E2) as [ps' [q [-> Hq]]].
          exists (p :: ps'), q. split; [reflexivity|].
          cbn [map]. rewrite length_map in E1. now rewrite E1, Hq. }
    destruct (M _ _ _ E) as [ps' [q [Eq Hl]]].
    specialize (F ps' q Eq).
    apply Forall_forall. intros c Hc.
    assert (In (List.length c) (map (@List.length BulkOp) pre)) as Hin by (apply in_map; exact Hc).
    rewrite <- Hl in Hin. apply in_map_iff in Hin. destruct Hin as [p [Hp Hin]].
    rewrite Forall_forall in F. rewrite <- Hp. apply F. exact Hin.
Qed.

(** *** [update]: keys both set and unset *)

Lemma unset_fold_ok (ks : list string) (u : JsObj) :
  fold_left (fun acc k =>
               u <- acc ;;
               x <- js_get u k ;;
               if JsVal_eqb x (JStr "")
               then match u with JObj o => Ok (JObj (obj_delete o k)) | _ => Ok u end
               else Ok u) ks (Ok (JObj u)) =
  Ok (JObj (fold_left (fun o k => if JsVal_eqb (obj_get o k) (JStr "") then obj_delete o k else o)
                      ks u)).
Proof.
  revert u. induction ks as [|k ks IH]; intros u; cbn [fold_left]; [reflexivity|].
  cbn [bind js_get]. destruct (JsVal_eqb (obj_get u k) (JStr "")); apply IH.
Qed.

Lemma unset_fold_spec (ks : list string) (u : JsObj) (k : string) :
  let u' := fold_left (fun o k => if JsVal_eqb (obj_get o k) (JStr "") then obj_delete o k else o)
                      ks u in
  if existsb (String.eqb k) ks && JsVal_eqb (obj_get u k) (JStr "")
  then obj_has u' k = false
  else obj_has u' k = obj_has u k /\ obj_get u' k = obj_get u k.
Proof.
  revert u. induction ks as [|k0 ks IH]; intros u; cbn [fold_left existsb].
  - cbn. auto.
  - set (u1 := if JsVal_eqb (obj_get u k0) (JStr "") then obj_delete u k0 else u).
    specialize (IH u1). cbn zeta in IH.
    destruct (String.eqb k k0) eqn:E.
    + apply String.eqb_eq in E. subst k0. cbn [orb].
      destruct (JsVal_eqb (obj_get u k) (JStr "")) eqn:Eu.
      * cbn [andb]. subst u1.
        assert (Hh : obj_has (obj_delete u k) k = false) by apply obj_has_delete_same.
        assert (Hg : obj_get (obj_delete u k) k = JUndef).
        { clear -Hh. induction (obj_delete u k) as [|[a b] o IHo]; [reflexivity|].
          cbn in *. destruct (String.eqb a k); [discriminate|]. apply IHo. exact Hh. }
        rewrite Hg in IH. cbn [JsVal_eqb] in IH. rewrite andb_false_r in IH.
        destruct IH as [IH _]. now rewrite IH.
      * rewrite andb_false_r. subst u1. rewrite Eu in IH. rewrite andb_false_r in IH. exact IH.
    + cbn [orb]. apply String.eqb_neq in E.
      assert (Hg : obj_get u1 k = obj_get u k).
      { subst u1. destruct (JsVal_eqb (obj_get u k0) (JStr "")); [|reflexivity].
        apply obj_get_delete_other. congruence. }
      assert (Hh : obj_has u1 k = obj_has u k).
      { subst u1. destruct (JsVal_eqb (obj_get u k0) (JStr "")); [|reflexivity].
        apply obj_has_delete_other. congruence. }
      rewrite Hg, Hh in IH. exact IH.
Qed.

Lemma existsb_keys_has (o : JsObj) (k : string) :
  existsb (String.eqb k) (obj_keys o) = obj_has o k.
Proof.
  unfold obj_keys. induction o as [|[a b] o IH]; [reflexivity|].
  cbn [map existsb obj_has fst]. rewrite IH. f_equal. apply String.eqb_sym.
Qed.

(** X3. In [update], an entry's [$unset] object loses exactly the keys
    that the entry also sets and that it lists with the empty string; every
    other key of [$unset] is passed on unchanged, next to the [$set] of the
    entry's fields and the null digest. *)
Theorem update_unset_conflicts (id : string) (es u : JsObj) :
  obj_get es "$unset" = JObj u ->
  let set := obj_delete (obj_assign [] es) "$unset" in
  exists u',
    updateOp (id, JObj es) =
      Ok (UpdateOne (id_filter id)
            [("$set", JObj (obj_set set HASH JNull)); ("$unset", JObj u')]) /\
    forall k,
      if obj_has set k && JsVal_eqb (obj_get u k) (JStr "")
      then obj_has u' k = false
      else obj_has u' k = obj_has u k /\ obj_get u' k = obj_get u k.
Proof.
  intros Hu set.
  exists (fold_left (fun o k => if JsVal_eqb (obj_get o k) (JStr "") then obj_delete o k else o)
                    (obj_keys set) u).
  split.
  - unfold updateOp. cbn [snd fst js_entries bind]. rewrite Hu. cbn [is_undefined].
    fold set. rewrite unset_fold_ok. cbn [bind is_undefined]. reflexivity.
  - intros k. pose proof (unset_fold_spec (obj_keys set) u k) as S. cbn zeta in S.
    rewrite existsb_keys_has in S. exact S.
Qed.

(** *** [update]: the retry after a failed write *)

Lemma update_loop_single (bulkWrite : nat -> list BulkOp -> bool) (ops : list (string * JsVal)) :
  forall fuel log, List.length ops <= fuel ->
    exists log', update_loop bulkWrite fuel ops 1 log = (log ++ log', []) /\
      (forall e, In e ops -> exists a, In a log' /\ att_part a = [e]) /\
      (forall a, In a log' -> exists e, In e ops /\ att_part a = [e]).
Proof.
  induction ops as [|e ops IH]; intros fuel log Hl.
  - exists []. rewrite app_nil_r. split; [destruct fuel; reflexivity|].
    split; [intros e []|intros a []].
  - destruct fuel as [|fuel]; [cbn in Hl; lia|].
    cbn [update_loop firstn skipn Nat.eqb negb].
    set (ok := match all_ok (map updateOp [e]) with Ok bops => bulkWrite (List.length log) bops | Throw _ => false end).
    destruct (IH fuel (log ++ [{| att_part := [e]; att_ok := ok |}])) as [log' [E [C1 C2]]];
      [cbn in Hl; lia|].
    exists ({| att_part := [e]; att_ok := ok |} :: log').
    split; [|split].
    + destruct ok; rewrite E, <- app_assoc; reflexivity.
    + intros e' [<-|Hin].
      * eexists. split; [left; reflexivity|reflexivity].
      * destruct (C1 e' Hin) as [a [Ha Hp]]. exists a. split; [right; exact Ha|exact Hp].
    + intros a [<-|Hin].
      * exists e. split; [left; reflexivity|reflexivity].
      * destruct (C2 a Hin) as [e' [He Hp]]. exists e'. split; [right; exact He|exact Hp].
Qed.

Lemma update_loop_covers (bulkWrite : nat -> list BulkOp -> bool) (skip : nat) :
  0 < skip ->
  forall n ops fuel log, List.length ops <= n -> 2 * n < fuel ->
    exists log', update_loop bulkWrite fuel ops skip log = (log ++ log', []) /\
      (forall e, In e ops ->
         exists a, In a log' /\ In e (att_part a) /\ (att_ok a = true \/ att_part a = [e])) /\
      (forall a, In a log' ->
         att_part a <> [] /\ List.length (att_part a) <= skip /\ incl (att_part a) ops).
Proof.
  intros Hs. induction n as [|n IH]; intros ops fuel log Hl Hf.
  - destruct ops; [|cbn in Hl; lia]. exists []. rewrite app_nil_r.
    split; [destruct fuel; reflexivity|]. split; [intros e []|intros a []].
  - destruct fuel as [|fuel]; [lia|].
    destruct ops as [|e0 ops0] eqn:Eops.
    { exists []. rewrite app_nil_r. split; [reflexivity|]. split; [intros e []|intros a []]. }
    rewrite <- Eops in *.
    assert (Hne : ops <> []) by (rewrite Eops; discriminate).
    assert (Hsplit : firstn skip ops ++ skipn skip ops = ops) by apply firstn_skipn.
    assert (Hpart : firstn skip ops <> []).
    { rewrite Eops. destruct skip; [lia|]. cbn. discriminate. }
    assert (Hplen : List.length (firstn skip ops) <= skip).
    { rewrite length_firstn. lia. }
    assert (Hrest : List.length (skipn skip ops) <= n).
    { rewrite length_skipn. rewrite Eops in *. cbn [List.length] in *. lia. }
    set (part := firstn skip ops) in *. set (rest := skipn skip ops) in *.
    set (ok := match all_ok (map updateOp part) with Ok bops => bulkWrite (List.length log) bops | Throw _ => false end).
    assert (Estep : update_loop bulkWrite (S fuel) ops skip log =
                    let log1 := log ++ [{| att_part := part; att_ok := ok |}] in
                    if ok then update_loop bulkWrite fuel rest skip log1
                    else if negb (skip =? 1)%nat then update_loop bulkWrite fuel (rest ++ part) 1 log1
                         else update_loop bulkWrite fuel rest skip log1).
    { subst part rest ok. rewrite Eops. reflexivity. }
    rewrite Estep. cbn zeta. clear Estep.
    set (a0 := {| att_part := part; att_ok := ok |}).
    assert (Hincl : incl part ops).
    { intros x Hx. rewrite <- Hsplit. apply in_or_app. left. exact Hx. }
    destruct ok eqn:Eok.
    + destruct (IH rest fuel (log ++ [a0]) Hrest ltac:(lia)) as [log' [E [C1 C2]]].
      exists (a0 :: log'). split; [rewrite E, <- app_assoc; reflexivity|]. split.
      * intros e He. rewrite <- Hsplit in He. apply in_app_or in He. destruct He as [He|He].
        -- exists a0. split; [left; reflexivity|]. split; [exact He|left; reflexivity].
        -- destruct (C1 e He) as [a [Ha Hp]]. exists a. split; [right; exact Ha|exact Hp].
      * intros a [<-|Ha].
        -- cbn [att_part a0]. auto.
        -- destruct (C2 a Ha) as [N [L I]]. split; [exact N|]. split; [exact L|].
           intros x Hx. rewrite <- Hsplit. apply in_or_app. right. apply I. exact Hx.
    + destruct (skip =? 1)%nat eqn:E1; cbn [negb].
      * apply Nat.eqb_eq in E1. subst skip.
        destruct (update_loop_single bulkWrite rest fuel (log ++ [a0])) as [log' [E [C1 C2]]];
          [lia|].
        exists (a0 :: log'). split; [rewrite E, <- app_assoc; reflexivity|]. split.
        -- intros e He. rewrite <- Hsplit in He. apply in_app_or in He. destruct He as [He|He].
           ++ exists a0. split; [left; reflexivity|]. split; [exact He|right].
              cbn [att_part a0]. subst part. rewrite Eops in *. cbn in He |- *.
              destruct He as [->|[]]. reflexivity.
           ++ destruct (C1 e He) as [a [Ha Hp]]. exists a. split; [right; exact Ha|].
              rewrite Hp. split; [left; reflexivity|right; reflexivity].
        -- intros a [<-|Ha].
           ++ cbn [att_part a0]. auto.
           ++ destruct (C2 a Ha) as [e [He Hp]]. rewrite Hp. split; [discriminate|].
              split; [cbn; lia|]. intros x [<-|[]]. rewrite <- Hsplit. apply in_or_app. now right.
      * destruct (update_loop_single bulkWrite (rest ++ part) fuel (log ++ [a0])) as [log' [E [C1 C2]]].
        { rewrite length_app. rewrite <- Hsplit in Hl. rewrite length_app in Hl. lia. }
        exists (a0 :: log'). split; [rewrite E, <- app_assoc; reflexivity|]. split.
        -- intros e He. destruct (C1 e) as [a [Ha Hp]].
           { rewrite <- Hsplit in He. apply in_or_app. apply in_app_or in He. tauto. }
           exists a. split; [right; exact Ha|]. rewrite Hp.
           split; [left; reflexivity|right; reflexivity].
        -- intros a [<-|Ha].
           ++ cbn [att_part a0]. auto.
           ++ destruct (C2 a Ha) as [e [He Hp]]. rewrite Hp. split; [discriminate|].
              split; [cbn; lia|]. intros x [<-|[]]. rewrite <- Hsplit.
              apply in_or_app. apply in_app_or in He. tauto.
Qed.

(** X4. [update] always ends with no entry left to write, whatever the
    database answers.  Every entry of the map is written in a call that
    succeeded, or was tried in a call of its own: after the first failed
    call the entries are written one by one, so a failure loses one entry
    only.  No call is empty or has more than 500 entries. *)
Theorem update_retry_covers (bulkWrite : nat -> list BulkOp -> bool)
  (operations : list (string * JsVal)) :
  snd (update_entries bulkWrite operations) = [] /\
  (forall e, In e operations ->
     exists a, In a (fst (update_entries bulkWrite operations)) /\ In e (att_part a) /\
       (att_ok a = true \/ att_part a = [e])) /\
  (forall a, In a (fst (update_entries bulkWrite operations)) ->
     att_part a <> [] /\ List.length (att_part a) <= 500 /\ incl (att_part a) operations).
Proof.
  unfold update_entries.
  destruct (update_loop_covers bulkWrite 500 ltac:(lia) (List.length operations) operations
              (2 * List.length operations + 1) [] (Nat.le_refl _) ltac:(lia))
    as [log' [E [C1 C2]]].
  rewrite E. cbn [fst snd app]. auto.
Qed.

(** *** A whole scan of the change-hash iterator *)

Lemma JsVal_eqb_eq : forall a b : JsVal, JsVal_eqb a b = true -> a = b.
Proof.
  fix IH 1. intros [| |x|x|x|l|o] [| |y|y|y|l'|o']; cbn [JsVal_eqb]; try discriminate; intros H.
  - reflexivity.
  - reflexivity.
  - f_equal. now apply Bool.eqb_prop.
  - f_equal. now apply Z.eqb_eq.
  - f_equal. now apply String.eqb_eq.
  - f_equal. revert l l' H. fix IHl 1. intros [|a l] [|b l'] H; try discriminate; [reflexivity|].
    apply andb_true_iff in H. destruct H as [H1 H2].
    f_equal; [apply IH; exact H1|apply IHl; exact H2].
  - f_equal. revert o o' H. fix IHo 1.
    intros [|[k a] o] [|[k' b] o'] H; try discriminate; [reflexivity|].
    apply andb_true_iff in H. destruct H as [H12 H3].
    apply andb_true_iff in H12. destruct H12 as [H1 H2].
    apply String.eqb_eq in H1. subst k'.
    f_equal; [f_equal; apply IH; exact H2|apply IHo; exact H3].
Qed.

Lemma obj_get_absent (o : JsObj) (k : string) : obj_has o k = false -> obj_get o k = JUndef.
Proof.
  induction o as [|[a b] o IH]; cbn; [reflexivity|].
  destruct (String.eqb a k); [discriminate|exact IH].
Qed.

Lemma hashed_typed (d : JsObj) :
  digest_typed d = true -> is_hashed d = true ->
  exists s, obj_get d HASH = JStr s /\ s <> "" /\ obj_has d HASH = true.
Proof.
  unfold digest_typed, is_hashed, in_values. intros T H.
  destruct (obj_get d HASH) as [| |?|?|s|?|?] eqn:G; try discriminate;
    destruct (obj_has d HASH) eqn:P; cbn in T, H; rewrite ?orb_true_r in H;
    try discriminate.
  exists s. repeat split. intros ->. discriminate.
Qed.

Lemma unhashed_typed (d : JsObj) :
  digest_typed d = true -> is_hashed d = false ->
  obj_get d HASH = JUndef \/ obj_get d HASH = JNull \/ obj_get d HASH = JStr "".
Proof.
  unfold digest_typed, is_hashed, in_values. intros T H.
  destruct (obj_get d HASH) as [| |?|?|s|?|?] eqn:G; try discriminate; auto.
  destruct (obj_has d HASH) eqn:P; cbn in H.
  - destruct s; [auto|discriminate].
  - apply obj_get_absent in P. congruence.
Qed.

Lemma hashed_set (d : JsObj) (s : string) : s <> "" -> is_hashed (obj_set d HASH (JStr s)) = true.
Proof.
  intros N. unfold is_hashed, in_values. rewrite obj_get_set_same, obj_has_set_same.
  cbn. destruct s; [congruence|reflexivity].
Qed.

Lemma stripHash1_id (d : JsObj) : obj_get (stripHash1 d) "_id" = obj_get d "_id".
Proof.
  unfold stripHash1. destruct (obj_has d HASH); [|reflexivity].
  apply obj_get_delete_other. discriminate.
Qed.

Lemma yield_stored (d : JsObj) (it : FindIter) :
  digest_typed d = true -> is_hashed d = true ->
  yield (project_hash_id d) it = Ok (Some (stored_record d), it).
Proof.
  intros T H. destruct (hashed_typed d T H) as [s [G [N P]]].
  unfold yield, project_hash_id, stored_record. rewrite P, G.
  assert (I : obj_get (if obj_has d "_id" then [("_id", obj_get d "_id")] else []) "_id"
              = obj_get d "_id").
  { destruct (obj_has d "_id") eqn:E; [reflexivity|]. symmetry. now apply obj_get_absent. }
  destruct (obj_has d "_id"); cbn in I |- *; rewrite ?I; destruct s; try congruence; reflexivity.
Qed.

Lemma yield_computed (d : JsObj) (it : FindIter) :
  digest_typed d = true -> is_hashed d = false ->
  yield d it =
    Ok (Some (computed_record d),
        flush {| mode := mode it; iterator := iterator it;
                 bulkUpdate := digest_set (bulkUpdate it) (obj_get d "_id")
                                 (fresh_hash (stripHash1 d) +s+ "|" +s+
                                  toString16 (estimateDocSize core (stripHash1 d)));
                 coll := coll it; writes := writes it |} false).
Proof.
  intros T H. unfold yield, computed_record. fold (stripHash1 d). rewrite stripHash1_id.
  destruct (unhashed_typed d T H) as [G|[G|G]]; rewrite G; reflexivity.
Qed.

Lemma next_cons (recheck : bool) (it : FindIter) (p : JsObj) (rest : list JsObj) :
  iterator it = Some (p :: rest) -> next recheck it = yield p (at_cursor it (mode it) rest).
Proof.
  intros E. unfold next, fetch, cursor_next. rewrite E. cbn. rewrite E. cbn.
  destruct (mode it); reflexivity.
Qed.

Lemma next_switch (recheck : bool) (it : FindIter) :
  mode it = hashed -> iterator it = Some [] ->
  next recheck it =
    next recheck (at_cursor it non_hashed (filter (fun x => negb (is_hashed x)) (coll it))).
Proof.
  intros M E. unfold next, fetch, cursor_next. rewrite E. cbn. rewrite E, M. cbn.
  destruct (filter (fun x => negb (is_hashed x)) (coll it)); reflexivity.
Qed.

Lemma next_end (recheck : bool) (it : FindIter) :
  mode it = non_hashed -> iterator it = Some [] -> next recheck it = Ok (None, it).
Proof.
  intros M E. unfold next, fetch, cursor_next. rewrite E. cbn. rewrite E, M. reflexivity.
Qed.

Lemma next_open (recheck : bool) (c : list JsObj) :
  let c' := if recheck then invalidate_all c else c in
  next recheck (opened c) =
    next recheck (at_cursor (opened c') hashed (map project_hash_id (filter is_hashed c'))).
Proof. reflexivity. Qed.

Lemma next_results_first (recheck : bool) (n : nat) (it it' : FindIter) :
  next recheck it = next recheck it' ->
  next_results recheck (S n) it = next_results recheck (S n) it'.
Proof. intros E. cbn [next_results]. now rewrite E. Qed.

Lemma scan_hashed (recheck : bool) (n : nat) :
  forall (l : list JsObj) (it : FindIter),
    mode it = hashed ->
    Forall (fun d => digest_typed d = true /\ is_hashed d = true) l ->
    iterator it = Some (map project_hash_id l) ->
    next_results recheck (List.length l + n) it =
      (rs <- next_results recheck n (at_cursor it hashed []) ;;
       Ok (map (fun d => Some (stored_record d)) l ++ fst rs, snd rs)).
Proof.
  induction l as [|d l IH]; intros it M F E.
  - cbn [List.length Nat.add map app].
    assert (it = at_cursor it hashed []) as <-.
    { destruct it. cbn in *. subst. reflexivity. }
    destruct (next_results recheck n it) as [[a b]|]; reflexivity.
  - inversion F as [|? ? [T H] F']; subst.
    cbn [List.length Nat.add next_results map]. cbn [map] in E.
    rewrite (next_cons recheck it _ _ E), (yield_stored d _ T H). cbn [bind fst snd].
    rewrite (IH (at_cursor it (mode it) (map project_hash_id l))); [|now cbn|exact F'|reflexivity].
    change (at_cursor (at_cursor it (mode it) (map project_hash_id l)) hashed [])
      with (at_cursor it hashed []).
    destruct (next_results recheck n (at_cursor it hashed [])) as [[a b]|]; reflexivity.
Qed.

Lemma digest_set_entry (m : list (JsVal * string)) (k : JsVal) (v : string) :
  exists e, In e (digest_set m k v) /\ fst e = k /\ snd e = v.
Proof.
  induction m as [|[k' v'] m IH]; cbn [digest_set].
  - exists (k, v). cbn. auto.
  - destruct (JsVal_eqb k' k) eqn:E.
    + apply JsVal_eqb_eq in E. subst k'. exists (k, v). cbn. auto.
    + destruct IH as [e [I P]]. exists e. split; [right; exact I|exact P].
Qed.

Lemma digest_set_keeps (m : list (JsVal * string)) (k : JsVal) (v : string) (e : JsVal * string) :
  In e m -> exists e', In e' (digest_set m k v) /\ fst e' = fst e.
Proof.
  induction m as [|[k' v'] m IH]; cbn [digest_set]; intros I; [destruct I|].
  destruct (JsVal_eqb k' k) eqn:E.
  - destruct I as [<-|I].
    + exists (k', v). cbn. auto.
    + exists e. split; [right; exact I|reflexivity].
  - destruct I as [<-|I].
    + exists (k', v'). cbn. auto.
    + destruct (IH I) as [e' [I' P]]. exists e'. split; [right; exact I'|exact P].
Qed.

Lemma digest_set_nonempty (m : list (JsVal * string)) (k : JsVal) (v : string) :
  v <> "" -> Forall (fun e : JsVal * string => snd e <> "") m ->
  Forall (fun e : JsVal * string => snd e <> "") (digest_set m k v).
Proof.
  intros N. induction m as [|[k' v'] m IH]; cbn [digest_set]; intros F.
  - constructor; [exact N|constructor].
  - inversion F; subst. destruct (JsVal_eqb k' k); constructor; auto.
Qed.

Lemma same_but_digest_refl (d : JsObj) : same_but_digest d d.
Proof. intros k _. auto. Qed.

Lemma same_but_digest_trans (a b c : JsObj) :
  same_but_digest a b -> same_but_digest b c -> same_but_digest a c.
Proof.
  intros H1 H2 k N. destruct (H1 k N) as [A1 A2]. destruct (H2 k N) as [B1 B2].
  split; congruence.
Qed.

Lemma same_but_digest_set (d : JsObj) (v : JsVal) : same_but_digest d (obj_set d HASH v).
Proof.
  intros k N. split; [apply obj_get_set_other|apply obj_has_set_other]; congruence.
Qed.

Lemma write1_same (d : JsObj) (e : JsVal * string) : same_but_digest d (write1 d e).
Proof.
  unfold write1. destruct (JsVal_eqb (obj_get d "_id") (fst e)).
  - apply same_but_digest_set.
  - apply same_but_digest_refl.
Qed.

Lemma writes_same (es : list (JsVal * string)) (d : JsObj) :
  same_but_digest d (fold_left write1 es d).
Proof.
  revert d. induction es as [|e es IH]; intros d; cbn [fold_left].
  - apply same_but_digest_refl.
  - eapply same_but_digest_trans; [apply write1_same|apply IH].
Qed.

Lemma writes_hashed (es : list (JsVal * string)) (d : JsObj) :
  Forall (fun e : JsVal * string => snd e <> "") es ->
  is_hashed d = true -> is_hashed (fold_left write1 es d) = true.
Proof.
  revert d. induction es as [|e es IH]; intros d F H; cbn [fold_left]; [exact H|].
  inversion F; subst. apply IH; [assumption|].
  unfold write1. destruct (JsVal_eqb (obj_get d "_id") (fst e)); [|exact H].
  now apply hashed_set.
Qed.

Lemma writes_entry (es : list (JsVal * string)) (d : JsObj) (e : JsVal * string) :
  Forall (fun e : JsVal * string => snd e <> "") es ->
  In e es -> fst e = obj_get d "_id" -> is_hashed (fold_left write1 es d) = true.
Proof.
  revert d. induction es as [|e0 es IH]; intros d F I K; [destruct I|].
  cbn [fold_left]. inversion F; subst. destruct I as [->|I].
  - apply writes_hashed; [assumption|]. unfold write1. rewrite K, JsVal_eqb_refl.
    now apply hashed_set.
  - apply (IH _ ltac:(assumption) I).
    rewrite K. symmetry. apply (write1_same d e0). discriminate.
Qed.

Lemma write_digest_fold (es : list (JsVal * string)) (c : list JsObj) :
  fold_left write_digest es c = map (fold_left write1 es) c.
Proof.
  revert c. induction es as [|e es IH]; intros c; cbn [fold_left].
  - symmetry. apply map_id.
  - rewrite IH. unfold write_digest. rewrite map_map. reflexivity.
Qed.

Lemma flush_cursor (it : FindIter) (force : bool) :
  mode (flush it force) = mode it /\ iterator (flush it force) = iterator it.
Proof.
  unfold flush. destruct ((1000 <? List.length (bulkUpdate it))%nat || force); [|auto].
  destruct (0 <? List.length (bulkUpdate it))%nat; cbn; auto.
Qed.

Lemma flush_inv (c0 rest : list JsObj) (it : FindIter) (force : bool) :
  scan_inv c0 rest it -> scan_inv c0 rest (flush it force).
Proof.
  intros [S1 [S2 S3]]. unfold flush.
  destruct ((1000 <? List.length (bulkUpdate it))%nat || force); [|repeat split; assumption].
  destruct (0 <? List.length (bulkUpdate it))%nat eqn:L; cbn [mode iterator bulkUpdate coll writes].
  - unfold scan_inv. cbn [coll bulkUpdate]. rewrite write_digest_fold. repeat split.
    + clear -S1. induction S1 as [|a b la lb Hab _ IH]; cbn [map]; constructor; [|exact IH].
      eapply same_but_digest_trans; [exact Hab|apply writes_same].
    + constructor.
    + apply Forall_map. refine (Forall_impl _ _ S3). cbn beta.
      intros x [H|[[e [I K]]|[d [I K]]]].
      * left. now apply writes_hashed.
      * left. now apply (writes_entry _ _ e).
      * right; right. exists d. split; [exact I|]. rewrite K. symmetry.
        apply (writes_same (bulkUpdate it) x). discriminate.
  - destruct (bulkUpdate it) as [|e es] eqn:B; [|discriminate].
    unfold scan_inv. cbn [coll bulkUpdate]. repeat split; assumption.
Qed.

Lemma entry_nonempty (a b : string) : a +s+ "|" +s+ b <> "".
Proof. destruct a; discriminate. Qed.

Lemma scan_unhashed (recheck : bool) (c0 : list JsObj) :
  forall (l : list JsObj) (it : FindIter),
    mode it = non_hashed -> iterator it = Some l ->
    Forall (fun d => digest_typed d = true /\ is_hashed d = false) l ->
    scan_inv c0 l it ->
    exists itf,
      next_results recheck (S (List.length l)) it =
        Ok (map (fun d => Some (computed_record d)) l ++ [None], itf) /\
      scan_inv c0 [] itf /\ iterator itf = Some [].
Proof.
  induction l as [|d l IH]; intros it M E F Hinv.
  - exists it. cbn [List.length next_results map app].
    rewrite (next_end recheck it M E). cbn. auto.
  - inversion F as [|? ? [T H] F']; subst.
    cbn [List.length]. change (S (S (List.length l))) with (S (List.length (d :: l))).
    cbn [next_results]. rewrite (next_cons recheck it _ _ E), (yield_computed d _ T H).
    cbn [bind fst snd at_cursor mode iterator bulkUpdate coll writes].
    set (v := fresh_hash (stripHash1 d) +s+ "|" +s+
              toString16 (estimateDocSize core (stripHash1 d))).
    set (it2 := {| mode := mode it; iterator := Some l;
                   bulkUpdate := digest_set (bulkUpdate it) (obj_get d "_id") v;
                   coll := coll it; writes := writes it |}).
    destruct (flush_cursor it2 false) as [FM FI].
    destruct (IH (flush it2 false)) as [itf [R [S' I']]].
    + rewrite FM. exact M.
    + rewrite FI. reflexivity.
    + exact F'.
    + apply flush_inv. destruct Hinv as [S1 [S2 S3]]. unfold scan_inv.
      subst it2. cbn [coll bulkUpdate]. repeat split.
      * exact S1.
      * apply digest_set_nonempty; [apply entry_nonempty|exact S2].
      * refine (Forall_impl _ _ S3). cbn beta.
        intros x [Hx|[[e [I K]]|[d' [[<-|I] K]]]].
        -- now left.
        -- right; left. destruct (digest_set_keeps _ (obj_get d "_id") v e I) as [e' [I' K']].
           exists e'. split; [exact I'|congruence].
        -- right; left.
           destruct (digest_set_entry (bulkUpdate it) (obj_get d "_id") v) as [e' [I' [K' _]]].
           exists e'. split; [exact I'|congruence].
        -- right; right. exists d'. auto.
    + exists itf. cbn [List.length]. rewrite R. cbn [bind fst snd map app]. auto.
Qed.

Lemma invalidate_all_spec (c : list JsObj) :
  Forall2 same_but_digest c (invalidate_all c) /\
  (forallb digest_typed c = true -> forallb digest_typed (invalidate_all c) = true) /\
  filter is_hashed (invalidate_all c) = [].
Proof.
  unfold invalidate_all. induction c as [|d c [IH1 [IH2 IH3]]]; cbn [map forallb filter].
  - repeat split; constructor.
  - set (d' := if negb (in_values [JNull] (obj_get d HASH) (obj_has d HASH))
               then obj_set d HASH JNull else d).
    assert (U : is_hashed d' = false).
    { subst d'. destruct (negb (in_values [JNull] (obj_get d HASH) (obj_has d HASH))) eqn:E.
      - unfold is_hashed, in_values. now rewrite obj_get_set_same, obj_has_set_same.
      - unfold is_hashed. apply negb_false_iff in E. apply negb_false_iff.
        unfold in_values in *. cbn [existsb] in *. rewrite orb_false_r in E. rewrite E.
        apply orb_true_r. }
    rewrite U. repeat split.
    + constructor; [|exact IH1]. subst d'.
      destruct (negb _); [apply same_but_digest_set|apply same_but_digest_refl].
    + intros T. apply andb_true_iff in T. destruct T as [T1 T2]. apply andb_true_iff. split; auto.
      subst d'. destruct (negb _); [|exact T1].
      unfold digest_typed. now rewrite obj_get_set_same.
    + exact IH3.
Qed.

Lemma filter_lengths (A : Type) (f : A -> bool) (l : list A) :
  (List.length (filter f l) + List.length (filter (fun x => negb (f x)) l))%nat = List.length l.
Proof.
  induction l as [|a l IH]; cbn [filter List.length]; [reflexivity|].
  destruct (f a); cbn [negb List.length]; lia.
Qed.

Lemma scan_spec (recheck : bool) (c : list JsObj) :
  forallb digest_typed c = true ->
  let c' := if recheck then invalidate_all c else c in
  exists itf,
    next_results recheck (S (List.length c)) (opened c) =
      Ok (map (fun d => Some (stored_record d)) (filter is_hashed c') ++
          map (fun d => Some (computed_record d)) (filter (fun d => negb (is_hashed d)) c') ++
          [None], itf) /\
    scan_inv c [] itf /\ iterator itf = Some [].
Proof.
  intros T c'.
  assert (L : List.length c' = List.length c).
  { subst c'. destruct recheck; [|reflexivity]. unfold invalidate_all. apply length_map. }
  assert (T' : forallb digest_typed c' = true).
  { subst c'. destruct recheck; [|exact T]. now apply invalidate_all_spec. }
  assert (SB : Forall2 same_but_digest c c').
  { subst c'. destruct recheck; [apply invalidate_all_spec|].
    clear. induction c; constructor; [apply same_but_digest_refl|assumption]. }
  rewrite forallb_forall in T'.
  set (H := filter is_hashed c'). set (U := filter (fun d => negb (is_hashed d)) c').
  set (it1 := at_cursor (opened c') hashed (map project_hash_id H)).
  set (it2 := at_cursor (at_cursor it1 hashed []) non_hashed U).
  destruct (scan_unhashed recheck c U it2) as [itf [R [Hinv I]]].
  - reflexivity.
  - reflexivity.
  - apply Forall_forall. intros d Hd. subst U. apply filter_In in Hd. destruct Hd as [Hd HU].
    split; [now apply T'|]. now apply negb_true_iff.
  - unfold scan_inv. cbn [coll bulkUpdate it2 it1 at_cursor opened]. repeat split.
    + exact SB.
    + constructor.
    + apply Forall_forall. intros x Hx. destruct (is_hashed x) eqn:E; [now left|].
      right; right. exists x. split; [|reflexivity]. subst U. apply filter_In.
      split; [exact Hx|]. now rewrite E.
  - exists itf. split; [|split; assumption].
    replace (S (List.length c)) with (List.length H + S (List.length U))%nat
      by (rewrite <- L; subst H U; rewrite <- (filter_lengths _ is_hashed c'); lia).
    assert (E1 : next_results recheck (List.length H + S (List.length U)) (opened c) =
                 next_results recheck (List.length H + S (List.length U)) it1).
    { rewrite Nat.add_succ_r. apply next_results_first. apply next_open. }
    rewrite E1. rewrite (scan_hashed recheck (S (List.length U)) H it1).
    + rewrite (next_results_first recheck _ (at_cursor it1 hashed []) it2).
      * rewrite R. cbn [bind fst snd]. reflexivity.
      * apply next_switch; reflexivity.
    + reflexivity.
    + apply Forall_forall. intros d Hd. subst H. apply filter_In in Hd. destruct Hd as [Hd HH].
      split; [now apply T'|exact HH].
    + reflexivity.
Qed.

(** X5. A scan of a collection with the change-hash iterator yields every
    document exactly once: first the documents that have a digest, in the
    order of the collection, each with the record read from its stored
    digest, then the documents without one, each with a freshly computed
    record, and then [undefined].  With [recheck] the digests are dropped
    first, so every record is computed. *)
Theorem scan_yields_each_document (recheck : bool) (c : list JsObj) :
  forallb digest_typed c = true ->
  let c' := if recheck then invalidate_all c else c in
  (recheck = true -> filter is_hashed c' = []) /\
  exists itf,
    next_results recheck (S (List.length c)) (opened c) =
      Ok (map (fun d => Some (stored_record d)) (filter is_hashed c') ++
          map (fun d => Some (computed_record d)) (filter (fun d => negb (is_hashed d)) c') ++
          [None], itf).
Proof.
  intros T c'. split.
  - intros ->. apply invalidate_all_spec.
  - destruct (scan_spec recheck c T) as [itf [R _]]. exists itf. exact R.
Qed.

(** X6. After a whole scan, [close] leaves nothing buffered and closes the
    cursor without an error, and every document of the collection then has
    a digest (so the next scan computes none); the documents differ from
    those before the scan in their digest field only. *)
Theorem scan_and_close_store_digests (recheck : bool) (c : list JsObj) :
  forallb digest_typed c = true ->
  exists rs itf,
    next_results recheck (S (List.length c)) (opened c) = Ok (rs, itf) /\
    snd (close itf) = Ok tt /\
    bulkUpdate (fst (close itf)) = [] /\
    forallb is_hashed (coll (fst (close itf))) = true /\
    Forall2 same_but_digest c (coll (fst (close itf))).
Proof.
  intros T. destruct (scan_spec recheck c T) as [itf [R [Hinv I]]].
  eexists. exists itf. split; [exact R|].
  pose proof (flush_inv c [] itf true Hinv) as [S1 [S2 S3]].
  destruct (flush_cursor itf true) as [_ FI]. rewrite I in FI.
  destruct (flush_force itf) as [FB _].
  unfold close. rewrite FI. cbn [fst snd bulkUpdate coll].
  repeat split; [exact FB| |exact S1].
  apply forallb_forall. intros x Hx. rewrite Forall_forall in S3.
  destruct (S3 x Hx) as [H|[[e [In_e _]]|[d [In_d _]]]]; [exact H| |destruct In_d].
  rewrite FB in In_e. destruct In_e.
Qed.

(** *** The lookup planner *)

Lemma JsVal_children_ind (Q : JsVal -> Prop) :
  Q JUndef -> Q JNull -> (forall b, Q (JBool b)) -> (forall n, Q (JNum n)) ->
  (forall s, Q (JStr s)) ->
  (forall l, Forall Q l -> Q (JArr l)) ->
  (forall o, Forall (fun kv : string * JsVal => Q (snd kv)) o -> Q (JObj o)) ->
  forall v, Q v.
Proof.
  intros HU HN HB HZ HS HA HO. fix IH 1.
  intros [| |b|n|s|l|o]; [exact HU|exact HN|apply HB|apply HZ|apply HS| |].
  - apply HA. revert l. fix IHl 1. intros [|x l]; constructor; [apply IH|apply IHl].
  - apply HO. revert o. fix IHo 1. intros [|[k x] o]; constructor; [apply IH|apply IHo].
Qed.

Lemma without_dots_cons (c : ascii) (s : string) :
  without_dots (String c s) =
    if Ascii.eqb c "."%char then without_dots s else String c (without_dots s).
Proof.
  unfold without_dots. cbn [split_on]. destruct (Ascii.eqb c "."%char) eqn:E.
  - rewrite join_cons by apply split_on_nonempty. reflexivity.
  - pose proof (split_on_nonempty "."%char s) as N.
    destruct (split_on "."%char s) as [|hd tl]; [congruence|].
    change (String c hd) with (String c "" +s+ hd). rewrite join_head. reflexivity.
Qed.

Lemma includes_dot_cons (c : ascii) (s : string) :
  includes "." (String c s) = Ascii.eqb c "."%char || includes "." s.
Proof.
  cbn [includes String.prefix]. destruct (ascii_dec "."%char c) as [<-|N].
  - now destruct s.
  - apply not_eq_sym in N. apply Ascii.eqb_neq in N. now rewrite N.
Qed.

Lemma includes_dot_app (a b : string) :
  includes "." (a +s+ b) = includes "." a || includes "." b.
Proof.
  induction a as [|c a IH]; [reflexivity|].
  cbn [String.append]. rewrite !includes_dot_cons, IH. apply orb_assoc.
Qed.

Lemma without_dots_clean (s : string) : includes "." (without_dots s) = false.
Proof.
  induction s as [|c s IH]; [reflexivity|].
  rewrite without_dots_cons. destruct (Ascii.eqb c "."%char) eqn:E; [exact IH|].
  now rewrite includes_dot_cons, E, IH.
Qed.

Lemma substring_app_suffix (a b : string) :
  substring (String.length a) (String.length b) (a +s+ b) = b.
Proof. induction a as [|c a IH]; [apply substring_all|exact IH]. Qed.

Lemma endsWith_app (a suf : string) : endsWith suf (a +s+ suf) = true.
Proof.
  unfold endsWith. rewrite string_length_append.
  replace (String.length a + String.length suf - String.length suf)%nat with (String.length a)
    by lia.
  rewrite substring_app_suffix, String.eqb_refl, andb_true_r.
  apply Nat.leb_le. lia.
Qed.

Lemma alias_scratch (dom x : string) (fields : JsObj) :
  dom <> DOMAIN_MODEL ->
  js_get_opt (JObj fields) "as" = JStr (without_dots x +s+ "_lookup") ->
  js_get_opt (JObj fields) "from" = JStr dom ->
  scratch_step (JObj fields).
Proof.
  intros N A F. exists (without_dots x +s+ "_lookup"), dom.
  repeat split; auto.
  - apply endsWith_app.
  - rewrite includes_dot_app, without_dots_clean. reflexivity.
Qed.

Lemma getReverseLookupValue_steps (lookup : JsVal) (result : list JsVal) (parent : option string) :
  Forall scratch_step result -> Forall scratch_step (getReverseLookupValue lookup result parent).
Proof.
  unfold getReverseLookupValue.
  generalize (for_in (if is_nullish (js_get_opt lookup "_id") then JObj []
                      else js_get_opt lookup "_id")).
  intros es. revert result. induction es as [|[key value] es IH]; intros result F; [exact F|].
  cbn [fold_left fst snd]. apply IH.
  match goal with |- context [negb (String.eqb ?d DOMAIN_MODEL)] =>
    destruct (String.eqb d DOMAIN_MODEL) eqn:E end; cbn [negb]; [exact F|].
  apply Forall_app. split; [exact F|]. constructor; [|constructor].
  apply String.eqb_neq in E.
  eapply alias_scratch; [exact E|reflexivity|reflexivity].
Qed.

Lemma push_step (dom fullKey : string) (foreign : JsVal) (result : list JsVal) :
  Forall scratch_step result ->
  Forall scratch_step
    (if negb (String.eqb dom DOMAIN_MODEL)
     then result ++ [JObj [("from", JStr dom); ("localField", JStr fullKey);
                           ("foreignField", foreign);
                           ("as", JStr (without_dots fullKey +s+ "_lookup"))]]
     else result).
Proof.
  intros F. destruct (String.eqb dom DOMAIN_MODEL) eqn:E; cbn [negb]; [exact F|].
  apply Forall_app. split; [exact F|]. constructor; [|constructor].
  apply String.eqb_neq in E.
  eapply alias_scratch; [exact E|reflexivity|reflexivity].
Qed.

Lemma getLookupValue_steps (lookup : JsVal) :
  (forall clazz result parent,
     Forall scratch_step result ->
     Forall scratch_step (getLookupValue clazz lookup result parent)) /\
  (forall items, lookup = JArr items ->
     Forall (fun v => forall clazz result parent,
                        Forall scratch_step result ->
                        Forall scratch_step (getLookupValue clazz v result parent)) items).
Proof.
  induction lookup as [| |b|n|s|l IHl|o IHo] using JsVal_children_ind;
    (split; [|intros items E; try discriminate]).
  - intros ? ? ? F. exact F.
  - intros ? ? ? F. exact F.
  - intros ? ? ? F. exact F.
  - intros ? ? ? F. exact F.
  - intros clazz result parent F. cbn [getLookupValue].
    revert result F. generalize 0%nat.
    induction s as [|c s IH]; intros i result F; [exact F|].
    cbn [str_entries_from fold_left fst snd]. apply IH. now apply push_step.
  - intros clazz result parent F. cbn [getLookupValue].
    revert result F. generalize 0%nat.
    induction IHl as [|value l [_ Hv] _ IH]; intros i result F; [exact F|].
    destruct value as [| |?|?|?|[|c [|nested rest]]|?]; apply IH; try now apply push_step.
    specialize (Hv _ eq_refl). inversion Hv as [|? ? _ Hv']; subst.
    inversion Hv' as [|? ? Hn _]; subst.
    apply Hn. now apply push_step.
  - injection E as <-. refine (Forall_impl _ _ IHl). cbn beta. intros v [Hv _]. exact Hv.
  - intros clazz result parent F. cbn [getLookupValue].
    remember (JObj o) as whole eqn:W. clear W.
    revert result F.
    induction IHo as [|[key value] o [_ Hv] _ IH]; intros result F; [exact F|].
    cbn [snd] in Hv.
    destruct (String.eqb key "_id").
    + apply IH. now apply getReverseLookupValue_steps.
    + destruct value as [| |?|?|?|[|c [|nested rest]]|?]; apply IH; try now apply push_step.
      specialize (Hv _ eq_refl). inversion Hv as [|? ? _ Hv']; subst.
      inversion Hv' as [|? ? Hn _]; subst.
      apply Hn. now apply push_step.
Qed.

Lemma clearExtraLookups_has (row : JsObj) (k : string) :
  obj_has (clearExtraLookups row) k = obj_has row k && negb (endsWith "_lookup" k).
Proof.
  unfold clearExtraLookups.
  assert (G : forall ks r,
             obj_has (fold_left (fun row key =>
                                   if endsWith "_lookup" key then obj_delete row key else row)
                                ks r) k =
             obj_has r k && negb (existsb (String.eqb k) ks && endsWith "_lookup" k)).
  { induction ks as [|k0 ks IH]; intros r; cbn [fold_left existsb].
    - now rewrite andb_true_r.
    - rewrite IH. destruct (String.eqb k k0) eqn:E.
      + apply String.eqb_eq in E. subst k0. cbn [orb].
        destruct (endsWith "_lookup" k) eqn:W.
        * rewrite obj_has_delete_same. cbn. now rewrite andb_false_r.
        * now rewrite !andb_false_r.
      + cbn [orb]. apply String.eqb_neq in E.
        destruct (endsWith "_lookup" k0); [|reflexivity].
        rewrite obj_has_delete_other by congruence. reflexivity. }
  rewrite G, existsb_keys_has.
  destruct (obj_has row k), (endsWith "_lookup" k); reflexivity.
Qed.

Lemma clearExtraLookups_get (row : JsObj) (k : string) :
  endsWith "_lookup" k = false -> obj_get (clearExtraLookups row) k = obj_get row k.
Proof.
  intros W. unfold clearExtraLookups. generalize (obj_keys row) as ks. intros ks. revert row.
  induction ks as [|k0 ks IH]; intros row; cbn [fold_left]; [reflexivity|].
  rewrite IH. destruct (endsWith "_lookup" k0) eqn:W0; [|reflexivity].
  apply obj_get_delete_other. intros ->. congruence.
Qed.

(** X7. Every join step the lookup planner emits, at any depth of the
    lookup specification and for forward and reverse lookups alike, joins
    a domain other than the model's under an alias that is a single name
    ending in [_lookup]; [clearExtraLookups] removes every such alias from
    a result row and leaves the fields of other names as they are. *)
Theorem lookup_aliases_are_cleared (clazz : string) (lookup : JsVal) (parent : option string)
  (step : JsVal) :
  In step (getLookups clazz lookup parent) ->
  exists a dom,
    js_get_opt step "as" = JStr a /\ js_get_opt step "from" = JStr dom /\
    dom <> DOMAIN_MODEL /\ includes "." a = false /\
    forall row,
      obj_has (clearExtraLookups row) a = false /\
      forall k, endsWith "_lookup" k = false ->
        obj_has (clearExtraLookups row) k = obj_has row k /\
        obj_get (clearExtraLookups row) k = obj_get row k.
Proof.
  intros I.
  assert (F : Forall scratch_step (getLookups clazz lookup parent)).
  { unfold getLookups. destruct lookup; try constructor;
      apply getLookupValue_steps; constructor. }
  rewrite Forall_forall in F. destruct (F step I) as [a [dom [A [D [N [W C]]]]]].
  exists a, dom. repeat split; auto.
  - rewrite clearExtraLookups_has, W. apply andb_false_r.
  - rewrite clearExtraLookups_has, H. apply andb_true_r.
  - now apply clearExtraLookups_get.
Qed.

(** *** The sort stages *)

Lemma count_stage_app (name : string) (a b : list JsVal) :
  count_stage name (a ++ b) = (count_stage name a + count_stage name b)%nat.
Proof. unfold count_stage. now rewrite filter_app, length_app. Qed.

Lemma count_stage_none (name : string) (other : string) (l : list JsVal) :
  name <> other -> forallb (stage_is other) l = true -> count_stage name l = 0%nat.
Proof.
  intros N. unfold count_stage. induction l as [|st l IH]; [reflexivity|].
  cbn [forallb filter]. intros F. apply andb_true_iff in F. destruct F as [F1 F2].
  assert (E : stage_is name st = false).
  { destruct st as [| |?|?|?|?|[|[k v] [|? ?]]]; try reflexivity. cbn in F1 |- *.
    apply String.eqb_eq in F1. subst k. apply String.eqb_neq. congruence. }
  rewrite E. now apply IH.
Qed.

Lemma obj_set_values (P : JsVal -> Prop) (o : JsObj) (k : string) (v : JsVal) :
  Forall (fun kv : string * JsVal => P (snd kv)) o -> P v ->
  Forall (fun kv : string * JsVal => P (snd kv)) (obj_set o k v).
Proof.
  intros F Hv. induction F as [|[k' v'] o Hx F IH]; cbn [obj_set].
  - constructor; [exact Hv|constructor].
  - destruct (String.eqb k' k); constructor; auto.
Qed.

Lemma order_of_direction (v : JsVal) : is_direction (order_of v).
Proof. unfold order_of, is_direction. destruct (JsVal_eqb v Ascending); auto. Qed.

Lemma fillCustomSort_spec (rules : JsVal) (key : string) (pipeline : list JsVal) (srt : JsObj)
  (r : list JsVal * JsObj) :
  fillCustomSort rules key pipeline srt = Ok r ->
  exists stage order,
    fst r = pipeline ++ [stage] /\ stage_is "$addFields" stage = true /\
    snd r = obj_set srt ("sort_" +s+ key) (order_of order).
Proof.
  unfold fillCustomSort. intros H.
  destruct (js_get rules "cases") as [cases|] eqn:E1; [|discriminate]. cbn [bind] in H.
  destruct cases as [| |?|?|?|selectors|?]; try discriminate.
  destruct (all_ok (map (custom_branch key) selectors)) as [branches|]; [|discriminate].
  cbn [bind] in H.
  destruct (js_get rules "default") as [dflt|]; [|discriminate]. cbn [bind] in H.
  destruct (js_get rules "order") as [order|]; [|discriminate]. cbn [bind] in H.
  injection H as <-. eexists. exists order. cbn [fst snd]. repeat split.
Qed.

Lemma sortField_spec (modelDb : ModelDb) (clazz : string) (s : JsObj) (_key : string)
  (st st' : list JsVal * JsObj) :
  sortField modelDb clazz s _key st = Ok st' ->
  exists added,
    fst st' = fst st ++ added /\ forallb (stage_is "$addFields") added = true /\
    List.length added <= 1 /\
    (Forall (fun kv : string * JsVal => is_direction (snd kv)) (snd st) ->
     Forall (fun kv : string * JsVal => is_direction (snd kv)) (snd st')).
Proof.
  unfold sortField. intros H.
  destruct (typeof_object (obj_get s _key)).
  - apply fillCustomSort_spec in H. destruct H as [stage [order [E1 [E2 E3]]]].
    exists [stage]. rewrite E1, E3. cbn [forallb List.length]. rewrite E2.
    repeat split; auto. intros F. apply obj_set_values; [exact F|apply order_of_direction].
  - destruct (isDate clazz _key).
    + injection H as <-. eexists [_]. cbn [fst snd fillDateSort]. repeat split; auto.
      intros F. repeat apply obj_set_values; auto using order_of_direction.
    + destruct (getEnumById modelDb clazz _key) as [enumOf|]; injection H as <-.
      * eexists [_]. cbn [fst snd fillEnumSort]. repeat split; auto.
        intros F. apply obj_set_values; [exact F|apply order_of_direction].
      * exists []. cbn [fst snd]. rewrite app_nil_r. repeat split; auto.
        intros F. apply obj_set_values; [exact F|apply order_of_direction].
Qed.

Lemma sortFields_throw (modelDb : ModelDb) (clazz : string) (s : JsObj) (keys : list string)
  (m : string) :
  fold_left (fun acc _key => st <- acc ;; sortField modelDb clazz s _key st) keys (Throw m)
  = Throw m.
Proof. induction keys as [|k keys IH]; [reflexivity|exact IH]. Qed.

Lemma sortFields_spec (modelDb : ModelDb) (clazz : string) (s : JsObj) (keys : list string) :
  forall st st',
    fold_left (fun acc _key => st <- acc ;; sortField modelDb clazz s _key st) keys (Ok st)
      = Ok st' ->
    exists added,
      fst st' = fst st ++ added /\ forallb (stage_is "$addFields") added = true /\
      List.length added <= List.length keys /\
      (Forall (fun kv : string * JsVal => is_direction (snd kv)) (snd st) ->
       Forall (fun kv : string * JsVal => is_direction (snd kv)) (snd st')).
Proof.
  induction keys as [|k keys IH]; intros st st' H; cbn [fold_left] in H.
  - injection H as <-. exists []. rewrite app_nil_r. repeat split; auto.
  - cbn [bind] in H. destruct (sortField modelDb clazz s k st) as [st1|m] eqn:E.
    + destruct (sortField_spec _ _ _ _ _ _ E) as [a1 [A1 [A2 [A3 A4]]]].
      destruct (IH _ _ H) as [a2 [B1 [B2 [B3 B4]]]].
      exists (a1 ++ a2). rewrite B1, A1, <- app_assoc, forallb_app, A2, B2, length_app.
      cbn [List.length]. repeat split; auto. lia.
    + rewrite sortFields_throw in H. discriminate.
Qed.

Lemma fillSortPipeline_added (modelDb : ModelDb) (clazz : string)
  (options : option ServerFindOptions) (pipeline p : list JsVal) :
  fillSortPipeline modelDb clazz options pipeline = Ok p ->
  match (match options with Some o => sort o | None => None end) with
  | None => p = pipeline
  | Some s =>
      exists added srt,
        p = pipeline ++ added ++ [JObj [("$sort", JObj srt)]] /\
        forallb (stage_is "$addFields") added = true /\
        List.length added <= List.length s /\
        Forall (fun kv : string * JsVal => is_direction (snd kv)) srt
  end.
Proof.
  intros H. unfold fillSortPipeline in H.
  destruct options as [o|]; [|now injection H as <-].
  destruct (sort o) as [s|]; [|now injection H as <-].
  match type of H with context [bind ?X _] => destruct X as [st|] eqn:E end; [|discriminate].
  cbn [bind] in H. injection H as <-.
  destruct (sortFields_spec _ _ _ _ _ _ E) as [added [A1 [A2 [A3 A4]]]].
  exists added, (snd st). rewrite A1. cbn [fst]. rewrite <- app_assoc.
  unfold obj_keys in A3. rewrite length_map in A3.
  repeat split; auto.
Qed.

(** X8. When a sort is given, [fillSortPipeline] appends to the pipeline
    at most one [$addFields] stage for each sort key and then exactly one
    [$sort] stage, in which every direction is 1 or -1; without a sort it
    leaves the pipeline as it is. *)
Theorem fillSortPipeline_stages (modelDb : ModelDb) (clazz : string)
  (options : option ServerFindOptions) (pipeline p : list JsVal) :
  fillSortPipeline modelDb clazz options pipeline = Ok p ->
  match (match options with Some o => sort o | None => None end) with
  | None => p = pipeline
  | Some s =>
      exists added srt,
        p = pipeline ++ added ++ [JObj [("$sort", JObj srt)]] /\
        forallb (stage_is "$addFields") added = true /\
        List.length added <= List.length s /\
        Forall (fun kv : string * JsVal => is_direction (snd kv)) srt
  end.
Proof. apply fillSortPipeline_added. Qed.

Lemma first_index_spec (x : string) (l : list string) :
  (In x l -> nth_error l (first_index x l) = Some x) /\
  (~ In x l -> first_index x l = List.length l) /\
  first_index x l <= List.length l.
Proof.
  induction l as [|y l [IH1 [IH2 IH3]]]; cbn [first_index List.length].
  - repeat split; auto. intros [].
  - destruct (String.eqb y x) eqn:E.
    + apply String.eqb_eq in E. subst y. repeat split; try lia.
      intros N. exfalso. apply N. now left.
    + apply String.eqb_neq in E. repeat split; try lia.
      * intros [->|I]; [congruence|]. cbn [nth_error]. auto.
      * intros N. f_equal. apply IH2. intros I. apply N. now right.
Qed.

Lemma switch_enum_branches (key x : string) (dflt : JsVal) (l : list string) (i : nat) :
  switch_branches (enum_branches key i l) (JStr x) dflt =
    Some (if set_has l x then JNum (Z.of_nat (i + first_index x l)) else dflt).
Proof.
  revert i. induction l as [|y l IH]; intros i; [reflexivity|].
  cbn [enum_branches switch_branches first_index set_has existsb JsVal_eqb].
  change (String.eqb "case" "case" && String.eqb "$eq" "$eq" && String.eqb "then" "then")
    with true. cbn iota.
  rewrite (String.eqb_sym x y). destruct (String.eqb y x) eqn:E.
  - cbn [orb]. now rewrite Nat.add_0_r.
  - cbn [orb]. rewrite IH. unfold set_has. now rewrite Nat.add_succ_r.
Qed.

(** X9. The stage [fillEnumSort] adds gives a document the rank of its
    value in the enumeration: the index of the value in [enumValues] (of
    its first occurrence), and the number of enumeration values for a value
    that is not one of them; the sort is on that rank, in the direction
    asked for. *)
Theorem enum_sort_rank (enumOf : list string) (key : string) (pipeline : list JsVal)
  (srt : JsObj) (order : JsVal) (x : string) :
  exists stage,
    fst (fillEnumSort enumOf key pipeline srt order) = pipeline ++ [stage] /\
    eval_switch stage ("sort_" +s+ key) (JStr x) = Some (JNum (Z.of_nat (first_index x enumOf))) /\
    (In x enumOf -> nth_error enumOf (first_index x enumOf) = Some x) /\
    (~ In x enumOf -> first_index x enumOf = List.length enumOf) /\
    obj_get (snd (fillEnumSort enumOf key pipeline srt order)) ("sort_" +s+ key) = order_of order.
Proof.
  eexists. split; [reflexivity|].
  destruct (first_index_spec x enumOf) as [F1 [F2 _]].
  repeat split; auto.
  - unfold eval_switch.
    change (String.eqb "$addFields" "$addFields") with true.
    change (String.eqb "$switch" "$switch") with true.
    change (String.eqb "branches" "branches") with true.
    change (String.eqb "default" "default") with true.
    rewrite String.eqb_refl. cbn [andb].
    rewrite switch_enum_branches. cbn [Nat.add].
    destruct (set_has enumOf x) eqn:S; [reflexivity|].
    rewrite F2; [reflexivity|]. intros I. apply set_has_In in I. congruence.
  - cbn [snd fillEnumSort]. apply obj_get_set_same.
Qed.

(** *** The pipeline of [findWithPipeline] *)

Lemma count_stage_joins (steps : list JsVal) :
  forallb (stage_is "$lookup") (map (fun step => JObj [("$lookup", step)]) steps) = true.
Proof. induction steps as [|st steps IH]; [reflexivity|exact IH]. Qed.

Lemma findWithPipeline_eq (modelDb : ModelDb) (clazz : string) (query : JsObj)
  (options : ServerFindOptions) (p : list JsVal) (t : option (list JsVal)) :
  findWithPipeline modelDb clazz query options = Ok (p, t) ->
  let slow := isLookupQuery query || isLookupSort (sort options) in
  let joins := map (fun step => JObj [("$lookup", step)]) (getLookups clazz (lookup options) None) in
  exists tquery sorting,
    translateQuery clazz query (Some options) = Ok tquery /\
    match sort options with
    | None => sorting = []
    | Some s => exists added srt,
        sorting = added ++ [JObj [("$sort", JObj srt)]] /\
        forallb (stage_is "$addFields") added = true
    end /\
    p = pipelinePrefix (fst tquery) (snd tquery) slow (getLookups clazz (lookup options) None)
        ++ sorting
        ++ (if negb (match limit options with None => true | Some _ => false end)
               || is_string (obj_get query "_id")
            then [JObj [("$limit", JNum (match limit options with Some l => l | None => 1%Z end))]]
            else [])
        ++ (if slow then [] else joins)
        ++ match projection options with
           | Some pr =>
               [JObj [("$project",
                       JObj (fold_left (fun acc kv =>
                                          obj_set acc (fst (checkMixinKey (fst kv) clazz [])) (snd kv))
                                       pr []))]]
           | None => []
           end /\
    t = if total options
        then Some (pipelinePrefix (fst tquery) (snd tquery) slow
                     (getLookups clazz (lookup options) None)
                   ++ [JObj [("$count", JStr "total")]])
        else None.
Proof.
  intros H slow joins. unfold findWithPipeline in H.
  destruct (translateQuery clazz query (Some options)) as [tquery|] eqn:Q; [|discriminate].
  cbn [bind] in H. fold slow in H.
  destruct (fillSortPipeline modelDb clazz (Some options) _) as [p1|] eqn:S; [|discriminate].
  cbn [bind] in H. injection H as <- <-.
  apply fillSortPipeline_added in S.
  exists tquery.
  destruct (sort options) as [s|].
  - destruct S as [added [srt [-> [A _]]]].
    exists (added ++ [JObj [("$sort", JObj srt)]]).
    split; [reflexivity|]. split; [exists added, srt; auto|]. split; [|reflexivity].
    fold joins.
    destruct (negb _ || is_string (obj_get query "_id")), slow, (projection options);
      cbn [negb]; rewrite <- ?app_assoc, ?app_nil_r; reflexivity.
  - subst p1. exists []. split; [reflexivity|]. split; [reflexivity|]. split; [|reflexivity].
    fold joins.
    destruct (negb _ || is_string (obj_get query "_id")), slow, (projection options);
      cbn [negb app]; rewrite <- ?app_assoc, ?app_nil_r; reflexivity.
Qed.

Lemma count_stage_one (n k : string) (v : JsVal) :
  count_stage n [JObj [(k, v)]] = if String.eqb k n then 1%nat else 0%nat.
Proof. unfold count_stage. cbn [filter stage_is]. now destruct (String.eqb k n). Qed.

Lemma count_stage_other (n k : string) (v : JsVal) :
  n <> k -> count_stage n [JObj [(k, v)]] = 0%nat.
Proof.
  intros N. rewrite count_stage_one. apply not_eq_sym in N. apply String.eqb_neq in N.
  now rewrite N.
Qed.

(** X10. In the pipeline of [findWithPipeline] every join step of the
    lookup planner appears exactly once, in the planner's order.  When the
    query or the sort mentions a joined field the joins come before every
    computed sort field, the sort and the limit; otherwise they come after
    the filter, the sort and the limit, and only the projection follows
    them.  There is one [$sort] stage exactly when a sort is given and one
    [$limit] stage exactly when a limit is given or the query names an id.
    The pipeline of the count is an initial part of the pipeline, without
    any sort, limit or projection stage. *)
Theorem findWithPipeline_layout (modelDb : ModelDb) (clazz : string) (query : JsObj)
  (options : ServerFindOptions) (p : list JsVal) (t : option (list JsVal)) :
  findWithPipeline modelDb clazz query options = Ok (p, t) ->
  let joins := map (fun step => JObj [("$lookup", step)]) (getLookups clazz (lookup options) None) in
  exists pre post,
    p = pre ++ joins ++ post /\
    count_stage "$lookup" pre = 0%nat /\ count_stage "$lookup" post = 0%nat /\
    (if isLookupQuery query || isLookupSort (sort options)
     then count_stage "$addFields" pre = 0%nat /\ count_stage "$sort" pre = 0%nat /\
          count_stage "$limit" pre = 0%nat
     else count_stage "$match" post = 0%nat /\ count_stage "$addFields" post = 0%nat /\
          count_stage "$sort" post = 0%nat /\ count_stage "$limit" post = 0%nat) /\
    count_stage "$sort" p = (match sort options with Some _ => 1 | None => 0 end)%nat /\
    count_stage "$limit" p =
      (if negb (match limit options with None => true | Some _ => false end)
          || is_string (obj_get query "_id") then 1 else 0)%nat /\
    (total options = true ->
     exists tp rest,
       t = Some (tp ++ [JObj [("$count", JStr "total")]]) /\ p = tp ++ rest /\
       count_stage "$addFields" tp = 0%nat /\ count_stage "$sort" tp = 0%nat /\
       count_stage "$limit" tp = 0%nat /\ count_stage "$project" tp = 0%nat).
Proof.
  intros H joins. apply findWithPipeline_eq in H. cbn zeta in H. fold joins in H.
  destruct H as [tquery [sorting [_ [HS [Hp Ht]]]]].
  set (lim := if negb (match limit options with None => true | Some _ => false end)
                 || is_string (obj_get query "_id")
              then [JObj [("$limit", JNum (match limit options with Some l => l | None => 1%Z end))]]
              else []) in *.
  set (proj := match projection options with Some pr => [JObj [("$project", _)]] | None => [] end)
    in *.
  assert (CS : forall n, n <> "$sort" -> n <> "$addFields" -> count_stage n sorting = 0%nat).
  { intros n N1 N2. destruct (sort options).
    - destruct HS as [added [srt [-> A]]]. rewrite count_stage_app.
      rewrite (count_stage_none n "$addFields" added N2 A).
      now rewrite count_stage_other.
    - subst sorting. reflexivity. }
  assert (CSS : count_stage "$sort" sorting = match sort options with Some _ => 1 | None => 0 end%nat).
  { destruct (sort options).
    - destruct HS as [added [srt [-> A]]]. rewrite count_stage_app.
      rewrite (count_stage_none "$sort" "$addFields" added ltac:(discriminate) A). reflexivity.
    - subst sorting. reflexivity. }
  assert (CL : forall n, n <> "$limit" -> count_stage n lim = 0%nat).
  { intros n N. subst lim. destruct (negb _ || _); [|reflexivity].
    now apply count_stage_other. }
  assert (CLL : count_stage "$limit" lim =
                (if negb (match limit options with None => true | Some _ => false end)
                    || is_string (obj_get query "_id") then 1 else 0)%nat).
  { subst lim. destruct (negb _ || _); reflexivity. }
  assert (CP : forall n, n <> "$project" -> count_stage n proj = 0%nat).
  { intros n N. subst proj. destruct (projection options); [|reflexivity].
    now apply count_stage_other. }
  assert (CJ : forall n, n <> "$lookup" -> count_stage n joins = 0%nat).
  { intros n N. apply (count_stage_none n "$lookup"); [exact N|apply count_stage_joins]. }
  clearbody lim proj. unfold pipelinePrefix in Hp, Ht. fold joins in Hp, Ht.
  destruct (isLookupQuery query || isLookupSort (sort options)).
  - set (mb := if (0 <? List.length (fst tquery))%nat
               then [JObj [("$match", JObj (fst tquery))]] else []) in *.
    set (ml := if (0 <? List.length (snd tquery))%nat
               then [JObj [("$match", JObj (snd tquery))]] else []) in *.
    assert (CB : forall n, n <> "$match" -> count_stage n mb = 0%nat).
    { intros n N. subst mb. destruct (0 <? List.length (fst tquery))%nat; [|reflexivity].
      now apply count_stage_other. }
    assert (CM : forall n, n <> "$match" -> count_stage n ml = 0%nat).
    { intros n N. subst ml. destruct (0 <? List.length (snd tquery))%nat; [|reflexivity].
      now apply count_stage_other. }
    clearbody mb ml.
    exists mb, (ml ++ sorting ++ lim ++ proj).
    split; [rewrite Hp, <- !app_assoc; reflexivity|].
    split; [apply CB; discriminate|].
    split; [rewrite !count_stage_app, CM, CS, CL, CP by discriminate; reflexivity|].
    split; [repeat split; apply CB; discriminate|].
    split; [rewrite Hp, !count_stage_app, CB, CJ, CM, CSS, CL, CP by discriminate; cbn; lia|].
    split; [rewrite Hp, !count_stage_app, CB, CJ, CM, CS, CLL, CP by discriminate; cbn; lia|].
    intros T. rewrite T in Ht. eexists. eexists. split; [exact Ht|].
    split; [rewrite Hp, <- !app_assoc; reflexivity|].
    repeat split; rewrite !count_stage_app, CB, CJ, CM by discriminate; reflexivity.
  - set (mb := if (0 <? List.length (fst tquery))%nat
               then [JObj [("$match", JObj (obj_assign (fst tquery) (snd tquery)))]] else []) in *.
    assert (CB : forall n, n <> "$match" -> count_stage n mb = 0%nat).
    { intros n N. subst mb. destruct (0 <? List.length (fst tquery))%nat; [|reflexivity].
      now apply count_stage_other. }
    clearbody mb.
    exists (mb ++ sorting ++ lim), proj.
    split; [rewrite Hp, <- !app_assoc; reflexivity|].
    split; [rewrite !count_stage_app, CB, CS, CL by discriminate; reflexivity|].
    split; [apply CP; discriminate|].
    split; [repeat split; apply CP; discriminate|].
    split; [rewrite Hp, !count_stage_app, CB, CJ, CSS, CL, CP by discriminate; cbn; lia|].
    split; [rewrite Hp, !count_stage_app, CB, CJ, CS, CLL, CP by discriminate; cbn; lia|].
    intros T. rewrite T in Ht. eexists. eexists. split; [exact Ht|].
    split; [rewrite Hp; reflexivity|].
    repeat split; apply CB; discriminate.
Qed.

(** *** Key translation *)

Lemma join_split (sep : ascii) (s : string) :
  join (String sep "") (split_on sep s) = s.
Proof.
  induction s as [|c s IH]; [reflexivity|].
  cbn [split_on]. destruct (Ascii.eqb c sep) eqn:E.
  - apply Ascii.eqb_eq in E. subst c.
    rewrite join_cons by apply split_on_nonempty. cbn. now rewrite IH.
  - pose proof (split_on_nonempty sep s) as N.
    destruct (split_on sep s) as [|hd tl]; [congruence|].
    change (String c hd) with (String c "" +s+ hd). rewrite join_head, IH. reflexivity.
Qed.

Lemma split_on_dot (s : string) :
  if includes "." s
  then exists a b rest, split_on "."%char s = a :: b :: rest
  else split_on "."%char s = [s].
Proof.
  induction s as [|c s IH]; [reflexivity|].
  rewrite includes_dot_cons. cbn [split_on]. destruct (Ascii.eqb c "."%char); cbn [orb].
  - pose proof (split_on_nonempty "."%char s) as N.
    destruct (split_on "."%char s) as [|hd tl]; [congruence|]. now exists "", hd, tl.
  - destruct (includes "." s).
    + destruct IH as [a [b [rest ->]]]. now exists (String c a), b, rest.
    + now rewrite IH.
Qed.

Lemma filter_all (A : Type) (f : A -> bool) (l : list A) :
  forallb f l = true -> filter f l = l.
Proof.
  induction l as [|a l IH]; cbn [forallb filter]; [reflexivity|].
  intros H. apply andb_true_iff in H. destruct H as [H1 H2]. now rewrite H1, IH.
Qed.

Lemma join_snoc (sep : string) (pre : list string) (e : string) :
  pre <> [] -> join sep (pre ++ [e]) = join sep pre +s+ sep +s+ e.
Proof.
  induction pre as [|a pre IH]; [congruence|]. intros _.
  destruct pre as [|b pre]; [reflexivity|].
  change ((a :: b :: pre) ++ [e]) with (a :: (b :: pre) ++ [e]).
  rewrite join_cons by discriminate. rewrite IH by discriminate.
  rewrite (join_cons sep a (b :: pre)) by discriminate.
  now rewrite !append_assoc.
Qed.

Lemma checkMixinKey_dotted (key clazz : string) (mixins : list string) :
  includes "." key = true -> checkMixinKey key clazz mixins = (key, mixins).
Proof. intros I. unfold checkMixinKey. now rewrite I. Qed.

Lemma translateKey_loop_plain (clazz : string) (mixins : list string) :
  forall (rest pre : list string) (fuel : nat),
    List.length rest <= fuel -> pre <> [] -> rest <> [] ->
    existsb (String.eqb "$lookup") rest = false ->
    translateKey_loop fuel (List.length pre) (pre ++ rest) clazz (join "." pre +s+ ".") false mixins
    = (join "." (pre ++ rest), false, mixins).
Proof.
  induction rest as [|e rest IH]; intros pre fuel L P R X; [congruence|].
  destruct fuel as [|fuel]; [cbn in L; lia|].
  cbn [existsb] in X. apply orb_false_elim in X. destruct X as [X1 X2].
  cbn [translateKey_loop].
  assert (N : nth_error (pre ++ e :: rest) (List.length pre) = Some e).
  { rewrite nth_error_app2 by lia. now rewrite Nat.sub_diag. }
  rewrite N. rewrite String.eqb_sym in X1. rewrite X1.
  rewrite endsWith_app. cbn [negb andb].
  assert (Last : (List.length pre =? List.length (pre ++ e :: rest) - 1)%nat =
                 match rest with [] => true | _ => false end).
  { rewrite length_app. cbn [List.length]. destruct rest; cbn [List.length].
    - apply Nat.eqb_eq. lia.
    - apply Nat.eqb_neq. lia. }
  rewrite Last.
  assert (J : join "." (pre ++ [e]) = (join "." pre +s+ ".") +s+ e).
  { rewrite join_snoc by exact P. now rewrite append_assoc. }
  destruct rest as [|e' rest'].
  - cbn [negb]. rewrite checkMixinKey_dotted.
    + cbn [fst snd]. rewrite <- J.
      assert (Z : nth_error (pre ++ [e]) (S (List.length pre)) = None).
      { apply nth_error_None. rewrite length_app. cbn. lia. }
      destruct fuel; cbn [translateKey_loop]; rewrite ?Z; reflexivity.
    + rewrite !includes_dot_app. cbn. now rewrite orb_true_r.
  - cbn [negb]. rewrite checkMixinKey_dotted.
    + cbn [fst snd]. rewrite <- J.
      replace (pre ++ e :: e' :: rest') with ((pre ++ [e]) ++ e' :: rest')
        by (rewrite <- app_assoc; reflexivity).
      replace (S (List.length pre)) with (List.length (pre ++ [e]))
        by (rewrite length_app; cbn; lia).
      apply IH.
      * cbn [List.length] in *. lia.
      * destruct pre; discriminate.
      * discriminate.
      * exact X2.
    + rewrite !includes_dot_app. cbn. now rewrite !orb_true_r.
Qed.

Lemma translateKey_loop_step (fuel i : nat) (arr : list string) (clazz tKey : string)
  (lkp : bool) (mixins : list string) :
  translateKey_loop (S fuel) i arr clazz tKey lkp mixins =
    match nth_error arr i with
    | None => (tKey, lkp, mixins)
    | Some element =>
        if String.eqb element "$lookup" then
          let tKey1 := tKey +s+ str_or_undefined (nth_error arr (S i)) +s+ "_lookup" in
          let km := checkMixinKey tKey1 clazz mixins in
          translateKey_loop fuel (S (S i)) arr clazz (fst km) true (snd km)
        else
          let tKey1 := if negb (endsWith "." tKey) && (0 <? i)%nat then tKey +s+ "." else tKey in
          let tKey2 := tKey1 +s+ element in
          let tKey3 := if negb (i =? List.length arr - 1)%nat then tKey2 +s+ "." else tKey2 in
          let km := checkMixinKey tKey3 clazz mixins in
          translateKey_loop fuel (S i) arr clazz (fst km) lkp (snd km)
    end.
Proof. reflexivity. Qed.

(** X11. [translateKey] returns a dotted path unchanged, not flagged as a
    lookup and without touching the set of mixins, when none of its
    segments is empty or is the marker [$lookup]; a key without a dot goes
    through the mixin check alone. *)
Theorem translateKey_plain_path (key clazz : string) (mixins : list string) :
  forallb nonempty (split_on "."%char key) = true ->
  existsb (String.eqb "$lookup") (split_on "."%char key) = false ->
  translateKey key clazz mixins =
    if includes "." key then (key, false, mixins)
    else (fst (checkMixinKey key clazz mixins), false, snd (checkMixinKey key clazz mixins)).
Proof.
  intros NE NL. unfold translateKey. rewrite (filter_all _ _ _ NE).
  pose proof (split_on_dot key) as D. pose proof (join_split "."%char key) as J.
  destruct (includes "." key).
  - destruct D as [a [b [rest E]]]. rewrite E in *.
    cbn [existsb] in NL. apply orb_false_elim in NL. destruct NL as [NL1 NL2].
    pose proof (translateKey_loop_plain clazz mixins (b :: rest) [a]
                  (List.length (b :: rest)) (Nat.le_refl _) ltac:(discriminate)
                  ltac:(discriminate) NL2) as L.
    change ([a] ++ b :: rest) with (a :: b :: rest) in L. rewrite J in L.
    change (List.length [a]) with 1%nat in L. change (join "." [a]) with a in L.
    change (List.length (a :: b :: rest)) with (S (List.length (b :: rest))).
    rewrite translateKey_loop_step. cbn [nth_error].
    rewrite String.eqb_sym in NL1. rewrite NL1.
    change (negb (endsWith "." "") && (0 <? 0)%nat) with false. cbn iota.
    change (0 =? List.length (a :: b :: rest) - 1)%nat with false. cbn [negb].
    change ("" +s+ a) with a.
    rewrite checkMixinKey_dotted.
    + cbn [fst snd]. exact L.
    + rewrite includes_dot_app. cbn. now rewrite orb_true_r.
  - rewrite D. cbn [List.length translateKey_loop nth_error].
    rewrite D in NL. cbn [existsb] in NL. rewrite orb_false_r, String.eqb_sym in NL. rewrite NL.
    change (endsWith "." "") with false. cbn [negb andb Nat.ltb Nat.leb Nat.eqb Nat.sub].
    cbn [String.append]. reflexivity.
Qed.

(** X12. [checkMixinKey] is idempotent: checking a key it has returned
    returns that key again.  It changes a key only by putting the name of
    the mixin that owns the attribute and a dot before it, and then adds
    that mixin to the set; in every other case key and set are returned as
    they are. *)
Theorem checkMixinKey_idempotent (key clazz : string) (mixins mixins' : list string) :
  fst (checkMixinKey (fst (checkMixinKey key clazz mixins)) clazz mixins') =
    fst (checkMixinKey key clazz mixins) /\
  (checkMixinKey key clazz mixins = (key, mixins) \/
   exists attr,
     findAttribute h clazz key = Some attr /\ isMixin h (attributeOf attr) = true /\
     includes "." key = false /\
     checkMixinKey key clazz mixins =
       (attributeOf attr +s+ "." +s+ key, set_add mixins (attributeOf attr))).
Proof.
  unfold checkMixinKey at 2 3 4 5.
  destruct (includes "." key) eqn:I; cbn [negb].
  - cbn [fst]. rewrite checkMixinKey_dotted by exact I. auto.
  - destruct (findAttribute h clazz key) as [attr|] eqn:A.
    + destruct (isMixin h (attributeOf attr)) eqn:M.
      * cbn [fst]. split.
        -- rewrite checkMixinKey_dotted; [reflexivity|].
           rewrite !includes_dot_app. change (includes "." ".") with true.
           cbn [orb]. apply orb_true_r.
        -- right. exists attr. auto.
      * cbn [fst]. split; [|now left]. unfold checkMixinKey. now rewrite I, A, M.
    + cbn [fst]. split; [|now left]. unfold checkMixinKey. now rewrite I, A.
Qed.

(** *** The update map *)

Lemma map_get_set (m : list (string * JsObj)) (k k' : string) (v : JsObj) :
  map_get (map_set m k v) k' = if String.eqb k k' then Some v else map_get m k'.
Proof.
  induction m as [|[a b] m IH]; cbn [map_set map_get].
  - reflexivity.
  - destruct (String.eqb a k) eqn:E.
    + apply String.eqb_eq in E. subst a. cbn [map_get]. now destruct (String.eqb k k').
    + cbn [map_get]. destruct (String.eqb a k') eqn:E'; [|exact IH].
      apply String.eqb_eq in E'. subst a. rewrite String.eqb_sym in E. now rewrite E.
Qed.

(** X13. A flat update only touches the entry of its document in the
    update map: the entry is created if there was none, a key the update
    carries (its fields, the provenance fields and the null digest) gets
    the new value and every other key of the entry keeps the value it had;
    the entries of other documents, the inserts, the explicit operations
    and the deferred calls are left as they were. *)
Theorem flat_update_coalesces (b : OperationBulk) (t : Tx) :
  isOperator core (operations t) = false ->
  exists b' patch,
    txUpdateDoc b t = Ok b' /\
    add b' = add b /\ bulkOperations b' = bulkOperations b /\ raw b' = raw b /\
    findUpdate b' = (if retrieve t then set_add (findUpdate b) (objectId t) else findUpdate b) /\
    map_get (update b') (objectId t) = Some patch /\
    (forall id, id <> objectId t -> map_get (update b') id = map_get (update b) id) /\
    (forall k,
       obj_get patch k =
         if obj_has (flat_patch t) k then obj_get (flat_patch t) k
         else match map_get (update b) (objectId t) with
              | Some old => obj_get old k
              | None => JUndef
              end) /\
    obj_get patch HASH = JNull.
Proof.
  intros O. unfold txUpdateDoc. rewrite O. fold (flat_patch t).
  set (old := match map_get (update b) (objectId t) with Some u => u | None => [] end).
  exists (if retrieve t
          then with_findUpdate (coalesce b (objectId t) (flat_patch t))
                 (set_add (findUpdate (coalesce b (objectId t) (flat_patch t))) (objectId t))
          else coalesce b (objectId t) (flat_patch t)),
         (obj_assign old (flat_patch t)).
  destruct (flat_patch_digest t) as [ND [HH HG]].
  assert (G : forall k, obj_get (obj_assign old (flat_patch t)) k =
                        if obj_has (flat_patch t) k then obj_get (flat_patch t) k
                        else obj_get old k).
  { intros k. now apply obj_get_assign. }
  split; [now destruct (retrieve t)|].
  repeat split.
  - now destruct (retrieve t).
  - now destruct (retrieve t).
  - now destruct (retrieve t).
  - now destruct (retrieve t).
  - destruct (retrieve t); cbn [update with_findUpdate coalesce with_update];
      rewrite map_get_set, String.eqb_refl; reflexivity.
  - intros id N. apply not_eq_sym in N. apply String.eqb_neq in N.
    destruct (retrieve t); cbn [update with_findUpdate coalesce with_update];
      rewrite map_get_set, N; reflexivity.
  - intros k. rewrite G. subst old. destruct (obj_has (flat_patch t) k); [reflexivity|].
    now destruct (map_get (update b) (objectId t)).
  - rewrite G, HH. exact HG.
Qed.

(** *** The calls of [tx] *)

Lemma proper_step_refl (w w' : World) :
  bulkOps w' = bulkOps w -> calls w' = calls w -> proper_step w w'.
Proof.
  intros B C. split; [congruence|]. exists []. rewrite app_nil_r. split; [exact C|].
  intros d ops [].
Qed.

Lemma proper_step_trans (w1 w2 w3 : World) :
  proper_step w1 w2 -> proper_step w2 w3 -> proper_step w1 w3.
Proof.
  intros [B1 [n1 [C1 N1]]] [B2 [n2 [C2 N2]]]. split; [auto|].
  exists (n1 ++ n2). rewrite C2, C1, app_assoc. split; [reflexivity|].
  intros d ops I. apply in_app_or in I. destruct I; eauto.
Qed.

Lemma proper_step_other (w : World) (cs : list NativeCall) :
  (forall c, In c cs -> is_bulk_write c = false) ->
  proper_step w (with_calls w (calls w ++ cs)).
Proof.
  intros N. split; [auto|]. exists cs. split; [reflexivity|].
  intros d ops I. apply N in I. discriminate.
Qed.

Lemma _pushBulk_proper (w : World) : proper_step w (_pushBulk w) /\ bulkOps (_pushBulk w) = [].
Proof.
  unfold _pushBulk.
  assert (G : forall bulk w0,
             let w1 := fold_left (fun w dops =>
                                    match snd dops with
                                    | [] => w
                                    | ops => with_calls w (calls w ++ [BulkWrite (fst dops) ops])
                                    end) bulk w0 in
             bulkOps w1 = bulkOps w0 /\
             exists new, calls w1 = calls w0 ++ new /\
               forall d ops, In (BulkWrite d ops) new -> ops <> []).
  { induction bulk as [|[d ops] bulk IH]; intros w0; cbn [fold_left fst snd].
    - split; [reflexivity|]. exists []. rewrite app_nil_r. split; [reflexivity|]. intros ? ? [].
    - destruct ops as [|op ops]; [apply IH|].
      destruct (IH (with_calls w0 (calls w0 ++ [BulkWrite d (op :: ops)]))) as [B [new [C N]]].
      cbn zeta. split; [exact B|].
      exists (BulkWrite d (op :: ops) :: new). rewrite C. cbn [calls with_calls].
      rewrite <- app_assoc. split; [reflexivity|].
      intros d' ops' [E|I]; [injection E as <- <-; discriminate|eauto]. }
  destruct (G (bulkOps w) (with_bulkOps w [])) as [B C]. cbn zeta in B, C.
  cbn [bulkOps calls with_bulkOps] in B, C. split; [|exact B].
  split; [intros _; exact B|exact C].
Qed.

Lemma pushBulk_proper (w : World) (dom : string) (ops : list BulkOp) :
  proper_step w (pushBulk w dom ops).
Proof.
  unfold pushBulk.
  set (w1 := match ops_get (bulkOps w) dom with Some _ => _ | None => _ end).
  assert (C1 : calls w1 = calls w) by (subst w1; destruct (ops_get (bulkOps w) dom); reflexivity).
  destruct (_pushBulk_proper w1) as [[_ [new [C N]]] B].
  split; [intros _; exact B|]. exists new. rewrite C, C1. auto.
Qed.

Lemma txDomain_proper (w w' : World) (dom : string) (txs : list Tx) :
  txDomain w dom txs = Ok w' -> proper_step w w'.
Proof.
  unfold txDomain. destruct (updateAll (emptyBulk, console w) txs) as [st|]; [|discriminate].
  cbn [bind]. destruct (bulk_is_empty (fst st)).
  - intros E. injection E as <-. now apply proper_step_refl.
  - intros E. injection E as <-.
    repeat match goal with
           | |- proper_step ?a (if ?c then ?x else ?y) =>
               apply (proper_step_trans a y); [|destruct c; [|now apply proper_step_refl]]
           end.
    + now apply proper_step_refl.
    + now apply proper_step_refl.
    + now apply proper_step_refl.
    + now apply proper_step_refl.
    + apply pushBulk_proper.
    + apply proper_step_other. intros c [<-|[]]. reflexivity.
    + apply proper_step_other. intros c I. apply in_map_iff in I.
      destruct I as [r [<- _]]. reflexivity.
Qed.

Lemma txDomains_proper (byDomain : list (option string * list Tx)) :
  forall w w', txDomains w byDomain = Ok w' -> proper_step w w'.
Proof.
  induction byDomain as [|[[dom|] txs] rest IH]; intros w w' E; cbn [txDomains] in E.
  - injection E as <-. now apply proper_step_refl.
  - destruct (txDomain w dom txs) as [w1|] eqn:D; [|discriminate]. cbn [bind] in E.
    apply (proper_step_trans w w1); [now apply (txDomain_proper w w1 dom txs)|now apply IH].
  - now apply IH.
Qed.

(** X14. Whatever the batch, [tx] never calls [bulkWrite] with an empty
    list of operations (a domain without operations is skipped), it only
    adds to the calls made before, and when nothing was pending before it
    nothing is pending after it. *)
Theorem tx_writes_are_not_empty (w w' : World) (txes : list Tx) :
  tx w txes = Ok w' ->
  (bulkOps w = [] -> bulkOps w' = []) /\
  exists new, calls w' = calls w ++ new /\
    forall d ops, In (BulkWrite d ops) new -> ops <> [].
Proof. unfold tx. apply txDomains_proper. Qed.

Lemma group_add_none (g : list (option string * list Tx)) (t : Tx) :
  filter of_domain (group_add g None t) = filter of_domain g.
Proof.
  induction g as [|[[d|] ts] g IH]; cbn [group_add filter of_domain fst]; [reflexivity| |reflexivity].
  now rewrite IH.
Qed.

Lemma group_add_some (g : list (option string * list Tx)) (d : string) (t : Tx) :
  filter of_domain (group_add g (Some d) t) = group_add (filter of_domain g) (Some d) t.
Proof.
  induction g as [|[[d'|] ts] g IH]; cbn [group_add filter of_domain fst]; [reflexivity| |exact IH].
  destruct (String.eqb d' d); cbn [filter of_domain fst group_add]; [reflexivity|].
  now rewrite IH.
Qed.

Lemma groups_of_domains (key : Tx -> option string) (txs : list Tx) :
  forall g,
    filter of_domain (fold_left (fun g t => group_add g (key t) t) txs g) =
    fold_left (fun g t => group_add g (key t) t)
              (filter (fun t => match key t with Some _ => true | None => false end) txs)
              (filter of_domain g).
Proof.
  induction txs as [|t txs IH]; intros g; cbn [fold_left filter]; [reflexivity|].
  rewrite IH. destruct (key t) as [d|] eqn:E; cbn [fold_left]; rewrite ?E.
  - now rewrite group_add_some.
  - now rewrite group_add_none.
Qed.

Lemma txDomains_of_domains (byDomain : list (option string * list Tx)) :
  forall w, txDomains w byDomain = txDomains w (filter of_domain byDomain).
Proof.
  induction byDomain as [|[[dom|] txs] rest IH]; intros w;
    cbn [txDomains filter of_domain fst]; [reflexivity| |apply IH].
  destruct (txDomain w dom txs); cbn [bind]; [apply IH|reflexivity].
Qed.

(** X15. [tx] handles a batch as if the transactions that are not CUD
    transactions, or whose class has no domain, were not in it (the groups
    of [groupByArray] being the transactions of one key, in their order);
    a batch of such transactions only makes no call, writes no line and
    raises no event. *)
Theorem tx_skips_without_domain (w : World) (txes : list Tx) :
  tx w txes = tx w (filter has_domain txes) /\
  (forallb (fun t => negb (has_domain t)) txes = true -> tx w txes = Ok w).
Proof.
  set (key := fun it : Tx =>
                if isExtendsCUD core (tx_class it) then findDomain h (objectClass it) else None).
  assert (K : forall l, filter (fun t => match key t with Some _ => true | None => false end) l
                        = filter has_domain l).
  { intros l. apply filter_ext. intros t. unfold key, has_domain.
    now destruct (isExtendsCUD core (tx_class t)). }
  assert (E : tx w txes = tx w (filter has_domain txes)).
  { unfold tx. fold key. rewrite txDomains_of_domains.
    rewrite (txDomains_of_domains (groupByArray (filter has_domain txes) key)).
    unfold groupByArray. rewrite !groups_of_domains, !K. now rewrite filter_filter_same. }
  split; [exact E|]. intros F. rewrite E.
  replace (filter has_domain txes) with (@nil Tx); [reflexivity|].
  symmetry. clear -F. induction txes as [|t txes IH]; [reflexivity|].
  cbn [forallb filter] in *. apply andb_true_iff in F. destruct F as [F1 F2].
  apply negb_true_iff in F1. rewrite F1. now apply IH.
Qed.

(** *** Mixin attributes at every depth *)

Lemma namespaced_obj (m : string) (o : JsObj) :
  namespaced m (JObj o) =
    forallb (fun kv : string * JsVal =>
               if startsWith "$" (fst kv) then namespaced m (snd kv)
               else startsWith (m +s+ ".") (fst kv)) o.
Proof.
  induction o as [|[k x] o IH]; [reflexivity|].
  cbn [forallb fst snd]. rewrite <- IH. reflexivity.
Qed.

Lemma prefix_app (a b : string) : String.prefix a (a +s+ b) = true.
Proof.
  induction a as [|c a IH]; [now destruct b|].
  cbn [String.append String.prefix]. destruct (ascii_dec c c); [exact IH|congruence].
Qed.

Lemma mixin_key_no_operator (m x : string) :
  startsWith "$" m = false -> startsWith "$" (m +s+ "." +s+ x) = false.
Proof.
  unfold startsWith. destruct m as [|c m]; [reflexivity|].
  cbn [String.append String.prefix]. intros H.
  destruct (ascii_dec "$"%char c); [|reflexivity]. destruct m; discriminate.
Qed.

Lemma obj_set_forallb (P : string * JsVal -> bool) (o : JsObj) (k : string) (v : JsVal) :
  forallb P o = true -> P (k, v) = true -> forallb P (obj_set o k v) = true.
Proof.
  intros F Hv. induction o as [|[k' v'] o IH]; cbn [obj_set forallb] in *.
  - now rewrite Hv.
  - apply andb_true_iff in F. destruct F as [F1 F2].
    destruct (String.eqb k' k) eqn:E; cbn [forallb].
    + apply String.eqb_eq in E. subst k'. now rewrite Hv, F2.
    + now rewrite F1, IH.
Qed.

Lemma mixin_entry_namespaced (m k : string) (v : JsVal) :
  startsWith "$" m = false ->
  (fun kv : string * JsVal =>
     if startsWith "$" (fst kv) then namespaced m (snd kv)
     else startsWith (m +s+ ".") (fst kv)) (m +s+ "." +s+ k, v) = true.
Proof.
  intros N. cbn [fst snd]. rewrite (mixin_key_no_operator m k N).
  rewrite <- append_dot_assoc. apply prefix_app.
Qed.

Lemma flat_namespaced (m : string) (es attrs : JsObj) :
  startsWith "$" m = false ->
  namespaced m (JObj attrs) = true ->
  namespaced m (JObj (fold_left (fun attrs kv => obj_set attrs (m +s+ "." +s+ fst kv) (snd kv))
                                es attrs)) = true.
Proof.
  intros N. revert attrs. induction es as [|[k v] es IH]; intros attrs F; [exact F|].
  cbn [fold_left fst snd]. apply IH. rewrite namespaced_obj in *.
  apply obj_set_forallb; [exact F|]. now apply mixin_entry_namespaced.
Qed.

Lemma sentinel_namespaced (m : string) (attrs : JsObj) (count : nat) :
  startsWith "$" m = false ->
  namespaced m (JObj attrs) = true ->
  namespaced m (JObj (if (count =? 0)%nat
                      then obj_set attrs (m +s+ "." +s+ "__mixin") (JStr "true")
                      else attrs)) = true.
Proof.
  intros N F. destruct (count =? 0)%nat; [|exact F]. rewrite namespaced_obj in *.
  apply obj_set_forallb; [exact F|]. now apply mixin_entry_namespaced.
Qed.

Lemma translateMixinAttrs_deep (m : string) :
  startsWith "$" m = false ->
  forall attributes attrs,
    translateMixinAttrs m attributes = Ok attrs -> namespaced m (JObj attrs) = true.
Proof.
  intros N attributes.
  induction attributes as [| |b|n|s|l _|o IHo] using JsVal_children_ind; intros attrs H;
    cbn [translateMixinAttrs] in H; try discriminate.
  - injection H as <-. exact (sentinel_namespaced m [] 0 N eq_refl).
  - injection H as <-. exact (sentinel_namespaced m [] 0 N eq_refl).
  - injection H as <-. apply sentinel_namespaced; [exact N|]. now apply flat_namespaced.
  - injection H as <-. apply sentinel_namespaced; [exact N|]. now apply flat_namespaced.
  - assert (G : forall (es acc : JsObj) (c : nat) (r : JsObj),
               Forall (fun kv : string * JsVal =>
                         forall attrs, translateMixinAttrs m (snd kv) = Ok attrs ->
                                       namespaced m (JObj attrs) = true) es ->
               namespaced m (JObj acc) = true ->
               (fix loop (es : list (string * JsVal)) (attrs : JsObj) (count : nat) {struct es}
                  : Res JsObj :=
                  match es with
                  | [] => Ok (if (count =? 0)%nat
                              then obj_set attrs (m +s+ "." +s+ "__mixin") (JStr "true") else attrs)
                  | (k, v) :: es' =>
                      if startsWith "$" k
                      then match translateMixinAttrs m v with
                           | Ok sub => loop es' (obj_set attrs k (JObj sub)) (S count)
                           | Throw msg => Throw msg
                           end
                      else loop es' (obj_set attrs (m +s+ "." +s+ k) v) (S count)
                  end) es acc c = Ok r ->
               namespaced m (JObj r) = true).
    { induction es as [|[k v] es IH]; intros acc c r Q F E.
      - injection E as <-. now apply sentinel_namespaced.
      - inversion Q as [|? ? Hv Q']; subst. cbn [snd] in Hv.
        destruct (startsWith "$" k) eqn:D.
        + destruct (translateMixinAttrs m v) as [sub|] eqn:S; [|discriminate].
          apply (IH (obj_set acc k (JObj sub))) in E; [exact E|exact Q'|].
          rewrite namespaced_obj in *. apply obj_set_forallb; [exact F|].
          cbn [fst snd]. rewrite D. now apply Hv.
        + apply (IH (obj_set acc (m +s+ "." +s+ k) v)) in E; [exact E|exact Q'|].
          rewrite namespaced_obj in *. apply obj_set_forallb; [exact F|].
          now apply mixin_entry_namespaced. }
    exact (G o [] 0%nat attrs IHo eq_refl H).
Qed.

Lemma obj_set_nonempty (a : JsObj) (k : string) (v : JsVal) : obj_set a k v <> [].
Proof.
  destruct a as [|[k' v'] a]; cbn [obj_set]; [discriminate|].
  destruct (String.eqb k' k); discriminate.
Qed.

Lemma flat_nonempty (m : string) (es a : JsObj) :
  a <> [] ->
  fold_left (fun attrs kv => obj_set attrs (m +s+ "." +s+ fst kv) (snd kv)) es a <> [].
Proof.
  revert a. induction es as [|kv es IH]; intros a Ha; [exact Ha|].
  cbn [fold_left]. apply IH, obj_set_nonempty.
Qed.

Lemma translateMixinAttrs_nonempty (m : string) (attributes : JsVal) (attrs : JsObj) :
  translateMixinAttrs m attributes = Ok attrs -> attrs <> [].
Proof.
  destruct attributes as [| |b|n|s|l|o]; cbn [translateMixinAttrs]; try discriminate.
  - intros H. injection H as <-. discriminate.
  - intros H. injection H as <-. discriminate.
  - intros H. injection H as <-. destruct s as [|c s]; [discriminate|].
    cbn [String.length Nat.eqb str_entries_from fold_left]. apply flat_nonempty, obj_set_nonempty.
  - intros H. injection H as <-. destruct l as [|x l]; [discriminate|].
    cbn [List.length Nat.eqb arr_entries_from fold_left]. apply flat_nonempty, obj_set_nonempty.
  - assert (G : forall (es a : JsObj) (c : nat) (r : JsObj),
               (a = [] -> c = 0%nat) ->
               (fix loop (es : list (string * JsVal)) (attrs : JsObj) (count : nat) {struct es}
                  : Res JsObj :=
                  match es with
                  | [] => Ok (if (count =? 0)%nat
                              then obj_set attrs (m +s+ "." +s+ "__mixin") (JStr "true") else attrs)
                  | (k, v) :: es' =>
                      if startsWith "$" k
                      then match translateMixinAttrs m v with
                           | Ok sub => loop es' (obj_set attrs k (JObj sub)) (S count)
                           | Throw msg => Throw msg
                           end
                      else loop es' (obj_set attrs (m +s+ "." +s+ k) v) (S count)
                  end) es a c = Ok r -> r <> []).
    { induction es as [|[k v] es IH]; intros a c r Hc E.
      - injection E as <-. destruct c as [|c]; cbn [Nat.eqb]; [apply obj_set_nonempty|].
        intros Z. apply Hc in Z. discriminate.
      - destruct (startsWith "$" k).
        + destruct (translateMixinAttrs m v); [|discriminate].
          revert E. apply IH. intros Z. exfalso. revert Z. apply obj_set_nonempty.
        + revert E. apply IH. intros Z. exfalso. revert Z. apply obj_set_nonempty. }
    apply G. reflexivity.
Qed.

(** X16. The attributes [translateMixinAttrs] returns lie under the name
    of the mixin at every depth: each key that is not an operator starts
    with the mixin's name and a dot, and what each operator holds has been
    translated in the same way (the mixin's name not starting with a dollar
    sign).  The result is never the empty object: without attributes it
    holds the sentinel field. *)
Theorem translateMixinAttrs_namespaced (m : string) (attributes : JsVal) (attrs : JsObj) :
  startsWith "$" m = false ->
  translateMixinAttrs m attributes = Ok attrs ->
  namespaced m (JObj attrs) = true /\ attrs <> [].
Proof.
  intros N H. split.
  - now apply (translateMixinAttrs_deep m N attributes).
  - now apply (translateMixinAttrs_nonempty m attributes).
Qed.

(** *** Operator updates and collection transactions *)

(** X18. An update in operator form other than [$move] and [$update] is
    passed on with all its operators as they are, but for [$set], which
    holds the provenance fields and the null digest; it is one explicit
    operation of the bulk, or one deferred [findOneAndUpdate] when the
    transaction asks for the document. *)
Theorem operator_update_forwarded (b : OperationBulk) (t : Tx) (ks : list string) :
  isOperator core (operations t) = true ->
  js_keys (operations t) = Ok ks ->
  first_key ks <> JStr "$move" -> first_key ks <> JStr "$update" ->
  exists upd,
    txUpdateDoc b t =
      Ok (if retrieve t
          then with_raw b (raw b ++ [{| raw_domain := getDomain h (objectClass t);
                                        raw_filter := id_filter (objectId t);
                                        raw_update := upd |}])
          else with_bulkOperations b
                 (bulkOperations b ++ [UpdateOne (id_filter (objectId t)) upd])) /\
    obj_get upd "$set" = JObj (modifyHashOp t) /\
    forall k, k <> "$set" ->
      obj_get upd k = obj_get (spread (operations t)) k /\
      obj_has upd k = obj_has (spread (operations t)) k.
Proof.
  intros O K M U. unfold txUpdateDoc. rewrite O, K. cbn [bind].
  assert (EM : JsVal_eqb (first_key ks) (JStr "$move") = false).
  { destruct (JsVal_eqb (first_key ks) (JStr "$move")) eqn:E; [|reflexivity].
    apply JsVal_eqb_eq in E. congruence. }
  assert (EU : JsVal_eqb (first_key ks) (JStr "$update") = false).
  { destruct (JsVal_eqb (first_key ks) (JStr "$update")) eqn:E; [|reflexivity].
    apply JsVal_eqb_eq in E. congruence. }
  rewrite EM, EU.
  exists (obj_set (spread (operations t)) "$set" (JObj (modifyHashOp t))).
  split; [now destruct (retrieve t)|]. split; [apply obj_get_set_same|].
  intros k N. split; [apply obj_get_set_other|apply obj_has_set_other]; congruence.
Qed.

(** X19. A collection transaction that wraps a create is translated as
    that create with the three attachment fields added to its attributes:
    [attachedTo], [attachedToClass] and [collection] are those of the
    collection transaction, also when the create carries attributes of
    these names, and every other attribute is the create's.  A collection
    transaction that wraps anything else is translated as what it wraps. *)
Theorem collection_create_attached (b : OperationBulk) (log : list string) (t c : Tx) :
  tx_class t = core_class_TxCollectionCUD ->
  inner t = Some c ->
  (tx_class c = core_class_TxCreateDoc ->
   exists d attrs,
     updateBulk (b, log) t = Ok (with_add b (add b ++ [translateDoc (createDoc2Doc core d)]), log) /\
     objectId d = objectId c /\ objectClass d = objectClass c /\ objectSpace d = objectSpace c /\
     modifiedBy d = modifiedBy c /\ modifiedOn d = modifiedOn c /\
     attributes d = JObj attrs /\
     obj_get attrs "attachedTo" = JStr (objectId t) /\
     obj_get attrs "attachedToClass" = JStr (objectClass t) /\
     obj_get attrs "collection" = JStr (collection t) /\
     forall k, k <> "attachedTo" -> k <> "attachedToClass" -> k <> "collection" ->
       obj_get attrs k = obj_get (spread (attributes c)) k) /\
  (tx_class c <> core_class_TxCreateDoc -> updateBulk (b, log) t = updateBulk (b, log) c).
Proof.
  intros T I.
  assert (E : updateBulk (b, log) t = txCollectionCUD updateBulk (b, log) t).
  { destruct t. cbn [tx_class] in T. subst. reflexivity. }
  rewrite E. unfold txCollectionCUD. rewrite I. split; intros C.
  - rewrite C, String.eqb_refl. unfold txCreateDoc. cbn [bind fst snd].
    eexists. eexists. split; [reflexivity|]. cbn [objectId objectClass objectSpace modifiedBy
                                                  modifiedOn attributes].
    repeat split.
    + cbn [obj_assign fold_left fst snd].
      rewrite obj_get_set_other by discriminate. rewrite obj_get_set_other by discriminate.
      apply obj_get_set_same.
    + cbn [obj_assign fold_left fst snd].
      rewrite obj_get_set_other by discriminate. apply obj_get_set_same.
    + cbn [obj_assign fold_left fst snd]. apply obj_get_set_same.
    + intros k N1 N2 N3. cbn [obj_assign fold_left fst snd].
      rewrite !obj_get_set_other by congruence. reflexivity.
  - apply String.eqb_neq in C. rewrite C. reflexivity.
Qed.

(** *** An upload read back by the scan *)

Lemma obj_delete_NoDup (o : JsObj) (k : string) :
  NoDup (obj_keys o) -> NoDup (obj_keys (obj_delete o k)).
Proof.
  unfold obj_keys. induction o as [|[a b] o IH]; cbn [obj_delete map fst]; intros N; [constructor|].
  inversion N as [|? ? Na No]; subst.
  destruct (String.eqb a k); [now apply IH|]. cbn [map fst]. constructor; [|now apply IH].
  intros I. apply Na. clear -I. induction o as [|[a' b'] o IH]; cbn [obj_delete map fst] in *; [exact I|].
  destruct (String.eqb a' k); [right; now apply IH|].
  cbn [map fst In] in I. destruct I as [E|I]; [now left|right; now apply IH].
Qed.

Lemma obj_get_copy (o : JsObj) (k : string) :
  NoDup (obj_keys o) -> obj_get (obj_assign [] o) k = obj_get o k.
Proof.
  intros N. rewrite obj_get_assign by exact N.
  destruct (obj_has o k) eqn:E; [reflexivity|]. symmetry. now apply obj_get_absent.
Qed.

(** X17. An upload is read back by the scan.  A document uploaded with a
    digest [hash] (a string without a bar) is stored with the digest
    [hash|sizeHex]; the change-hash iterator takes it for a document with a
    digest and yields its id, [hash] and its size as uploaded, computing
    nothing.  A document uploaded without a digest is stored with a null
    digest and is taken for a document without one. *)
Theorem upload_then_scan (doc : JsObj) (it : FindIter) :
  NoDup (obj_keys doc) ->
  let stored := replacement_of (uploadOp doc) in
  digest_typed stored = true /\
  (forall hash,
     obj_get doc HASH = JStr hash -> indexOf "|"%char hash = None ->
     (0 <= calculateObjectSize core (stripHash1 doc))%Z ->
     is_hashed stored = true /\
     yield (project_hash_id stored) it =
       Ok (Some {| cr_id := obj_get doc "_id"; cr_hash := hash;
                   cr_size := Some (calculateObjectSize core (stripHash1 doc)) |}, it)) /\
  (is_nullish (obj_get doc HASH) = true ->
   obj_get stored HASH = JNull /\ is_hashed stored = false).
Proof.
  intros N stored.
  assert (Es : stored =
               obj_set (obj_assign [] (stripHash1 doc)) HASH
                 (if is_nullish (obj_get doc HASH) then JNull
                  else JStr (template_string (obj_get doc HASH) +s+ "|" +s+
                             toString16 (calculateObjectSize core (stripHash1 doc))))).
  { reflexivity. }
  assert (T : digest_typed stored = true).
  { rewrite Es. unfold digest_typed. rewrite obj_get_set_same.
    now destruct (is_nullish (obj_get doc HASH)). }
  split; [exact T|]. split.
  - intros hash G B S.
    assert (H : is_hashed stored = true).
    { rewrite Es, G. cbn [is_nullish template_string]. apply hashed_set, entry_nonempty. }
    split; [exact H|]. rewrite (yield_stored stored it T H). do 2 f_equal.
    unfold stored_record.
    assert (Eh : obj_get stored HASH =
                 JStr (hash +s+ "|" +s+ toString16 (calculateObjectSize core (stripHash1 doc)))).
    { rewrite Es, G. cbn [is_nullish template_string]. apply obj_get_set_same. }
    assert (Ei : obj_get stored "_id" = obj_get doc "_id").
    { rewrite Es, obj_get_set_other by discriminate.
      rewrite obj_get_copy; [apply stripHash1_id|].
      unfold stripHash1. destruct (obj_has doc HASH); [now apply obj_delete_NoDup|exact N]. }
    rewrite Eh, Ei. cbn [template_string].
    destruct (digest_entry_round_trip hash _ B S) as [R1 R2]. now rewrite R1, R2.
  - intros Z. rewrite Es, Z. split; [apply obj_get_set_same|].
    unfold is_hashed, in_values. now rewrite obj_get_set_same, obj_has_set_same.
Qed.

(** *** [toArray] *)

Lemma fetch_batch_spec (bs : list (list JsObj)) :
  match fetch_batch bs with
  | None => concat bs = []
  | Some (d, c) =>
      concat bs = d :: buffered c ++ concat (batches c) /\
      List.length (batches c) < List.length bs
  end.
Proof.
  induction bs as [|[|d rest] bs IH]; cbn [fetch_batch concat app].
  - reflexivity.
  - destruct (fetch_batch bs) as [[d c]|]; [|exact IH].
    destruct IH as [E L]. split; [exact E|]. cbn [List.length]. lia.
  - cbn [buffered batches List.length]. split; [reflexivity|lia].
Qed.

Lemma toArray_drained (fuel : nat) :
  forall (bs : list (list JsObj)) (data : list JsObj),
    List.length bs < fuel ->
    toArray fuel {| buffered := []; batches := bs |} data = Some (data ++ concat bs).
Proof.
  induction fuel as [|fuel IH]; intros bs data L; [lia|].
  cbn [toArray cursor_read buffered batches].
  pose proof (fetch_batch_spec bs) as F.
  destruct (fetch_batch bs) as [[d c]|].
  - destruct F as [E Lc]. destruct c as [rest bs']. cbn [buffered batches] in *.
    cbn [readBufferedDocuments fst snd buffered batches].
    rewrite IH by lia. rewrite E. f_equal.
    destruct (0 <? List.length rest)%nat eqn:Z.
    + now rewrite <- !app_assoc.
    + apply Nat.ltb_ge in Z. destruct rest; [|cbn in Z; lia].
      now rewrite <- !app_assoc.
  - now rewrite F, app_nil_r.
Qed.

(** X20. [toArray] returns every document of the cursor exactly once and
    in order: the documents the cursor had buffered, then those of the
    batches still to come; its loop ends after at most one round for each
    batch and one more. *)
Theorem toArray_all (fuel : nat) (cursor : Cursor) :
  List.length (batches cursor) + 1 < fuel ->
  toArray fuel cursor [] = Some (buffered cursor ++ concat (batches cursor)).
Proof.
  intros L. destruct cursor as [[|d rest] bs]; cbn [buffered batches] in *.
  - now rewrite toArray_drained by lia.
  - destruct fuel as [|fuel]; [lia|].
    cbn [toArray cursor_read buffered batches readBufferedDocuments fst snd app].
    rewrite toArray_drained by lia. f_equal.
    destruct (0 <? List.length rest)%nat eqn:Z; [reflexivity|].
    apply Nat.ltb_ge in Z. destruct rest; [reflexivity|cbn in Z; lia].
Qed.

(** *** Digest invalidation, document by document *)

Ltac grows_parts :=
  unfold grows; cbn [fst snd bulks add update bulkOperations findUpdate raw
                     with_add with_update with_bulkOperations with_findUpdate with_raw coalesce];
  repeat split;
  try solve [exists []; symmetry; apply app_nil_r | eexists; reflexivity].

Lemma grows_refl (st : OperationBulk * list string) : grows st st.
Proof. grows_parts. Qed.

Lemma grows_trans (s1 s2 s3 : OperationBulk * list string) :
  grows s1 s2 -> grows s2 s3 -> grows s1 s3.
Proof.
  intros [B1 [[a1 A1] [[k1 K1] [[o1 O1] [[f1 F1] [[r1 R1] [l1 L1]]]]]]]
         [B2 [[a2 A2] [[k2 K2] [[o2 O2] [[f2 F2] [[r2 R2] [l2 L2]]]]]]].
  unfold grows. repeat split.
  - congruence.
  - exists (a1 ++ a2). now rewrite A2, A1, app_assoc.
  - exists (k1 ++ k2). now rewrite K2, K1, app_assoc.
  - exists (o1 ++ o2). now rewrite O2, O1, app_assoc.
  - exists (f1 ++ f2). now rewrite F2, F1, app_assoc.
  - exists (r1 ++ r2). now rewrite R2, R1, app_assoc.
  - exists (l1 ++ l2). now rewrite L2, L1, app_assoc.
Qed.

Lemma set_add_app (s : list string) (x : string) : exists ks, set_add s x = s ++ ks.
Proof.
  unfold set_add. destruct (set_has s x); [exists []; now rewrite app_nil_r|now exists [x]].
Qed.

Lemma grows_coalesce (b : OperationBulk) (log : list string) (id : string) (patch : JsObj) :
  grows (b, log) (coalesce b id patch, log).
Proof. grows_parts. rewrite map_set_keys. apply set_add_app. Qed.

Lemma grows_findUpdate (b : OperationBulk) (log : list string) (id : string) :
  grows (b, log) (with_findUpdate b (set_add (findUpdate b) id), log).
Proof. grows_parts. apply set_add_app. Qed.

Lemma txUpdateDoc_grows (b b' : OperationBulk) (log : list string) (t : Tx) :
  txUpdateDoc b t = Ok b' -> grows (b, log) (b', log).
Proof.
  intros H. unfold txUpdateDoc in H.
  destruct (isOperator core (operations t)).
  - ok_steps H. destruct (JsVal_eqb (first_key x) (JStr "$move")).
    + ok_steps H. injection H as <-. grows_parts.
    + destruct (JsVal_eqb (first_key x) (JStr "$update")).
      * ok_steps H. injection H as <-. grows_parts.
      * destruct (retrieve t); injection H as <-; grows_parts.
  - destruct (retrieve t); injection H as <-.
    + set (b1 := coalesce b (objectId t) (obj_assign (spread (operations t)) (modifyHashOp t))).
      apply (grows_trans (b, log) (b1, log));
        [apply grows_coalesce|exact (grows_findUpdate b1 log (objectId t))].
    + apply grows_coalesce.
Qed.

Lemma txMixin_grows (b b' : OperationBulk) (log : list string) (t : Tx) :
  txMixin b t = Ok b' -> grows (b, log) (b', log).
Proof.
  intros H. unfold txMixin in H.
  destruct (isOperator core (attributes t)).
  - ok_steps H. destruct (JsVal_eqb (first_key x) (JStr "$move")).
    + ok_steps H. injection H as <-. grows_parts.
    + ok_steps H. injection H as <-. grows_parts.
  - ok_steps H. injection H as <-. apply grows_coalesce.
Qed.

Lemma updateBulk_grows (t : Tx) :
  forall st st', updateBulk st t = Ok st' -> grows st st'.
Proof.
  induction t as [t IH] using Tx_inner_ind. intros [b log] [b' log'] H.
  destruct t as [c oid ocl osp mby mon attrs ops mx rtr col inn].
  cbn [updateBulk tx_class] in H.
  destruct (String.eqb c core_class_TxCreateDoc).
  { cbn [fst snd] in H. unfold txCreateDoc in H. cbn [bind] in H. injection H as <- <-.
    grows_parts. }
  destruct (String.eqb c core_class_TxCollectionCUD).
  { unfold txCollectionCUD in H. cbn [inner] in H. destruct inn as [ct|]; [|discriminate].
    destruct (String.eqb (tx_class ct) core_class_TxCreateDoc).
    - cbn [fst snd] in H. unfold txCreateDoc in H. cbn [bind] in H. injection H as <- <-.
      grows_parts.
    - now apply (IH ct). }
  destruct (String.eqb c core_class_TxUpdateDoc).
  { cbn [fst snd] in H. ok_steps H. injection H as <- <-. now apply (txUpdateDoc_grows b x log _ E). }
  destruct (String.eqb c core_class_TxRemoveDoc).
  { cbn [fst snd] in H. unfold txRemoveDoc in H. cbn [bind] in H. injection H as <- <-.
    grows_parts. }
  destruct (String.eqb c core_class_TxMixin).
  { cbn [fst snd] in H. ok_steps H. injection H as <- <-. now apply (txMixin_grows b x log _ E). }
  destruct (String.eqb c core_class_TxApplyIf); cbn [fst snd] in H; injection H as <- <-;
    grows_parts.
Qed.


























(** The database model [run_query] answers a request as [findAll] does
    from what the collection finds. *)
Lemma run_query_returns (matches : JsObj -> bool) (lk : JsVal) (c : list JsObj)
  (q : NativeQuery) (r : list JsObj) :
  run_query c q = Some r -> exists found, findAll_returns matches lk q found = Some (Ok r).
Proof.
  destruct q as [? ? ?|dom f [?|] [?|] [|]|dom f [?|] [?|] [?|]]; cbn [run_query];
    try discriminate; destruct (mongo_find c f) as [found|]; try discriminate;
    cbn [option_map]; intros H; injection H as <-; exists found; cbn [findAll_returns].
  - destruct found; reflexivity.
  - reflexivity.
Qed.


(** *** The translator only appends *)

(** X21. Translating a batch only adds to the bulk: the inserts, the ids
    of the update map, the explicit operations, the ids to fetch, the
    deferred calls and the console lines there were keep their place and
    their order, and what the batch brings comes after them. *)
Theorem updateAll_only_appends (txs : list Tx) (st st' : OperationBulk * list string) :
  updateAll st txs = Ok st' ->
  bulks (fst st') = bulks (fst st) /\
  (exists a, add (fst st') = add (fst st) ++ a) /\
  (exists ks, map fst (update (fst st')) = map fst (update (fst st)) ++ ks) /\
  (exists o, bulkOperations (fst st') = bulkOperations (fst st) ++ o) /\
  (exists f, findUpdate (fst st') = findUpdate (fst st) ++ f) /\
  (exists r, raw (fst st') = raw (fst st) ++ r) /\
  (exists l, snd st' = snd st ++ l).
Proof.
  change (updateAll st txs = Ok st' -> grows st st').
  revert st. induction txs as [|t txs IH]; intros st H; cbn [updateAll] in H.
  - injection H as <-. apply grows_refl.
  - destruct (updateBulk st t) as [st1|] eqn:E; [|discriminate]. cbn [bind] in H.
    apply (grows_trans st st1 st'); [now apply (updateBulk_grows t)|now apply IH].
Qed.

End Adapter.

(** ** The properties on concrete data *)

(** C10 at a [TxApplyIf] and at a transaction of an unknown kind. *)
Lemma updateBulk_skips_unsupported_witness :
  translated_kind (tx_class sample_apply_if) = false /\
  translated_kind (tx_class sample_unknown) = false /\
  updateBulk sample_hierarchy model_core (emptyBulk, []) sample_apply_if = Ok (emptyBulk, []) /\
  updateBulk sample_hierarchy model_core (emptyBulk, []) sample_unknown
    = Ok (emptyBulk, ["Unknown/Unsupported operation: foo:class:TxBar"]).
Proof.
  split; [reflexivity|]. split; [reflexivity|]. split.
  - exact (proj1 (proj1 (updateBulk_skips_unsupported sample_hierarchy model_core emptyBulk []
                           sample_apply_if [] eq_refl) eq_refl)).
  - refine (proj1 (proj2 (updateBulk_skips_unsupported sample_hierarchy model_core emptyBulk []
                            sample_unknown [] eq_refl) _)).
    discriminate.
Defined.

(** C2 as stated fails in both directions: a query on a joined field
    without a lookup option goes the fast path, and a lookup option alone
    selects the pipeline.  Nor do the four conditions describe the flag
    [slowPipeline] of the pipeline path: a sort on an enum-typed attribute
    runs the pipeline with the flag off. *)
Lemma findAll_pipeline_counterexample :
  (claimed_slow_path sample_hierarchy "A" [("$lookup.parent.name", JStr "x")] None = true /\
   findAll_path sample_hierarchy "A" [("$lookup.parent.name", JStr "x")] None = ViaCursor /\
   findAll sample_hierarchy model_core "A" [("$lookup.parent.name", JStr "x")] None []
     = Ok (Find "task" [("_class", JObj [("$in", JArr [JStr "A"; JStr "B"])]);
                        ("parent_lookup.name", JStr "x")] None None None)) /\
  (claimed_slow_path sample_hierarchy "A" [] (Some sample_lookup_options) = false /\
   findAll_path sample_hierarchy "A" [] (Some sample_lookup_options) = ViaPipeline /\
   findAll sample_hierarchy model_core "A" [] (Some sample_lookup_options) []
     = Ok (Aggregate "task" false
             [JObj [("$match", JObj [("_class", JObj [("$in", JArr [JStr "A"; JStr "B"])])])]])) /\
  (claimed_slow_path sample_hierarchy "A" [] (Some sample_enum_sort_options) = true /\
   findAll sample_hierarchy model_core "A" [] (Some sample_enum_sort_options) []
     = Ok (Aggregate "task" false
             [JObj [("$match", JObj [("_class", JObj [("$in", JArr [JStr "A"; JStr "B"])])])]])).
Proof. repeat split; reflexivity. Qed.


(** The operation of a flat mixin-apply transaction does not touch the
    digest. *)
Lemma mixin_apply_keeps_digest :
  option_map (fun w => calls w)
    (match tx sample_hierarchy model_core empty_world
             [sample_tx core_class_TxMixin "d1" (JObj [("a", JNum 1)]) JUndef] with
     | Ok w => Some w
     | Throw _ => None
     end)
  = Some [BulkWrite "task"
            [UpdateOne [("_id", JStr "d1")]
               [("$set", JObj [("M.a", JNum 1); ("modifiedBy", JStr "user1");
                               ("modifiedOn", JNum 1700000000000)])]]].
Proof. reflexivity. Qed.


(** C3 on the sample hierarchy, where [B] is a subclass of [A]. *)
Lemma class_scoping_witness :
  let coll := [doc_of 1 "A"; doc_of 2 "B"] in
  run coll (findAll sample_hierarchy model_core "A" [] None []) = Some coll /\
  run coll (findAll sample_hierarchy model_core "A" [("_class", JStr "B")] None []) = Some [doc_of 2 "B"] /\
  run coll (findAll sample_hierarchy model_core "A" []
              (Some {| lookup := JUndef; sort := None; limit := None; projection := None;
                       total := false; skipSpace := false; skipClass := true; domain := None |}) [])
    = Some coll.
Proof.
  refine (proj2 (class_scoping sample_hierarchy model_core "A" [("_class", JStr "B")] None "A" "B" []
                   eq_refl _) _ eq_refl _ _ _ eq_refl eq_refl eq_refl).
  - discriminate.
  - discriminate.
  - discriminate.
  - cbn. auto.
  - cbn. auto.
Defined.

(** C3 as stated fails for a query on [core.class.Doc]: the class condition
    of the query is dropped, and the query for class [B] returns the
    document of class [A] as well. *)
Lemma class_scoping_counterexample :
  translateQuery sample_hierarchy model_core core_class_Doc [("_class", JStr "B")] None = Ok ([], []) /\
  In "B" (getDescendants sample_hierarchy core_class_Doc) /\
  run [doc_of 1 "A"; doc_of 2 "B"]
      (findAll sample_hierarchy model_core core_class_Doc [("_class", JStr "B")] None [])
    = Some [doc_of 1 "A"; doc_of 2 "B"].
Proof. split; [reflexivity|]. split; [cbn; auto | reflexivity]. Qed.

(** C4 at a mixin-apply move of the value [v] to position 1 of [items]. *)
Lemma mixin_move_throws_witness :
  isOperator model_core sample_move = true /\
  txMixin model_core emptyBulk (sample_tx core_class_TxMixin "d1" sample_move JUndef)
    = Throw "TypeError: Cannot read properties of undefined (reading '$value')" /\
  is_ok (tx sample_hierarchy model_core empty_world
           [sample_tx core_class_TxMixin "d1" sample_move JUndef]) = false.
Proof.
  split; [reflexivity|]. split; [|reflexivity].
  exact (mixin_move_throws model_core emptyBulk (sample_tx core_class_TxMixin "d1" sample_move JUndef)
           "items" _ eq_refl eq_refl).
Defined.

(** The same move as an update: pull, then push, and [v] is in the array
    once. *)
Lemma update_move_example :
  match tx sample_hierarchy model_core empty_world
          [sample_tx core_class_TxUpdateDoc "d1" JUndef sample_move] with
  | Ok w =>
      calls w =
        [BulkWrite "task"
           [UpdateOne [("_id", JStr "d1")]
              [("$set", JObj [(HASH, JNull)]); ("$pull", JObj [("items", JStr "v")])];
            UpdateOne [("_id", JStr "d1")]
              [("$set", JObj [("modifiedBy", JStr "user1"); ("modifiedOn", JNum 1700000000000);
                              (HASH, JNull)]);
               ("$push", JObj [("items", JObj [("$each", JArr [JStr "v"]);
                                               ("$position", JNum 1)])])]]]
  | Throw _ => False
  end /\
  (d1 <- mongo_update [("_id", JStr "d1"); ("items", JArr [JStr "a"; JStr "v"; JStr "b"; JStr "v"])]
           [("$set", JObj [(HASH, JNull)]); ("$pull", JObj [("items", JStr "v")])] ;;
   mongo_update d1
     [("$set", JObj [("modifiedBy", JStr "user1"); (HASH, JNull)]);
      ("$push", JObj [("items", JObj [("$each", JArr [JStr "v"]); ("$position", JNum 1)])])])
  = Ok [("_id", JStr "d1"); ("items", JArr [JStr "a"; JStr "v"; JStr "b"]); (HASH, JNull);
        ("modifiedBy", JStr "user1")].
Proof. split; reflexivity. Qed.

(** C5 as stated fails: an id can be in the insert list and in the update
    map, and the update of the map comes before the explicit operations of
    an earlier transaction on the same id. *)
Lemma flush_order_counterexample :
  (exists b log,
     updateAll sample_hierarchy model_core (emptyBulk, [])
       [sample_tx core_class_TxCreateDoc "d1" (JObj [("title", JStr "t")]) JUndef;
        sample_tx core_class_TxUpdateDoc "d1" JUndef (JObj [("title", JStr "u")])] = Ok (b, log) /\
     map (fun d => obj_get d "_id") (add b) = [JStr "d1"] /\
     map fst (update b) = ["d1"]) /\
  match tx sample_hierarchy model_core empty_world
          [sample_tx core_class_TxUpdateDoc "d1" JUndef sample_move;
           sample_tx core_class_TxUpdateDoc "d1" JUndef (JObj [("title", JStr "u")])] with
  | Ok w =>
      calls w =
        [BulkWrite "task"
           [UpdateOne [("_id", JStr "d1")]
              [("$set", JObj [("title", JStr "u"); ("modifiedBy", JStr "user1");
                              ("modifiedOn", JNum 1700000000000); (HASH, JNull)])];
            UpdateOne [("_id", JStr "d1")]
              [("$set", JObj [(HASH, JNull)]); ("$pull", JObj [("items", JStr "v")])];
            UpdateOne [("_id", JStr "d1")]
              [("$set", JObj [("modifiedBy", JStr "user1"); ("modifiedOn", JNum 1700000000000);
                              (HASH, JNull)]);
               ("$push", JObj [("items", JObj [("$each", JArr [JStr "v"]);
                                               ("$position", JNum 1)])])]]]
  | Throw _ => False
  end.
Proof. split; [do 2 eexists; repeat split; reflexivity | reflexivity]. Qed.

(** C5 on the sample batch. *)
Lemma flush_order_witness :
  exists b log w',
    updateAll sample_hierarchy model_core (emptyBulk, []) sample_batch = Ok (b, log) /\
    txDomain sample_hierarchy model_core empty_world "task" sample_batch = Ok w' /\
    calls w' = [BulkWrite "task" (map InsertOne (add b) ++ map updateEntry (update b) ++ bulkOperations b)] /\
    (List.length (add b), List.length (update b), List.length (bulkOperations b)) = (1, 1, 3)%nat.
Proof.
  eexists. eexists.
  assert (E : updateAll sample_hierarchy model_core (emptyBulk, console empty_world) sample_batch
              = Ok (match updateAll sample_hierarchy model_core (emptyBulk, []) sample_batch with
                    | Ok r => r
                    | Throw _ => (emptyBulk, [])
                    end)) by reflexivity.
  destruct (proj2 (flush_order sample_hierarchy model_core empty_world "task" sample_batch _ _
                     eq_refl E)) as [w' [T C]].
  exists w'. split; [exact E|]. split; [exact T|]. split; [exact C | reflexivity].
Defined.

(** C6 on the interleaving update, create, create, update, create. *)
Lemma batch_of_creates_and_updates_witness :
  let c1 := sample_tx core_class_TxCreateDoc "n1" (JObj [("title", JStr "a")]) JUndef in
  let c2 := sample_tx core_class_TxCreateDoc "n2" (JObj [("title", JStr "b")]) JUndef in
  let c3 := sample_tx core_class_TxCreateDoc "n3" (JObj [("title", JStr "c")]) JUndef in
  let u1 := sample_tx core_class_TxUpdateDoc "d1" JUndef (JObj [("title", JStr "u")]) in
  let u2 := sample_tx core_class_TxUpdateDoc "d2" JUndef (JObj [("title", JStr "w")]) in
  exists w' ops rest,
    tx sample_hierarchy model_core empty_world [u1; c1; c2; u2; c3] = Ok w' /\
    calls w' = BulkWrite "task" ops :: rest /\
    (forall c, In c rest -> is_bulk_write c = false) /\
    List.length (filter is_insert ops) = 3%nat /\
    List.length (filter is_update ops) = 2%nat /\
    List.length ops = 5%nat.
Proof.
  intros c1 c2 c3 u1 u2.
  assert (P : Permutation [u1; c1; c2; u2; c3] [c1; c2; c3; u1; u2]).
  { apply (Permutation_trans (l' := u1 :: [c1; c2; c3] ++ [u2])).
    - do 3 apply perm_skip. apply perm_swap.
    - apply (Permutation_middle [c1; c2; c3] [u2] u1). }
  refine (batch_of_creates_and_updates sample_hierarchy model_core empty_world "task"
            c1 c2 c3 u1 u2 [u1; c1; c2; u2; c3] P eq_refl eq_refl eq_refl eq_refl eq_refl _ _ eq_refl).
  - discriminate.
  - intros t Ht. cbn in Ht.
    destruct Ht as [<- | [<- | [<- | [<- | [<- | []]]]]]; split; reflexivity.
Defined.

(** C7 for the patch [{ a: 1 }] and for the empty patch on a document
    without the mixin, each given to [tx] in a fresh adapter. *)
Lemma mixin_round_trip_witness :
  let stored := [("_id", JStr "d1"); (HASH, JStr "abc|2")] in
  let sent t w' upd :=
    tx sample_hierarchy model_core empty_world [t] = Ok w' /\
    calls w' = [BulkWrite "task" [UpdateOne (id_filter "d1") [("$set", JObj upd)]]] in
  let read upd r :=
    exists doc', mongo_update stored [("$set", JObj upd)] = Ok doc' /\
                 run [doc'] (findAll sample_hierarchy model_core "A" [] (Some skip_class_options) [])
                 = Some [r] in
  (exists w' upd r,
     sent (sample_tx core_class_TxMixin "d1" (JObj [("a", JNum 1)]) JUndef) w' upd /\
     read upd r /\ get_path (JObj r) ["M"; "a"] = Some (JNum 1)) /\
  (exists w' upd r sub,
     sent (sample_tx core_class_TxMixin "d1" (JObj []) JUndef) w' upd /\
     read upd r /\ get_path (JObj r) ["M"] = Some (JObj sub) /\
     obj_get sub "__mixin" = JStr "true").
Proof.
  intros stored sent read. split.
  - destruct (proj1 (mixin_round_trip sample_hierarchy model_core empty_world "task"
                       (sample_tx core_class_TxMixin "d1" (JObj [("a", JNum 1)]) JUndef)
                       "a" (JNum 1) stored [] "A" []
                       eq_refl eq_refl eq_refl eq_refl
                       eq_refl eq_refl eq_refl eq_refl (or_introl eq_refl)) eq_refl)
      as [w' [upd [doc' [r [sub [H1 [H2 [H3 [H4 [_ [_ [_ H8]]]]]]]]]]]].
    exists w', upd, r. split; [split; [exact H1 | exact H2]|]. split; [|exact H8].
    exists doc'. split; [exact H3 | exact H4].
  - destruct (proj1 (proj2 (mixin_round_trip sample_hierarchy model_core empty_world "task"
                              (sample_tx core_class_TxMixin "d1" (JObj []) JUndef)
                              "a" (JNum 1) stored [] "A" []
                              eq_refl eq_refl eq_refl eq_refl
                              eq_refl eq_refl eq_refl eq_refl (or_introl eq_refl))) eq_refl)
      as [w' [upd [doc' [r [sub [H1 [H2 [H3 [H4 [H5 H6]]]]]]]]]].
    exists w', upd, r, sub. split; [split; [exact H1 | exact H2]|].
    split; [|split; [exact H5 | exact H6]].
    exists doc'. split; [exact H3 | exact H4].
Defined.

(** C8 for the pattern [te%st]. *)
Lemma like_pattern_compiled_witness :
  translateLikeQuery model_core "te%st" = JObj [("$regex", JStr "^te.*st$"); ("$options", JStr "i")] /\
  regex_matches "^te.*st$" "i" "test" = Some true /\
  regex_matches "^te.*st$" "i" "teXXXst" = Some true /\
  regex_matches "^te.*st$" "i" "Xtest" = Some false /\
  translateLikeQuery model_core "a.b%(c)" = JObj [("$regex", JStr "^a\.b.*\(c\)$"); ("$options", JStr "i")] /\
  regex_matches "^a\.b.*\(c\)$" "i" "A.Bxyz(C)" = Some (like_match "a.b%(c)" "A.Bxyz(C)").
Proof.
  destruct (like_pattern_compiled model_core "te%st" "teXXXst" (fun _ => eq_refl) eq_refl)
    as [regex [H1 [H2 [_ [_ H5]]]]].
  destruct (like_pattern_compiled model_core "a.b%(c)" "A.Bxyz(C)" (fun _ => eq_refl) eq_refl)
    as [regex' [G1 [G2 [_ [G4 _]]]]].
  subst regex regex'. destruct (H5 eq_refl) as [E1 [E2 E3]].
  repeat split; assumption.
Defined.

(** C8 as stated fails when the sequence a [%] stands for has a line feed:
    the pattern means a match, the compiled expression does not match. *)
Lemma like_pattern_counterexample :
  let subject := String "t" (String "e" (String "010" "st")) in
  translateLikeQuery model_core "te%st" = JObj [("$regex", JStr "^te.*st$"); ("$options", JStr "i")] /\
  like_match "te%st" subject = true /\
  regex_matches "^te.*st$" "i" subject = Some false.
Proof. repeat split; reflexivity. Qed.



(** X3 at a patch that sets [title] and lists [title] and [old] for
    removal: [title] is no longer unset, [old] still is. *)
Lemma update_unset_conflicts_witness :
  obj_get sample_patch "$unset" = JObj [("title", JStr ""); ("old", JStr "")] /\
  exists u',
    updateOp ("d1", JObj sample_patch) =
      Ok (UpdateOne [("_id", JStr "d1")]
            [("$set", JObj [("title", JStr "t"); (HASH, JNull)]); ("$unset", JObj u')]) /\
    obj_has u' "title" = false /\ obj_has u' "old" = true.
Proof.
  split; [reflexivity|].
  destruct (update_unset_conflicts "d1" sample_patch _ eq_refl) as [u' [E S]].
  exists u'. split; [exact E|].
  split; [exact (S "title")|exact (proj1 (S "old"))].
Defined.

(** X5 on a collection of three documents, the first with a digest. *)
Lemma scan_yields_each_document_witness :
  forallb digest_typed sample_collection = true /\
  exists itf,
    next_results model_core None false 4 (opened sample_collection) =
      Ok ([Some {| cr_id := JStr "a"; cr_hash := "h1"; cr_size := Some 31%Z |};
           Some {| cr_id := JStr "b"; cr_hash := "b"; cr_size := Some 1%Z |};
           Some {| cr_id := JStr "c"; cr_hash := "c"; cr_size := Some 1%Z |};
           None], itf).
Proof.
  split; [reflexivity|].
  destruct (proj2 (scan_yields_each_document model_core None false sample_collection eq_refl))
    as [itf E].
  exists itf. exact E.
Defined.

(** X6 on the same collection, scanned with [recheck]. *)
Lemma scan_and_close_store_digests_witness :
  forallb digest_typed sample_collection = true /\
  exists rs itf,
    next_results model_core None true 4 (opened sample_collection) = Ok (rs, itf) /\
    forallb is_hashed (coll (fst (close itf))) = true.
Proof.
  split; [reflexivity|].
  destruct (scan_and_close_store_digests model_core None true sample_collection eq_refl)
    as [rs [itf [E [_ [_ [H _]]]]]].
  exists rs, itf. split; [exact E|exact H].
Defined.

(** X7 at the step of the nested lookup of the sample. *)
Lemma lookup_aliases_are_cleared_witness :
  In (JObj [("from", JStr "task"); ("localField", JStr "parent_lookup.space");
            ("foreignField", JStr "_id"); ("as", JStr "parent_lookupspace_lookup")])
     (getLookups sample_hierarchy "A" sample_nested_lookup None) /\
  forall row, obj_has (clearExtraLookups row) "parent_lookupspace_lookup" = false.
Proof.
  assert (I : In (JObj [("from", JStr "task"); ("localField", JStr "parent_lookup.space");
                        ("foreignField", JStr "_id"); ("as", JStr "parent_lookupspace_lookup")])
                 (getLookups sample_hierarchy "A" sample_nested_lookup None)).
  { right. left. reflexivity. }
  split; [exact I|].
  destruct (lookup_aliases_are_cleared sample_hierarchy "A" sample_nested_lookup None _ I)
    as [a [dom [A [_ [_ [_ C]]]]]].
  injection A as <-. intros row. exact (proj1 (C row)).
Defined.

(** X10 at a query with a lookup, a sort on an enum, a limit, a projection
    and a count. *)
Lemma findWithPipeline_layout_witness :
  exists p t,
    findWithPipeline sample_hierarchy model_core sample_modelDb "A" [] sample_pipeline_options
      = Ok (p, t) /\
    count_stage "$sort" p = 1%nat /\ count_stage "$limit" p = 1%nat /\ List.length p = 6%nat.
Proof.
  set (r := match findWithPipeline sample_hierarchy model_core sample_modelDb "A" []
                    sample_pipeline_options with
            | Ok r => r
            | Throw _ => ([], None)
            end).
  assert (E : findWithPipeline sample_hierarchy model_core sample_modelDb "A" []
                sample_pipeline_options = Ok (fst r, snd r)) by reflexivity.
  exists (fst r), (snd r). split; [exact E|].
  destruct (findWithPipeline_layout sample_hierarchy model_core sample_modelDb "A" []
              sample_pipeline_options _ _ E) as [pre [post [_ [_ [_ [_ [S [L _]]]]]]]].
  split; [exact S|]. split; [exact L|reflexivity].
Defined.

(** X11 at a path of two segments. *)
Lemma translateKey_plain_path_witness :
  forallb nonempty (split_on "."%char "address.city") = true /\
  existsb (String.eqb "$lookup") (split_on "."%char "address.city") = false /\
  translateKey sample_hierarchy "address.city" "A" [] = ("address.city", false, []).
Proof.
  split; [reflexivity|]. split; [reflexivity|].
  exact (translateKey_plain_path sample_hierarchy "address.city" "A" [] eq_refl eq_refl).
Defined.

(** X13 at a flat update of [title] in an empty bulk. *)
Lemma flat_update_coalesces_witness :
  isOperator model_core (operations (sample_tx core_class_TxUpdateDoc "d2" JUndef
                                       (JObj [("title", JStr "u")]))) = false /\
  exists b' patch,
    txUpdateDoc sample_hierarchy model_core emptyBulk
      (sample_tx core_class_TxUpdateDoc "d2" JUndef (JObj [("title", JStr "u")])) = Ok b' /\
    map_get (update b') "d2" = Some patch /\
    obj_get patch "title" = JStr "u" /\ obj_get patch HASH = JNull.
Proof.
  split; [reflexivity|].
  destruct (flat_update_coalesces sample_hierarchy model_core emptyBulk
              (sample_tx core_class_TxUpdateDoc "d2" JUndef (JObj [("title", JStr "u")])) eq_refl)
    as [b' [patch [E [_ [_ [_ [_ [M [_ [K D]]]]]]]]]].
  exists b', patch. split; [exact E|]. split; [exact M|]. split; [exact (K "title")|exact D].
Defined.

(** X14 on the sample batch. *)
Lemma tx_writes_are_not_empty_witness :
  exists w',
    tx sample_hierarchy model_core empty_world sample_batch = Ok w' /\
    bulkOps w' = [] /\
    forall d ops, In (BulkWrite d ops) (calls w') -> ops <> [].
Proof.
  set (w' := match tx sample_hierarchy model_core empty_world sample_batch with
             | Ok w => w
             | Throw _ => empty_world
             end).
  assert (E : tx sample_hierarchy model_core empty_world sample_batch = Ok w') by reflexivity.
  exists w'. split; [exact E|].
  destruct (tx_writes_are_not_empty sample_hierarchy model_core empty_world w' sample_batch E)
    as [B [new [C N]]].
  split; [exact (B eq_refl)|]. intros d ops I. apply (N d ops).
  rewrite C in I. exact I.
Defined.

(** X16 at attributes with a field and an operator. *)
Lemma translateMixinAttrs_namespaced_witness :
  startsWith "$" "M" = false /\
  translateMixinAttrs "M" (JObj [("a", JNum 1); ("$push", JObj [("tags", JStr "x")])])
    = Ok [("M.a", JNum 1); ("$push", JObj [("M.tags", JStr "x")])] /\
  namespaced "M" (JObj [("M.a", JNum 1); ("$push", JObj [("M.tags", JStr "x")])]) = true.
Proof.
  split; [reflexivity|]. split; [reflexivity|].
  exact (proj1 (translateMixinAttrs_namespaced "M"
                  (JObj [("a", JNum 1); ("$push", JObj [("tags", JStr "x")])]) _
                  eq_refl eq_refl)).
Defined.

(** X17 at a document uploaded with the digest [abc]. *)
Lemma upload_then_scan_witness :
  NoDup (obj_keys sample_upload) /\
  yield model_core None (project_hash_id (replacement_of (uploadOp model_core sample_upload)))
        (sample_iter [])
    = Ok (Some {| cr_id := JStr "d1"; cr_hash := "abc"; cr_size := Some 2%Z |}, sample_iter []).
Proof.
  assert (N : NoDup (obj_keys sample_upload)).
  { repeat constructor; cbn; intuition discriminate. }
  split; [exact N|].
  refine (proj2 (proj1 (proj2 (upload_then_scan model_core None sample_upload (sample_iter []) N))
                   "abc" eq_refl eq_refl _)).
  vm_compute. discriminate.
Defined.

(** X18 at a push of [x] into [tags]. *)
Lemma operator_update_forwarded_witness :
  isOperator model_core (operations sample_push) = true /\
  exists upd,
    txUpdateDoc sample_hierarchy model_core emptyBulk sample_push =
      Ok (with_bulkOperations emptyBulk [UpdateOne [("_id", JStr "d1")] upd]) /\
    obj_get upd "$push" = JObj [("tags", JStr "x")] /\
    obj_get upd "$set" = JObj [("modifiedBy", JStr "user1"); ("modifiedOn", JNum 1700000000000);
                               (HASH, JNull)].
Proof.
  split; [reflexivity|].
  destruct (operator_update_forwarded sample_hierarchy model_core emptyBulk sample_push ["$push"]
              eq_refl eq_refl ltac:(discriminate) ltac:(discriminate))
    as [upd [E [S K]]].
  exists upd. split; [exact E|]. split; [|exact S].
  exact (proj1 (K "$push" ltac:(discriminate))).
Defined.

(** X19 at a comment attached to the collection [comments] of a document. *)
Lemma collection_create_attached_witness :
  tx_class sample_attach = core_class_TxCollectionCUD /\
  inner sample_attach = Some sample_comment /\
  exists d attrs,
    updateBulk sample_hierarchy model_core (emptyBulk, []) sample_attach =
      Ok (with_add emptyBulk [translateDoc (createDoc2Doc model_core d)], []) /\
    attributes d = JObj attrs /\
    obj_get attrs "collection" = JStr "comments" /\
    obj_get attrs "attachedTo" = JStr "parent1" /\
    obj_get attrs "text" = JStr "hi".
Proof.
  split; [reflexivity|]. split; [reflexivity|].
  destruct (proj1 (collection_create_attached sample_hierarchy model_core emptyBulk []
                     sample_attach sample_comment eq_refl eq_refl) eq_refl)
    as [d [attrs [E [_ [_ [_ [_ [_ [A [T [_ [C K]]]]]]]]]]]].
  exists d, attrs. split; [exact E|]. split; [exact A|]. split; [exact C|]. split; [exact T|].
  rewrite (K "text") by discriminate. reflexivity.
Defined.

(** X8 at a sort on the enum-typed attribute [status]. *)
Lemma fillSortPipeline_stages_witness :
  fillSortPipeline sample_hierarchy sample_modelDb "A" (Some sample_enum_sort_options) []
    = Ok [JObj [("$addFields",
                 JObj [("sort_status",
                        JObj [("$switch",
                               JObj [("branches",
                                      JArr [JObj [("case", JObj [("$eq", JArr [JStr "$status"; JStr "open"])]);
                                                  ("then", JNum 0)];
                                            JObj [("case", JObj [("$eq", JArr [JStr "$status"; JStr "done"])]);
                                                  ("then", JNum 1)]]);
                                     ("default", JNum 2)])])])];
          JObj [("$sort", JObj [("sort_status", JNum 1)])]] /\
  exists added srt,
    [JObj [("$addFields",
            JObj [("sort_status",
                   JObj [("$switch",
                          JObj [("branches",
                                 JArr [JObj [("case", JObj [("$eq", JArr [JStr "$status"; JStr "open"])]);
                                             ("then", JNum 0)];
                                       JObj [("case", JObj [("$eq", JArr [JStr "$status"; JStr "done"])]);
                                             ("then", JNum 1)]]);
                                ("default", JNum 2)])])])];
     JObj [("$sort", JObj [("sort_status", JNum 1)])]]
      = [] ++ added ++ [JObj [("$sort", JObj srt)]] /\
    List.length added <= 1.
Proof.
  split; [reflexivity|].
  destruct (fillSortPipeline_stages sample_hierarchy sample_modelDb "A"
              (Some sample_enum_sort_options) [] _ eq_refl) as [added [srt [E [_ [L _]]]]].
  exists added, srt. split; [exact E|exact L].
Defined.

(** X20 at a cursor with one buffered document and three batches. *)
Lemma toArray_all_witness :
  List.length (batches sample_cursor) + 1 < 5 /\
  toArray 5 sample_cursor [] =
    Some [[("_id", JNum 1)]; [("_id", JNum 2)]; [("_id", JNum 3)]; [("_id", JNum 4)]].
Proof.
  assert (L : List.length (batches sample_cursor) + 1 < 5) by (cbn; lia).
  split; [exact L|]. exact (toArray_all 5 sample_cursor L).
Defined.

(** X21 on the sample batch, translated after one insert and one console
    line. *)
Lemma updateAll_only_appends_witness :
  exists st',
    updateAll sample_hierarchy model_core
      (with_add emptyBulk [[("_id", JStr "d0")]], ["line"]) sample_batch = Ok st' /\
    (exists a, add (fst st') = [("_id", JStr "d0")] :: a) /\
    (exists l, snd st' = "line" :: l).
Proof.
  set (st' := match updateAll sample_hierarchy model_core
                      (with_add emptyBulk [[("_id", JStr "d0")]], ["line"]) sample_batch with
              | Ok r => r
              | Throw _ => (emptyBulk, [])
              end).
  assert (E : updateAll sample_hierarchy model_core
                (with_add emptyBulk [[("_id", JStr "d0")]], ["line"]) sample_batch = Ok st')
    by reflexivity.
  exists st'. split; [exact E|].
  destruct (updateAll_only_appends sample_hierarchy model_core sample_batch _ _ E)
    as [_ [A [_ [_ [_ [_ L]]]]]].
  split; [exact A|exact L].
Defined.
